(** * 2DPlatform-Client: network synchronisation and animation state machine

    A shallow embedding of [src/main.cpp]: the SFML packet codec the client
    relies on, the message dispatcher of the receive loop, the local and
    remote animation state machines and the per-frame advance, followed by
    the properties of the specification that concern them. *)

From Stdlib Require Import ZArith List Bool Lia.
From Stdlib Require Import Floats.SpecFloat.
From stdpp Require Import base option list gmap fin_maps.

Local Open Scope Z_scope.

(** ** 32-bit floats

    [float] in the source is IEEE-754 binary32.  A value is kept as its 32-bit
    pattern (this is what [sf::Packet] copies to and from the wire) and is
    interpreted through the parametric specification of the Standard Library
    with [prec = 24] and [emax = 128]. *)

Module Float32.

Definition prec : Z := 24.
Definition emax : Z := 128.

(** The bit pattern: 1 sign bit, 8 exponent bits, 23 fraction bits. *)
Definition sign_bit (b : Z) : bool := Z.testbit b 31.
Definition exp_field (b : Z) : Z := Z.land (Z.shiftr b 23) 255.
Definition frac_field (b : Z) : Z := Z.land b 8388607.

Definition of_bits (b : Z) : spec_float :=
  let s := sign_bit b in
  let e := exp_field b in
  let f := frac_field b in
  if e =? 0 then
    match f with
    | Zpos m => S754_finite s m (-149)
    | _ => S754_zero s
    end
  else if e =? 255 then
    (if f =? 0 then S754_infinity s else S754_nan)
  else
    match f + 8388608 with
    | Zpos m => S754_finite s m (e - 150)
    | _ => S754_nan
    end.

(** The form of the finite values [of_bits] returns: subnormal at the least
    exponent, or normal with the leading bit in the mantissa. *)
Definition shaped (x : spec_float) : Prop :=
  match x with
  | S754_finite _ m e =>
      (e = -149 /\ Zpos m < 8388608) \/ (8388608 <= Zpos m < 16777216 /\ -149 <= e)
  | _ => True
  end.

(** Literals of the source, as bit patterns. *)
Definition lit_0_0 : Z := 0.             (* 0.f, a fresh sf::Transformable *)
Definition lit_0_1 : Z := 1036831949.    (* 0.1f  = 0x3DCCCCCD *)
Definition lit_0_18 : Z := 1043878380.   (* 0.18f = 0x3E3851EC *)
Definition lit_1_0 : Z := 1065353216.    (* 1.f   = 0x3F800000 *)
Definition lit_neg_1_0 : Z := 3212836864.  (* -1.f = 0xBF800000 *)
Definition lit_5_0 : Z := 1084227584.    (* 5.f   = 0x40A00000 *)
Definition lit_300 : Z := 1133903872.    (* 300.f = 0x43960000 *)
Definition lit_400 : Z := 1137180672.    (* 400.f = 0x43C80000 *)
Definition lit_1e6 : Z := 1232348160.    (* 1000000.f = 0x49742400 *)

(** Further values, used in the sample runs. *)
Definition lit_10_0 : Z := 1092616192.   (* 10.f  = 0x41200000 *)
Definition lit_15_0 : Z := 1097859072.   (* 15.f  = 0x41700000 *)
Definition lit_50 : Z := 1112014848.     (* 50.f  = 0x42480000 *)
Definition lit_100 : Z := 1120403456.    (* 100.f = 0x42C80000 *)

(** [a < b], [a > b], [a - b] and [std::abs] on floats. *)
Definition lt (a b : Z) : bool := SFltb (of_bits a) (of_bits b).
Definition gt (a b : Z) : bool := SFltb (of_bits b) (of_bits a).
Definition sub (a b : Z) : spec_float := SFsub prec emax (of_bits a) (of_bits b).
Definition abs_gt (d : spec_float) (threshold : Z) : bool :=
  SFltb (of_bits threshold) (SFabs d).

(** Conversion of a float to a 64-bit integer count, truncating toward zero
    (the [static_cast] inside [duration_cast]). *)
Definition trunc (x : spec_float) : Z :=
  match x with
  | S754_finite s m e =>
      let a := if 0 <=? e then Z.shiftl (Zpos m) e else Z.shiftr (Zpos m) (- e) in
      if s then - a else a
  | _ => 0
  end.

End Float32.

(** ** sf::Time

    A time span is a signed 64-bit count of microseconds.  The model keeps the
    count as an unbounded [Z]: signed overflow is undefined in the source and
    does not occur for the durations of a session. *)

(** [sf::seconds(float)]: the float is multiplied by 1000000 in single
    precision and converted to whole microseconds.  The products of the
    constants of the program (0.1f and 0.18f) are whole numbers, so the
    conversion is exact for them. *)
Definition seconds (amount : Z) : Z :=
  Float32.trunc
    (SFmul Float32.prec Float32.emax
       (Float32.of_bits amount) (Float32.of_bits Float32.lit_1e6)).

(** ** sf::Packet

    A received packet is the list of its bytes (each a [Z] in [0, 256)) that
    have not been read yet.  An extraction that needs more bytes than remain
    fails and invalidates the packet, after which every later extraction of
    the same chain fails as well and the packet tests false: the chain
    [packet >> a >> b >> c] is a sequence in the option monad. *)

Module Packet.

Definition t := list Z.

(** A reader consumes a prefix of the packet or fails. *)
Definition reader (A : Type) : Type := t -> option (A * t).

Definition ret {A} (a : A) : reader A := fun p => Some (a, p).
Definition bind {A B} (r : reader A) (k : A -> reader B) : reader B :=
  fun p => match r p with
           | Some (a, p') => k a p'
           | None => None
           end.

(** [operator>>(std::uint8_t&)] *)
Definition read_u8 : reader Z :=
  fun p => match p with
           | b :: p' => Some (b, p')
           | [] => None
           end.

(** [operator>>(bool&)]: one byte, true when it is not zero. *)
Definition read_bool : reader bool :=
  bind read_u8 (fun b => ret (negb (b =? 0))).

(** [operator>>(std::uint32_t&)]: four bytes in network (big-endian) order. *)
Definition read_u32 : reader Z :=
  fun p => match p with
           | b0 :: b1 :: b2 :: b3 :: p' =>
               Some (((b0 * 256 + b1) * 256 + b2) * 256 + b3, p')
           | _ => None
           end.

(** Reinterpretation of a 32-bit pattern as [std::int32_t]. *)
Definition to_int32 (v : Z) : Z := if v <? 2147483648 then v else v - 4294967296.

(** [operator>>(std::int32_t&)], used for [int]. *)
Definition read_i32 : reader Z :=
  bind read_u32 (fun v => ret (to_int32 v)).

(** [operator>>(float&)]: the four bytes of the value in host order
    (little-endian on the platforms the client runs on). *)
Definition read_float : reader Z :=
  fun p => match p with
           | b0 :: b1 :: b2 :: b3 :: p' =>
               Some (b0 + 256 * (b1 + 256 * (b2 + 256 * b3)), p')
           | _ => None
           end.

(** Insertion operators: each appends its bytes to the packet. *)
Definition write_u8 (v : Z) (p : t) : t := p ++ [v].
Definition write_bool (b : bool) (p : t) : t := write_u8 (if b then 1 else 0) p.
Definition write_u32 (v : Z) (p : t) : t :=
  p ++ [(v / 16777216) mod 256; (v / 65536) mod 256; (v / 256) mod 256; v mod 256].
Definition write_i32 (v : Z) (p : t) : t := write_u32 (v mod 4294967296) p.
Definition write_float (v : Z) (p : t) : t :=
  p ++ [v mod 256; (v / 256) mod 256; (v / 65536) mod 256; (v / 16777216) mod 256].

End Packet.

Declare Scope reader_scope.
Delimit Scope reader_scope with reader.
Notation "'let*' x ':=' r 'in' k" := (Packet.bind r (fun x => k))
  (at level 10, x name, r at level 100, k at level 200) : reader_scope.

(** ** Data of the client *)

(** Animation constants. *)
Definition FRAME_WIDTH : Z := 64.
Definition FRAME_HEIGHT : Z := 64.
Definition FRAMES_PER_ROW : Z := 8.
Definition STATE_CHANGE_COOLDOWN : Z := Float32.lit_0_1.
Definition CLIENT_TILE_SIZE : Z := 40.

Inductive PlayerAnimState := Stand | Walk | Jump | Stance.

#[global] Instance PlayerAnimState_eq_dec : EqDecision PlayerAnimState.
Proof. solve_decision. Defined.

(** Start index, frame count and time per frame (a float, in seconds). *)
Record AnimationData := {
  startFrameIndex : Z;
  frameCount : Z;
  timePerFrame : Z
}.

(** The table [animData] of [main]; it has an entry for every enumerator, so
    [animData.count] is 1 and [animData.at] never throws. *)
Definition animData (st : PlayerAnimState) : AnimationData :=
  match st with
  | Stand => {| startFrameIndex := 64; frameCount := 1; timePerFrame := Float32.lit_0_18 |}
  | Walk => {| startFrameIndex := 32; frameCount := 8; timePerFrame := Float32.lit_0_1 |}
  | Jump => {| startFrameIndex := 42; frameCount := 6; timePerFrame := Float32.lit_0_1 |}
  | Stance => {| startFrameIndex := 0; frameCount := 4; timePerFrame := Float32.lit_0_18 |}
  end.

Record PlayerInputState := {
  up : bool;
  down : bool;
  left : bool;
  right : bool;
  jump : bool
}.

(** A default-constructed [PlayerInputState]. *)
Definition no_input : PlayerInputState :=
  {| up := false; down := false; left := false; right := false; jump := false |}.

(** [enum class PacketType : uint8_t]; any byte value is a value of the
    type, the six enumerators are 0 to 5. *)
Definition tag_Welcome : Z := 0.
Definition tag_PlayerState : Z := 1.
Definition tag_PlayerInput : Z := 2.
Definition tag_PlayerJoined : Z := 3.
Definition tag_PlayerLeft : Z := 4.
Definition tag_MapData : Z := 5.

(** The part of an [sf::Sprite] the loop reads or writes: position, texture
    rectangle (left, top; the size is always one frame) and horizontal scale.
    [None] is the rectangle of a sprite just built from the texture (the
    whole sheet).  Every sprite has the origin (32, 32). *)
Record Sprite := {
  sp_x : Z;
  sp_y : Z;
  sp_rect : option (Z * Z);
  sp_scale : Z
}.

(** [sf::Sprite(playerTexture)]: at the origin of the world, unscaled. *)
Definition new_sprite : Sprite :=
  {| sp_x := Float32.lit_0_0; sp_y := Float32.lit_0_0; sp_rect := None;
     sp_scale := Float32.lit_1_0 |}.

Definition setPosition (x y : Z) (sp : Sprite) : Sprite :=
  {| sp_x := x; sp_y := y; sp_rect := sp_rect sp; sp_scale := sp_scale sp |}.

Definition setTextureRect (r : Z * Z) (sp : Sprite) : Sprite :=
  {| sp_x := sp_x sp; sp_y := sp_y sp; sp_rect := Some r; sp_scale := sp_scale sp |}.

Definition setScale (facing : bool) (sp : Sprite) : Sprite :=
  {| sp_x := sp_x sp; sp_y := sp_y sp; sp_rect := sp_rect sp;
     sp_scale := if facing then Float32.lit_1_0 else Float32.lit_neg_1_0 |}.

(** The texture rectangle of frame [frame] of an animation. *)
Definition frame_rect (d : AnimationData) (frame : Z) : Z * Z :=
  let frameOverallIndex := startFrameIndex d + frame in
  let frameCol := Z.rem frameOverallIndex FRAMES_PER_ROW in
  let frameRow := Z.quot frameOverallIndex FRAMES_PER_ROW in
  (frameCol * FRAME_WIDTH, frameRow * FRAME_HEIGHT).

(** Map data: the tile grid, its dimensions, the white squares drawn for the
    solid tiles and the loaded flag.  A square is kept by the position of its
    corner, [x * CLIENT_TILE_SIZE] and [y * CLIENT_TILE_SIZE]; the source
    forms these products in single precision, where they are exact for every
    map of fewer than 400000 tiles a side. *)
Record MapState := {
  clientTileMap : list (list Z);
  clientMapWidth : Z;
  clientMapHeight : Z;
  mapShapes : list (Z * Z);
  mapLoaded : bool
}.

(** The variables of the local player. *)
Record LocalPlayer := {
  playerSprite : Sprite;
  currentAnimState : PlayerAnimState;
  myIsOnGround : bool;
  previousX : Z;
  facingRight : bool;
  currentFrame : Z;
  animTimer : Z;
  stateChangeCooldownTimer : Z
}.

(** The five parallel maps of the other players, keyed by entity id. *)
Record Remote := {
  otherPlayers : gmap Z Sprite;
  otherPlayersAnimState : gmap Z PlayerAnimState;
  otherPlayersCurrentFrame : gmap Z Z;
  otherPlayersAnimTimer : gmap Z Z;
  otherPlayersFacingRight : gmap Z bool
}.

(** The variables of [main] that outlive an iteration of the loop. *)
Record state := {
  st_map : MapState;
  st_local : LocalPlayer;
  myPlayerId : Z;
  st_remote : Remote;
  connected : bool;
  windowOpen : bool
}.

Definition with_map (m : MapState) (s : state) : state :=
  {| st_map := m; st_local := st_local s; myPlayerId := myPlayerId s;
     st_remote := st_remote s; connected := connected s; windowOpen := windowOpen s |}.

Definition with_local (l : LocalPlayer) (s : state) : state :=
  {| st_map := st_map s; st_local := l; myPlayerId := myPlayerId s;
     st_remote := st_remote s; connected := connected s; windowOpen := windowOpen s |}.

Definition with_id (id : Z) (s : state) : state :=
  {| st_map := st_map s; st_local := st_local s; myPlayerId := id;
     st_remote := st_remote s; connected := connected s; windowOpen := windowOpen s |}.

Definition with_remote (r : Remote) (s : state) : state :=
  {| st_map := st_map s; st_local := st_local s; myPlayerId := myPlayerId s;
     st_remote := r; connected := connected s; windowOpen := windowOpen s |}.

Definition with_connection (c w : bool) (s : state) : state :=
  {| st_map := st_map s; st_local := st_local s; myPlayerId := myPlayerId s;
     st_remote := st_remote s; connected := c; windowOpen := w |}.

(** The state of [main] when the game loop is entered. *)
Definition initial_state : state :=
  {| st_map := {| clientTileMap := []; clientMapWidth := 0; clientMapHeight := 0;
                  mapShapes := []; mapLoaded := false |};
     st_local := {| playerSprite := setPosition Float32.lit_400 Float32.lit_300 new_sprite;
                    currentAnimState := Stand;
                    myIsOnGround := true;
                    previousX := Float32.lit_400;
                    facingRight := true;
                    currentFrame := 0;
                    animTimer := 0;
                    stateChangeCooldownTimer := 0 |};
     myPlayerId := 4294967295;
     st_remote := {| otherPlayers := ∅; otherPlayersAnimState := ∅;
                     otherPlayersCurrentFrame := ∅; otherPlayersAnimTimer := ∅;
                     otherPlayersFacingRight := ∅ |};
     connected := false;
     windowOpen := true |}.

(** ** Wire codec *)

Module Wire.
Import Packet.
Local Open Scope reader_scope.

(** [operator<<(sf::Packet&, const PlayerInputState&)] *)
Definition write_input (input : PlayerInputState) (p : Packet.t) : Packet.t :=
  write_bool (jump input)
    (write_bool (right input)
       (write_bool (left input)
          (write_bool (down input)
             (write_bool (up input) p)))).

(** [operator>>(sf::Packet&, PlayerInputState&)] *)
Definition read_input : reader PlayerInputState :=
  let* u := read_bool in
  let* d := read_bool in
  let* l := read_bool in
  let* r := read_bool in
  let* j := read_bool in
  ret {| up := u; down := d; left := l; right := r; jump := j |}.

(** [operator<<(sf::Packet&, PacketType)] and [operator>>(sf::Packet&, PacketType&)] *)
Definition write_type (type : Z) (p : Packet.t) : Packet.t := write_u8 type p.
Definition read_type : reader Z := read_u8.

(** The packet sent once per frame while connected:
    [inputPacket << PacketType::PlayerInput << currentInput]. *)
Definition input_packet (currentInput : PlayerInputState) : Packet.t :=
  write_input currentInput (write_type tag_PlayerInput []).

(** [packet >> id >> x >> y >> isOnGround], the extraction of both the
    PlayerState and the PlayerJoined case. *)
Definition read_player : reader (Z * Z * Z * bool) :=
  let* id := read_u32 in
  let* x := read_float in
  let* y := read_float in
  let* onGround := read_bool in
  ret (id, x, y, onGround).

(** [packet >> width >> height] of the MapData case. *)
Definition read_dimensions : reader (Z * Z) :=
  let* width := read_u32 in
  let* height := read_u32 in
  ret (width, height).

End Wire.

(** ** Synchronisation dispatcher: the cases of the receive loop *)

(** Case [PacketType::PlayerState], branch [id == myPlayerId]. *)
Definition local_state_update (x y : Z) (isOnGround : bool) (l : LocalPlayer) : LocalPlayer :=
  {| playerSprite := setPosition x y (playerSprite l);
     currentAnimState := currentAnimState l;
     myIsOnGround := isOnGround;
     previousX := previousX l;
     facingRight := facingRight l;
     currentFrame := currentFrame l;
     animTimer := animTimer l;
     stateChangeCooldownTimer := stateChangeCooldownTimer l |}.

(** Creation of the five entries of a player first seen in a PlayerState. *)
Definition create_on_state (id : Z) (r : Remote) : Remote :=
  {| otherPlayers := <[id := new_sprite]> (otherPlayers r);
     otherPlayersAnimState := <[id := Stand]> (otherPlayersAnimState r);
     otherPlayersCurrentFrame := <[id := 0]> (otherPlayersCurrentFrame r);
     otherPlayersAnimTimer := <[id := 0]> (otherPlayersAnimTimer r);
     otherPlayersFacingRight := <[id := true]> (otherPlayersFacingRight r) |}.

(** The target state of another player from its ground flag and the
    horizontal distance to its previous position. *)
Definition remote_target (isOnGround : bool) (x otherPrevX : Z) : PlayerAnimState :=
  if negb isOnGround then Jump
  else if Float32.abs_gt (Float32.sub x otherPrevX) Float32.lit_0_1 then Walk
  else Stand.

(** Case [PacketType::PlayerState], branch [id != myPlayerId].
    [otherPlayers[id]] is present after the creation block.  Reading
    [otherPlayersAnimState[id]] yields [Stand] for a missing key (and inserts
    it, which the final assignment to the same key subsumes). *)
Definition remote_state_update (id x y : Z) (isOnGround : bool) (r0 : Remote) : Remote :=
  let r := match otherPlayers r0 !! id with
           | None => create_on_state id r0
           | Some _ => r0
           end in
  let sprite := default new_sprite (otherPlayers r !! id) in
  let otherPrevX := sp_x sprite in
  let sprites := <[id := setPosition x y sprite]> (otherPlayers r) in
  let facing :=
    if Float32.gt x otherPrevX then <[id := true]> (otherPlayersFacingRight r)
    else if Float32.lt x otherPrevX then <[id := false]> (otherPlayersFacingRight r)
    else otherPlayersFacingRight r in
  let current := default Stand (otherPlayersAnimState r !! id) in
  let targetOtherState := remote_target isOnGround x otherPrevX in
  let changed := negb (bool_decide (current = targetOtherState)) in
  {| otherPlayers := sprites;
     otherPlayersAnimState := <[id := targetOtherState]> (otherPlayersAnimState r);
     otherPlayersCurrentFrame :=
       if changed then <[id := 0]> (otherPlayersCurrentFrame r)
       else otherPlayersCurrentFrame r;
     otherPlayersAnimTimer :=
       if changed then <[id := 0]> (otherPlayersAnimTimer r)
       else otherPlayersAnimTimer r;
     otherPlayersFacingRight := facing |}.

Definition on_player_state (id x y : Z) (isOnGround : bool) (s : state) : state :=
  if id =? myPlayerId s
  then with_local (local_state_update x y isOnGround (st_local s)) s
  else with_remote (remote_state_update id x y isOnGround (st_remote s)) s.

(** Case [PacketType::PlayerJoined]. *)
Definition create_on_join (id x y : Z) (onGround : bool) (r : Remote) : Remote :=
  {| otherPlayers := <[id := setPosition x y new_sprite]> (otherPlayers r);
     otherPlayersAnimState :=
       <[id := if onGround then Stand else Jump]> (otherPlayersAnimState r);
     otherPlayersCurrentFrame := <[id := 0]> (otherPlayersCurrentFrame r);
     otherPlayersAnimTimer := <[id := 0]> (otherPlayersAnimTimer r);
     otherPlayersFacingRight := <[id := true]> (otherPlayersFacingRight r) |}.

Definition on_player_joined (id x y : Z) (onGround : bool) (s : state) : state :=
  if negb (id =? myPlayerId s) && bool_decide (otherPlayers (st_remote s) !! id = None)
  then with_remote (create_on_join id x y onGround (st_remote s)) s
  else s.

(** Case [PacketType::PlayerLeft]. *)
Definition erase_player (id : Z) (r : Remote) : Remote :=
  match otherPlayers r !! id with
  | Some _ =>
      {| otherPlayers := delete id (otherPlayers r);
         otherPlayersAnimState := delete id (otherPlayersAnimState r);
         otherPlayersCurrentFrame := delete id (otherPlayersCurrentFrame r);
         otherPlayersAnimTimer := delete id (otherPlayersAnimTimer r);
         otherPlayersFacingRight := delete id (otherPlayersFacingRight r) |}
  | None =>
      {| otherPlayers := delete id (otherPlayers r);
         otherPlayersAnimState := otherPlayersAnimState r;
         otherPlayersCurrentFrame := otherPlayersCurrentFrame r;
         otherPlayersAnimTimer := otherPlayersAnimTimer r;
         otherPlayersFacingRight := otherPlayersFacingRight r |}
  end.

Definition on_player_left (id : Z) (s : state) : state :=
  if negb (id =? myPlayerId s)
  then with_remote (erase_player id (st_remote s)) s
  else s.

(** Case [PacketType::MapData].

    [None] stands for the ends of the program the source can reach here: the
    uncaught [std::length_error] of a vector sized by a negative [int], and
    the undefined behaviour of [clientTileMap[y][x]] outside the row.
    Exhaustion of memory by large dimensions is outside the model. *)

(** [clientTileMap.resize(height, std::vector<int>(width))]: rows that exist
    are kept as they are, missing rows are added zero-filled. *)
Definition resize_rows (height width : Z) (grid : list (list Z)) : list (list Z) :=
  let n := Z.to_nat height in
  take n grid ++ replicate (n - length grid) (replicate (Z.to_nat width) 0).

(** [clientTileMap[y][x] = tileValue] *)
Definition set_tile (y x tileValue : Z) (grid : list (list Z)) : option (list (list Z)) :=
  match grid !! Z.to_nat y with
  | Some row =>
      if x <? Z.of_nat (length row)
      then Some (<[Z.to_nat y := <[Z.to_nat x := tileValue]> row]> grid)
      else None
  | None => None
  end.

(** The variables the two nested loops work on. *)
Record MapParse := {
  mp_packet : Packet.t;
  mp_grid : list (list Z);
  mp_shapes : list (Z * Z);
  parseOk : bool
}.

(** Body of the inner loop. *)
Definition parse_tile (y x : Z) (st : MapParse) : option MapParse :=
  match Packet.read_i32 (mp_packet st) with
  | Some (tileValue, p) =>
      match set_tile y x tileValue (mp_grid st) with
      | Some grid =>
          Some {| mp_packet := p;
                  mp_grid := grid;
                  mp_shapes :=
                    if tileValue =? 1
                    then mp_shapes st ++ [(x * CLIENT_TILE_SIZE, y * CLIENT_TILE_SIZE)]
                    else mp_shapes st;
                  parseOk := parseOk st |}
      | None => None
      end
  | None =>
      Some {| mp_packet := mp_packet st; mp_grid := mp_grid st;
              mp_shapes := mp_shapes st; parseOk := false |}
  end.

(** [for (int x = 0; x < clientMapWidth; ++x)], over the remaining columns. *)
Fixpoint parse_columns (y : Z) (xs : list Z) (st : MapParse) : option MapParse :=
  match xs with
  | [] => Some st
  | x :: xs' =>
      match parse_tile y x st with
      | Some st' => if parseOk st' then parse_columns y xs' st' else Some st'
      | None => None
      end
  end.

(** [for (int y = 0; y < clientMapHeight; ++y)], over the remaining rows. *)
Fixpoint parse_rows (width : Z) (ys : list Z) (st : MapParse) : option MapParse :=
  match ys with
  | [] => Some st
  | y :: ys' =>
      match parse_columns y (seqZ 0 width) st with
      | Some st' => if parseOk st' then parse_rows width ys' st' else Some st'
      | None => None
      end
  end.

Definition on_map_data (p : Packet.t) (m : MapState) : option MapState :=
  match Wire.read_dimensions p with
  | Some (width, height, p') =>
      let w := Packet.to_int32 width in
      let h := Packet.to_int32 height in
      if (w <? 0) || (h <? 0) then None
      else
        let start := {| mp_packet := p';
                        mp_grid := resize_rows h w (clientTileMap m);
                        mp_shapes := [];
                        parseOk := true |} in
        match parse_rows w (seqZ 0 h) start with
        | Some st =>
            Some {| clientTileMap := mp_grid st;
                    clientMapWidth := w;
                    clientMapHeight := h;
                    mapShapes := mp_shapes st;
                    mapLoaded := if parseOk st then true else mapLoaded m |}
        | None => None
        end
  | None => Some m
  end.

(** One iteration of the receive loop: the switch on the packet type.  A
    packet whose fields cannot be extracted is skipped; PlayerInput and any
    byte that is no enumerator fall to the default case. *)
Definition dispatch (s : state) (packet : Packet.t) : option state :=
  match Wire.read_type packet with
  | None => Some s
  | Some (type, p) =>
      if type =? tag_Welcome then
        match Packet.read_u32 p with
        | Some (receivedId, _) => Some (with_id receivedId s)
        | None => Some s
        end
      else if type =? tag_PlayerState then
        match Wire.read_player p with
        | Some (id, x, y, isOnGround, _) => Some (on_player_state id x y isOnGround s)
        | None => Some s
        end
      else if type =? tag_PlayerJoined then
        match Wire.read_player p with
        | Some (id, x, y, onGround, _) => Some (on_player_joined id x y onGround s)
        | None => Some s
        end
      else if type =? tag_PlayerLeft then
        match Packet.read_u32 p with
        | Some (id, _) => Some (on_player_left id s)
        | None => Some s
        end
      else if type =? tag_MapData then
        match on_map_data p (st_map s) with
        | Some m => Some (with_map m s)
        | None => None
        end
      else Some s
  end.

(** [while (socket.receive(packet) == Done)]: the packets available in a
    frame, in arrival order. *)
Fixpoint receive_all (s : state) (packets : list Packet.t) : option state :=
  match packets with
  | [] => Some s
  | packet :: rest =>
      match dispatch s packet with
      | Some s' => receive_all s' rest
      | None => None
      end
  end.

(** ** The game loop *)

(** What one iteration of the loop takes from outside the program. *)
Record FrameInput := {
  fi_dt : Z;                       (* clock.restart(), in microseconds *)
  fi_close : bool;                 (* a Closed event was polled *)
  fi_connect_ok : bool;            (* socket.connect would return Done *)
  fi_focus : bool;                 (* window.hasFocus() *)
  fi_keys : PlayerInputState;      (* the keys held *)
  fi_inbound : list Packet.t;      (* the packets socket.receive delivers *)
  fi_remote_alive : bool           (* socket.getRemoteAddress() has a value *)
}.

(** Top of the loop: every timer is moved by [dt]. *)
Definition tick_local (dt : Z) (l : LocalPlayer) : LocalPlayer :=
  {| playerSprite := playerSprite l;
     currentAnimState := currentAnimState l;
     myIsOnGround := myIsOnGround l;
     previousX := previousX l;
     facingRight := facingRight l;
     currentFrame := currentFrame l;
     animTimer := animTimer l + dt;
     stateChangeCooldownTimer :=
       if 0 <? stateChangeCooldownTimer l
       then stateChangeCooldownTimer l - dt
       else stateChangeCooldownTimer l |}.

Definition tick_remote (dt : Z) (r : Remote) : Remote :=
  {| otherPlayers := otherPlayers r;
     otherPlayersAnimState := otherPlayersAnimState r;
     otherPlayersCurrentFrame := otherPlayersCurrentFrame r;
     otherPlayersAnimTimer := (fun t => t + dt) <$> otherPlayersAnimTimer r;
     otherPlayersFacingRight := otherPlayersFacingRight r |}.

(** The input of the frame: all false without focus. *)
Definition sample_input (i : FrameInput) : PlayerInputState :=
  if fi_focus i then fi_keys i else no_input.

Definition update_facing (i : FrameInput) (l : LocalPlayer) : LocalPlayer :=
  {| playerSprite := playerSprite l;
     currentAnimState := currentAnimState l;
     myIsOnGround := myIsOnGround l;
     previousX := previousX l;
     facingRight :=
       if fi_focus i then
         if right (fi_keys i) then true
         else if left (fi_keys i) then false
         else facingRight l
       else facingRight l;
     currentFrame := currentFrame l;
     animTimer := animTimer l;
     stateChangeCooldownTimer := stateChangeCooldownTimer l |}.

(** Target state of the local player. *)
Definition local_target (l : LocalPlayer) (currentInput : PlayerInputState) : PlayerAnimState :=
  if negb (myIsOnGround l) then Jump
  else if left currentInput || right currentInput then Walk
  else Stand.

(** Whether the local state changes in this frame. *)
Definition local_changes (l : LocalPlayer) (currentInput : PlayerInputState) : bool :=
  negb (bool_decide (currentAnimState l = local_target l currentInput))
  && (stateChangeCooldownTimer l <=? 0).

Definition local_transition (currentInput : PlayerInputState) (l : LocalPlayer) : LocalPlayer :=
  if local_changes l currentInput then
    let targetState := local_target l currentInput in
    {| playerSprite := setTextureRect (frame_rect (animData targetState) 0) (playerSprite l);
       currentAnimState := targetState;
       myIsOnGround := myIsOnGround l;
       previousX := previousX l;
       facingRight := facingRight l;
       currentFrame := 0;
       animTimer := 0;
       stateChangeCooldownTimer := seconds STATE_CHANGE_COOLDOWN |}
  else l.

(** The frame advance shared by the local player and the other players:
    when the timer has reached the time per frame, one frame duration is
    taken off it and the frame index moves on by one. *)
Definition advance_frame (d : AnimationData) (frame timer : Z) : Z * Z :=
  if seconds (timePerFrame d) <=? timer
  then (Z.rem (frame + 1) (frameCount d), timer - seconds (timePerFrame d))
  else (frame, timer).

Definition advance_sprite (d : AnimationData) (frame timer : Z) (sp : Sprite) : Sprite :=
  if seconds (timePerFrame d) <=? timer
  then setTextureRect (frame_rect d (Z.rem (frame + 1) (frameCount d))) sp
  else sp.

Definition local_advance (l : LocalPlayer) : LocalPlayer :=
  let currentData := animData (currentAnimState l) in
  let '(frame, timer) := advance_frame currentData (currentFrame l) (animTimer l) in
  {| playerSprite :=
       setScale (facingRight l)
         (advance_sprite currentData (currentFrame l) (animTimer l) (playerSprite l));
     currentAnimState := currentAnimState l;
     myIsOnGround := myIsOnGround l;
     previousX := previousX l;
     facingRight := facingRight l;
     currentFrame := frame;
     animTimer := timer;
     stateChangeCooldownTimer := stateChangeCooldownTimer l |}.

(** Body of the loop over [otherPlayers].  [otherPlayersCurrentFrame.at(id)]
    and [otherPlayersAnimTimer.at(id)] throw for a missing key: [None]. *)
Definition remote_advance_one (id : Z) (sprite : Sprite) (r : Remote) : option Remote :=
  match otherPlayersAnimState r !! id with
  | None => Some r
  | Some otherState =>
      match otherPlayersCurrentFrame r !! id with
      | None => None
      | Some otherFrame =>
          match otherPlayersAnimTimer r !! id with
          | None => None
          | Some otherTimer =>
              let otherData := animData otherState in
              let '(frame, timer) := advance_frame otherData otherFrame otherTimer in
              let sprite1 := advance_sprite otherData otherFrame otherTimer sprite in
              let sprite2 := match otherPlayersFacingRight r !! id with
                             | Some facing => setScale facing sprite1
                             | None => sprite1
                             end in
              Some {| otherPlayers := <[id := sprite2]> (otherPlayers r);
                      otherPlayersAnimState := otherPlayersAnimState r;
                      otherPlayersCurrentFrame := <[id := frame]> (otherPlayersCurrentFrame r);
                      otherPlayersAnimTimer := <[id := timer]> (otherPlayersAnimTimer r);
                      otherPlayersFacingRight := otherPlayersFacingRight r |}
          end
      end
  end.

Fixpoint remote_advance_loop (players : list (Z * Sprite)) (r : Remote) : option Remote :=
  match players with
  | [] => Some r
  | (id, sprite) :: rest =>
      match remote_advance_one id sprite r with
      | Some r' => remote_advance_loop rest r'
      | None => None
      end
  end.

(** [for (auto &[id, spritePtr] : otherPlayers)]; the pointers stored in the
    map are never null. *)
Definition remote_advance (r : Remote) : option Remote :=
  remote_advance_loop (map_to_list (otherPlayers r)) r.

(** Bottom of the loop: [previousX = playerSprite.getPosition().x]. *)
Definition end_of_frame (l : LocalPlayer) : LocalPlayer :=
  {| playerSprite := playerSprite l;
     currentAnimState := currentAnimState l;
     myIsOnGround := myIsOnGround l;
     previousX := sp_x (playerSprite l);
     facingRight := facingRight l;
     currentFrame := currentFrame l;
     animTimer := animTimer l;
     stateChangeCooldownTimer := stateChangeCooldownTimer l |}.

(** The network part of an iteration: connection attempt, receive loop and
    the check of the remote address. *)
Definition network (i : FrameInput) (s : state) : option state :=
  let s1 := if connected s then s
            else with_connection (fi_connect_ok i) (windowOpen s) s in
  if connected s1 then
    match receive_all s1 (fi_inbound i) with
    | Some s2 =>
        Some (if fi_remote_alive i then s2
              else with_connection false false s2)
    | None => None
    end
  else Some s1.

(** The part of an iteration before the network is touched: the timers,
    the window events and the facing of the local player. *)
Definition before_network (i : FrameInput) (s : state) : state :=
  let s1 := with_remote (tick_remote (fi_dt i) (st_remote s))
              (with_local (tick_local (fi_dt i) (st_local s)) s) in
  let s2 := if fi_close i then with_connection (connected s1) false s1 else s1 in
  with_local (update_facing i (st_local s2)) s2.

(** One iteration of [while (window.isOpen())].  The view, the camera clamp
    and the draw calls read the state and change none of the fields kept
    here. *)
Definition frame (i : FrameInput) (s : state) : option state :=
  match network i (before_network i s) with
  | Some s4 =>
      let l := local_advance (local_transition (sample_input i) (st_local s4)) in
      match remote_advance (st_remote s4) with
      | Some r => Some (with_remote r (with_local (end_of_frame l) s4))
      | None => None
      end
  | None => None
  end.

(** The packet the iteration sends when connected. *)
Definition frame_sends (i : FrameInput) : Packet.t := Wire.input_packet (sample_input i).

(** A run of the loop over the inputs of consecutive iterations; the loop
    ends when the window is closed. *)
Fixpoint frames (inputs : list FrameInput) (s : state) : option state :=
  match inputs with
  | [] => Some s
  | i :: rest =>
      if windowOpen s then
        match frame i s with
        | Some s' => frames rest s'
        | None => None
        end
      else Some s
  end.

(** ** Messages

    The six message shapes, as values.  The client only ever builds a
    PlayerInput message; the other five are built by the server. *)

Inductive Message :=
| Welcome (id : Z)
| PlayerState (id x y : Z) (onGround : bool)
| PlayerInput (input : PlayerInputState)
| PlayerJoined (id x y : Z) (onGround : bool)
| PlayerLeft (id : Z)
| MapData (width height : Z) (tiles : list Z).

(** [n] tile codes, each extracted as [int], in the row-major order of the
    two loops of the MapData case. *)
Fixpoint read_tiles (n : nat) : Packet.reader (list Z) :=
  match n with
  | O => Packet.ret []
  | S k =>
      (let* tileValue := Packet.read_i32 in
       let* rest := read_tiles k in
       Packet.ret (tileValue :: rest))%reader
  end.

(** The value a packet decodes to: the tag, then the extraction chain the
    source applies to that tag ([operator>>] for PlayerInput, the chains of
    the switch for the others). *)
Definition decode (packet : Packet.t) : option Message :=
  match Wire.read_type packet with
  | None => None
  | Some (type, p) =>
      if type =? tag_Welcome then
        match Packet.read_u32 p with
        | Some (id, _) => Some (Welcome id)
        | None => None
        end
      else if type =? tag_PlayerState then
        match Wire.read_player p with
        | Some (id, x, y, onGround, _) => Some (PlayerState id x y onGround)
        | None => None
        end
      else if type =? tag_PlayerInput then
        match Wire.read_input p with
        | Some (input, _) => Some (PlayerInput input)
        | None => None
        end
      else if type =? tag_PlayerJoined then
        match Wire.read_player p with
        | Some (id, x, y, onGround, _) => Some (PlayerJoined id x y onGround)
        | None => None
        end
      else if type =? tag_PlayerLeft then
        match Packet.read_u32 p with
        | Some (id, _) => Some (PlayerLeft id)
        | None => None
        end
      else if type =? tag_MapData then
        match Wire.read_dimensions p with
        | Some (width, height, p') =>
            let w := Packet.to_int32 width in
            let h := Packet.to_int32 height in
            if (w <? 0) || (h <? 0) then None
            else
              match read_tiles (Z.to_nat (w * h)) p' with
              | Some (tiles, _) => Some (MapData width height tiles)
              | None => None
              end
        | None => None
        end
      else None
  end.

(** Modelled from the spec: the encoders of Welcome, PlayerState,
    PlayerJoined, PlayerLeft and MapData belong to the server and are not in
    the client source.  Each writes the tag and then the fields of the layout
    of the wire codec, with the insertion operator of the type the client
    extracts.  The PlayerInput case is the packet the client sends. *)
Definition encode (m : Message) : Packet.t :=
  match m with
  | Welcome id =>
      Packet.write_u32 id (Wire.write_type tag_Welcome [])
  | PlayerState id x y onGround =>
      Packet.write_bool onGround
        (Packet.write_float y
           (Packet.write_float x
              (Packet.write_u32 id (Wire.write_type tag_PlayerState []))))
  | PlayerInput input => Wire.input_packet input
  | PlayerJoined id x y onGround =>
      Packet.write_bool onGround
        (Packet.write_float y
           (Packet.write_float x
              (Packet.write_u32 id (Wire.write_type tag_PlayerJoined []))))
  | PlayerLeft id =>
      Packet.write_u32 id (Wire.write_type tag_PlayerLeft [])
  | MapData width height tiles =>
      fold_left (fun p tileValue => Packet.write_i32 tileValue p) tiles
        (Packet.write_u32 height
           (Packet.write_u32 width (Wire.write_type tag_MapData [])))
  end.

(** Ranges of the field types. *)
Definition is_u32 (v : Z) : Prop := 0 <= v < 4294967296.
Definition is_i32 (v : Z) : Prop := -2147483648 <= v < 2147483648.

(** A well-formed message: every field is in the range of its type, and a
    map carries exactly width x height tile codes, with dimensions that are
    non-negative as [int]. *)
Definition well_formed (m : Message) : Prop :=
  match m with
  | Welcome id => is_u32 id
  | PlayerState id x y _ => is_u32 id /\ is_u32 x /\ is_u32 y
  | PlayerInput _ => True
  | PlayerJoined id x y _ => is_u32 id /\ is_u32 x /\ is_u32 y
  | PlayerLeft id => is_u32 id
  | MapData width height tiles =>
      0 <= width < 2147483648 /\ 0 <= height < 2147483648 /\
      Z.of_nat (length tiles) = width * height /\
      Forall is_i32 tiles
  end.

(** ** The MapData loops, seen from outside *)

(** The cells of a [width] x [height] grid as (row, column), in the order
    the two loops visit them. *)
Definition cells (width height : Z) : list (Z * Z) :=
  flat_map (fun y => map (pair y) (seqZ 0 width)) (seqZ 0 height).

(** The two loops as one loop over a list of cells, with the same exit when
    an extraction fails. *)
Fixpoint parse_cells (cs : list (Z * Z)) (st : MapParse) : option MapParse :=
  match cs with
  | [] => Some st
  | (y, x) :: cs' =>
      match parse_tile y x st with
      | Some st' => if parseOk st' then parse_cells cs' st' else Some st'
      | None => None
      end
  end.

(** The tile codes the loops extract from a packet: at most [n], up to the
    first extraction that fails. *)
Fixpoint read_available (n : nat) (p : Packet.t) : list Z :=
  match n with
  | O => []
  | S k =>
      match Packet.read_i32 p with
      | Some (tileValue, p') => tileValue :: read_available k p'
      | None => []
      end
  end.

(** The squares of the solid tiles among the tiles extracted for the cells. *)
Fixpoint solid_shapes (cs : list (Z * Z)) (tiles : list Z) : list (Z * Z) :=
  match cs, tiles with
  | (y, x) :: cs', tileValue :: tiles' =>
      (if tileValue =? 1 then [(x * CLIENT_TILE_SIZE, y * CLIENT_TILE_SIZE)] else [])
      ++ solid_shapes cs' tiles'
  | _, _ => []
  end.

(** [clientTileMap[y][x]], when the cell exists. *)
Definition tile_at (grid : list (list Z)) (y x : Z) : option Z :=
  match grid !! Z.to_nat y with
  | Some row => row !! Z.to_nat x
  | None => None
  end.

(** The cell exists in the grid. *)
Definition cell_in (grid : list (list Z)) (c : Z * Z) : Prop :=
  0 <= c.1 /\ 0 <= c.2 /\
  exists row, grid !! Z.to_nat c.1 = Some row /\ c.2 < Z.of_nat (length row).

(** ** Properties of states used in the claims *)

(** The five maps of the other players have the same keys. *)
Definition keys_agree (r : Remote) : Prop :=
  dom (otherPlayersAnimState r) = dom (otherPlayers r) /\
  dom (otherPlayersCurrentFrame r) = dom (otherPlayers r) /\
  dom (otherPlayersAnimTimer r) = dom (otherPlayers r) /\
  dom (otherPlayersFacingRight r) = dom (otherPlayers r).

(** The local id has no record among the other players. *)
Definition local_not_remote (s : state) : Prop :=
  otherPlayers (st_remote s) !! myPlayerId s = None.

(** The position carried by the last PlayerState of a sequence that names
    [id], if there is one. *)
Fixpoint last_position_of (id : Z) (msgs : list (Z * Z * Z * bool)) : option (Z * Z) :=
  match msgs with
  | [] => None
  | (i, x, y, _) :: rest =>
      match last_position_of id rest with
      | Some pos => Some pos
      | None => if i =? id then Some (x, y) else None
      end
  end.

Definition player_state_message (f : Z * Z * Z * bool) : Message :=
  let '(id, x, y, onGround) := f in PlayerState id x y onGround.

(** The message concerns the player with this id. *)
Definition names_id (m : Message) (id : Z) : Prop :=
  match m with
  | PlayerState i _ _ _ | PlayerJoined i _ _ _ | PlayerLeft i => i = id
  | _ => False
  end.

(** The fields of a PlayerState are in the range of their types. *)
Definition fields_in_range (f : Z * Z * Z * bool) : Prop :=
  let '(id, x, y, _) := f in is_u32 id /\ is_u32 x /\ is_u32 y.

(** The bytes of a sequence of tile codes. *)
Definition tile_bytes (tiles : list Z) : Packet.t :=
  flat_map (fun tileValue => Packet.write_i32 tileValue []) tiles.

(** Every Welcome of the sequence carries an id that has no record among
    the other players when it is processed. *)
Fixpoint welcomes_fresh (s : state) (packets : list Packet.t) : bool :=
  match packets with
  | [] => true
  | packet :: rest =>
      match decode packet with
      | Some (Welcome id) => bool_decide (otherPlayers (st_remote s) !! id = None)
      | _ => true
      end
      && match dispatch s packet with
         | Some s' => welcomes_fresh s' rest
         | None => true
         end
  end.

(** The animation variables of the local player: no case of the dispatcher
    writes them. *)
Definition local_animation (l : LocalPlayer) : PlayerAnimState * Z * Z * Z * bool :=
  (currentAnimState l, currentFrame l, animTimer l, stateChangeCooldownTimer l,
   facingRight l).

(** ** Sample runs *)

(** An iteration in which [dt] microseconds have elapsed, the window has the
    focus, the keys [keys] are held and the packets [inbound] arrive over a
    live connection. *)
Definition iteration (dt : Z) (keys : PlayerInputState) (inbound : list Packet.t) : FrameInput :=
  {| fi_dt := dt; fi_close := false; fi_connect_ok := true; fi_focus := true;
     fi_keys := keys; fi_inbound := inbound; fi_remote_alive := true |}.

Definition right_held : PlayerInputState :=
  {| up := false; down := false; left := false; right := true; jump := false |}.

(** The first iteration of a session: the local player is told it is player
    1 and starts to walk right; player 7 joins at the origin and then moves
    to x = 5. *)
Definition opening : FrameInput :=
  iteration 0 right_held
    [encode (Welcome 1);
     encode (PlayerJoined 7 Float32.lit_0_0 Float32.lit_0_0 true);
     encode (PlayerState 7 Float32.lit_5_0 Float32.lit_0_0 true)].

(** An iteration in which nothing arrives and the right key stays held. *)
Definition quiet (dt : Z) : FrameInput := iteration dt right_held [].

(** Packets in which the server echoes the local id 1 in every kind of
    message, and at last renumbers the local player. *)
Definition echo_session : list Packet.t :=
  [encode (Welcome 1);
   encode (PlayerState 1 Float32.lit_400 Float32.lit_300 true);
   encode (PlayerJoined 1 Float32.lit_400 Float32.lit_300 true);
   encode (PlayerJoined 7 Float32.lit_5_0 Float32.lit_0_0 true);
   encode (PlayerLeft 1);
   encode (Welcome 2)].

(** Packets in which players come and go. *)
Definition churn_session : list Packet.t :=
  [encode (Welcome 1);
   encode (PlayerJoined 7 Float32.lit_5_0 Float32.lit_0_0 true);
   encode (PlayerState 8 Float32.lit_400 Float32.lit_300 false);
   encode (PlayerState 7 Float32.lit_0_0 Float32.lit_0_0 true);
   encode (PlayerLeft 7);
   encode (PlayerLeft 9)].

(** A map of two columns and one row, both tiles solid, and a second
    message for the same dimensions whose content stops after one tile. *)
Definition full_map : Packet.t := encode (MapData 2 1 [1; 1]).

(** The state after the first iteration: the local player and player 7
    both walk, at frame 0 with empty frame timers. *)
Definition walking : state := default initial_state (frame opening initial_state).

(** An iteration in which the server tells the local player, now player 1,
    that it is in the air, and a later one in which nothing arrives. *)
Definition takeoff : FrameInput :=
  iteration 16000 no_input
    [encode (Welcome 1); encode (PlayerState 1 Float32.lit_400 Float32.lit_300 false)].

Definition airborne : FrameInput := iteration 16000 no_input [].

(** ** The view

    The end of an iteration centres the view on the local player and, once a
    map is loaded, clamps the centre to the map.  The view is 800 x 600. *)

Definition lit_2_0 : Z := 1073741824.    (* 2.f   = 0x40000000 *)
Definition lit_40 : Z := 1109393408.     (* 40.f  = 0x42200000, CLIENT_TILE_SIZE *)
Definition lit_600 : Z := 1142292480.    (* 600.f = 0x44160000 *)
Definition lit_800 : Z := 1145569280.    (* 800.f = 0x44480000 *)

(** Conversion of an [int] to [float], to the nearest value. *)
Definition float_of_int (n : Z) : spec_float :=
  binary_normalize Float32.prec Float32.emax n 0 false.

(** [std::min(a, b)] is [(b < a) ? b : a], [std::max(a, b)] is
    [(a < b) ? b : a]. *)
Definition float_min (a b : spec_float) : spec_float := if SFltb b a then b else a.
Definition float_max (a b : spec_float) : spec_float := if SFltb a b then b else a.

(** [gameView.getSize().x / 2.0f] and [gameView.getSize().y / 2.0f]. *)
Definition viewHalfWidth : spec_float :=
  SFdiv Float32.prec Float32.emax (Float32.of_bits lit_800) (Float32.of_bits lit_2_0).
Definition viewHalfHeight : spec_float :=
  SFdiv Float32.prec Float32.emax (Float32.of_bits lit_600) (Float32.of_bits lit_2_0).

(** [clientMapWidth * CLIENT_TILE_SIZE] and the same for the height. *)
Definition map_pixels (tiles : Z) : spec_float :=
  SFmul Float32.prec Float32.emax (float_of_int tiles) (Float32.of_bits lit_40).

(** [mapWidthPixels - viewHalfWidth] and the same for the height. *)
Definition far_limit (half : spec_float) (tiles : Z) : spec_float :=
  SFsub Float32.prec Float32.emax (map_pixels tiles) half.

(** One coordinate of the clamp: [std::max(half, std::min(pos, limit))]. *)
Definition clamp_center (half pos limit : spec_float) : spec_float :=
  float_max half (float_min pos limit).

(** The centre of the view the iteration draws with. *)
Definition view_center (s : state) : spec_float * spec_float :=
  let playerPos_x := Float32.of_bits (sp_x (playerSprite (st_local s))) in
  let playerPos_y := Float32.of_bits (sp_y (playerSprite (st_local s))) in
  if mapLoaded (st_map s) then
    (clamp_center viewHalfWidth playerPos_x
       (far_limit viewHalfWidth (clientMapWidth (st_map s))),
     clamp_center viewHalfHeight playerPos_y
       (far_limit viewHalfHeight (clientMapHeight (st_map s))))
  else (playerPos_x, playerPos_y).

(** ** Further notions for the properties of the code *)

(** A packet the switch does nothing with: it is empty, its type byte is
    PlayerInput or no enumerator, or its fields stop short (4 bytes for an
    id, 13 for the fields of a player, 8 for the dimensions of a map). *)
Definition discarded (packet : Packet.t) : bool :=
  match packet with
  | [] => true
  | type :: fields =>
      if (type =? tag_Welcome) || (type =? tag_PlayerLeft)
      then (length fields <? 4)%nat
      else if (type =? tag_PlayerState) || (type =? tag_PlayerJoined)
      then (length fields <? 13)%nat
      else if type =? tag_MapData
      then (length fields <? 8)%nat
      else true
  end.

(** The packet does not carry the MapData type. *)
Definition not_map_data (packet : Packet.t) : bool :=
  match packet with
  | type :: _ => negb (type =? tag_MapData)
  | [] => true
  end.

(** The iteration closes the window: a close event is polled, or the
    connection it has or makes has lost its remote address. *)
Definition closes (i : FrameInput) (s : state) : bool :=
  fi_close i || ((connected s || fi_connect_ok i) && negb (fi_remote_alive i)).

(** The frame index is one of the frames of the animation. *)
Definition frame_in_range (st : PlayerAnimState) (frame : Z) : Prop :=
  0 <= frame < frameCount (animData st).

(** What holds of the state and frame index of every player during a
    session: the state is one the transitions select and the frame index is
    a frame of its animation; every player that has a state has a frame
    index. *)
Definition local_frames_ok (l : LocalPlayer) : Prop :=
  currentAnimState l <> Stance /\
  frame_in_range (currentAnimState l) (currentFrame l).

Definition remote_frames_ok (r : Remote) : Prop :=
  forall id st,
    otherPlayersAnimState r !! id = Some st ->
    st <> Stance /\
    exists frame,
      otherPlayersCurrentFrame r !! id = Some frame /\ frame_in_range st frame.

Definition frames_ok (s : state) : Prop :=
  local_frames_ok (st_local s) /\
  keys_agree (st_remote s) /\
  remote_frames_ok (st_remote s).

(** What holds of the timers when time does not run backwards: no frame
    timer is negative and the cooldown is at most its full length. *)
Definition timers_ok (s : state) : Prop :=
  0 <= animTimer (st_local s) /\
  stateChangeCooldownTimer (st_local s) <= seconds STATE_CHANGE_COOLDOWN /\
  forall id timer, otherPlayersAnimTimer (st_remote s) !! id = Some timer -> 0 <= timer.

(** The entries of the five maps for one id. *)
Definition remote_record (r : Remote) (id : Z)
  : option Sprite * option PlayerAnimState * option Z * option Z * option bool :=
  (otherPlayers r !! id, otherPlayersAnimState r !! id, otherPlayersCurrentFrame r !! id,
   otherPlayersAnimTimer r !! id, otherPlayersFacingRight r !! id).

(** A session of iterations in which time does not run backwards. *)
Definition forward (inputs : list FrameInput) : Prop :=
  Forall (fun i => 0 <= fi_dt i) inputs.

(** Sample iterations: one that sees the connection lost, and the packets of
    a player that joins and leaves. *)
Definition lost_connection : FrameInput :=
  {| fi_dt := 16000; fi_close := false; fi_connect_ok := true; fi_focus := true;
     fi_keys := no_input; fi_inbound := [encode (Welcome 1)]; fi_remote_alive := false |}.

(** The texture rectangle of the local sprite: not set yet, or the
    rectangle of the current frame of the current animation. *)
Definition local_rect_ok (l : LocalPlayer) : Prop :=
  sp_rect (playerSprite l) = None \/
  sp_rect (playerSprite l)
    = Some (frame_rect (animData (currentAnimState l)) (currentFrame l)).


(** The iteration polls no close event, is or gets connected, keeps its
    remote address, and receives exactly these PlayerState messages. *)
Definition delivers (i : FrameInput) (msgs : list (Z * Z * Z * bool)) : Prop :=
  fi_close i = false /\ fi_connect_ok i = true /\ fi_remote_alive i = true /\
  fi_inbound i = map (fun f => encode (player_state_message f)) msgs.

(** [window.draw(playerSprite)], the last draw call of an iteration: the
    position the local sprite is drawn at. *)
Definition drawn_position (s : state) : Z * Z :=
  (sp_x (playerSprite (st_local s)), sp_y (playerSprite (st_local s))).


(** A map one column wider than [full_map]. *)
Definition wide_map : Packet.t := encode (MapData 3 1 [1; 1; 1]).

(** A map whose width has the top bit set. *)
Definition negative_map : Packet.t := encode (MapData 4294967295 1 []).

(** A map narrower and taller than [full_map]. *)
Definition tall_map : Packet.t := encode (MapData 1 2 [1; 1]).

(** The state of a client that has applied [full_map]. *)
Definition mapped : state := default initial_state (dispatch initial_state full_map).

(** * Properties *)

(** ** Floats *)

(** Alignment of two mantissas shifts the one with the larger exponent. *)
Lemma iter_xO (d m : positive) : Zpos (Pos.iter xO m d) = Zpos m * 2 ^ Zpos d.
Proof.
  induction d as [| d IH] using Pos.peano_ind.
  - cbn. lia.
  - rewrite Pos.iter_succ, Pos2Z.inj_succ, Z.pow_succ_r by lia.
    rewrite Pos2Z.inj_xO, IH. ring.
Qed.

Lemma shl_align_fst (mx : positive) (ex ez : Z) :
  ez <= ex -> Zpos (fst (shl_align mx ex ez)) = Zpos mx * 2 ^ (ex - ez).
Proof.
  intros Hle. unfold shl_align.
  destruct (ez - ex) as [| d | d] eqn:E; cbn [fst].
  - replace (ex - ez) with 0 by lia. cbn. lia.
  - lia.
  - rewrite iter_xO. f_equal. f_equal. lia.
Qed.

(** Rounding keeps the sign it is given, so a positive finite result of a
    normalisation comes from a positive integer. *)
Lemma binary_round_aux_sign
    (prec emax : Z) (s s' : bool) (m e : Z) (l : location) (m' : positive) (e' : Z) :
  binary_round_aux prec emax s m e l = S754_finite s' m' e' -> s' = s.
Proof.
  unfold binary_round_aux.
  destruct (shr_fexp prec emax m e l) as [mrs1 e1].
  destruct (shr_fexp prec emax _ e1 loc_Exact) as [mrs2 e2].
  destruct (shr_m mrs2); try discriminate.
  destruct (e2 <=? emax - prec); [| discriminate].
  now intros [= <- _ _].
Qed.

Lemma binary_normalize_positive (prec emax : Z) (M e : Z) (m' : positive) (e' : Z) :
  binary_normalize prec emax M e false = S754_finite false m' e' -> 0 < M.
Proof.
  destruct M as [| p | p]; cbn [binary_normalize]; [discriminate | lia |].
  unfold binary_round. destruct (shl_align _ _ _) as [mz ez].
  intros H. apply binary_round_aux_sign in H. discriminate.
Qed.

Lemma pow2_ge_2 (k : Z) : 1 <= k -> 2 <= 2 ^ k.
Proof. intros Hk. change 2 with (2 ^ 1) at 1. apply Z.pow_le_mono_r; lia. Qed.

(** On values of the form [of_bits] returns, a positive finite difference
    [x - y] means that the comparison finds [y < x]. *)
Lemma SFsub_positive (x y : spec_float) (m : positive) (e : Z) :
  Float32.shaped x -> Float32.shaped y ->
  SFsub 24 128 x y = S754_finite false m e -> SFltb y x = true.
Proof.
  destruct x as [sx | sx | | sx mx ex], y as [sy | sy | | sy my ey];
    cbn [SFsub Float32.shaped]; intros Hx Hy; try discriminate.
  - destruct sx, sy; discriminate.
  - intros [= Hs _ _]. destruct sy; [reflexivity | discriminate].
  - destruct sx, sy; discriminate.
  - intros [= -> _ _]. reflexivity.
  - intros H. apply binary_normalize_positive in H.
    change IntDef.Z.min with Z.min in H.
    rewrite !shl_align_fst in H by lia.
    unfold SFltb, SFcompare.
    destruct sx, sy; cbn [cond_Zopp] in H.
    + (* both negative *)
      destruct (Z.compare_spec ey ex) as [Heq | Hlt | Hgt].
      * subst ey. replace (ex - Z.min ex ex) with 0 in H by lia.
        rewrite Z.pow_0_r, !Z.mul_1_r in H.
        change PosDef.Pos.compare_cont with Pos.compare_cont.
        rewrite Pos.compare_cont_spec. cbn [Pos.switch_Eq].
        assert (Hc : (my ?= mx)%positive = Gt) by (apply Pos.compare_gt_iff; lia).
        now rewrite Hc.
      * exfalso. replace (ey - Z.min ex ey) with 0 in H by lia.
        pose proof (pow2_ge_2 (ex - Z.min ex ey) ltac:(lia)).
        assert (8388608 <= Zpos mx) by lia.
        assert (Zpos my < 16777216) by lia. nia.
      * reflexivity.
    + lia.
    + reflexivity.
    + destruct (Z.compare_spec ey ex) as [Heq | Hlt | Hgt].
      * subst ey. replace (ex - Z.min ex ex) with 0 in H by lia.
        rewrite Z.pow_0_r, !Z.mul_1_r in H.
        change PosDef.Pos.compare_cont with Pos.compare_cont.
        rewrite Pos.compare_cont_spec. cbn [Pos.switch_Eq].
        assert (Hc : (my ?= mx)%positive = Lt) by (apply Pos.compare_lt_iff; lia).
        now rewrite Hc.
      * reflexivity.
      * exfalso. replace (ex - Z.min ex ey) with 0 in H by lia.
        pose proof (pow2_ge_2 (ey - Z.min ex ey) ltac:(lia)).
        assert (8388608 <= Zpos my) by lia.
        assert (Zpos mx < 16777216) by lia. nia.
Qed.

Lemma of_bits_shaped (b : Z) : Float32.shaped (Float32.of_bits b).
Proof.
  unfold Float32.of_bits.
  assert (He : 0 <= Float32.exp_field b < 256).
  { unfold Float32.exp_field. change 255 with (Z.ones 8).
    rewrite Z.land_ones by lia. apply Z.mod_pos_bound. lia. }
  assert (Hf : 0 <= Float32.frac_field b < 8388608).
  { unfold Float32.frac_field. change 8388607 with (Z.ones 23).
    rewrite Z.land_ones by lia. apply Z.mod_pos_bound. lia. }
  destruct (Z.eqb_spec (Float32.exp_field b) 0) as [E0 | E0].
  - destruct (Float32.frac_field b) as [| m | m] eqn:F; cbn [Float32.shaped]; [exact I | | exact I].
    left. lia.
  - destruct (Z.eqb_spec (Float32.exp_field b) 255) as [E1 | E1].
    + now destruct (Float32.frac_field b =? 0).
    + destruct (Float32.frac_field b + 8388608) as [| m | m] eqn:F;
        cbn [Float32.shaped]; [exact I | | exact I].
      right. lia.
Qed.

(** When the difference the source computes is a positive number, the
    comparison of the source orders the operands accordingly. *)
Lemma float_sub_positive_gt (a b : Z) (m : positive) (e : Z) :
  Float32.sub a b = S754_finite false m e -> Float32.gt a b = true.
Proof.
  unfold Float32.sub, Float32.gt. apply SFsub_positive; apply of_bits_shaped.
Qed.

(** The bit patterns stand for the values they are named after. *)
Example float_literals :
  map (fun b => Float32.trunc (Float32.of_bits b))
    [Float32.lit_0_0; Float32.lit_1_0; Float32.lit_neg_1_0; Float32.lit_5_0;
     Float32.lit_10_0; Float32.lit_15_0; Float32.lit_50; Float32.lit_100;
     Float32.lit_300; Float32.lit_400; Float32.lit_1e6]
  = [0; 1; -1; 5; 10; 15; 50; 100; 300; 400; 1000000].
Proof. reflexivity. Qed.

Example float_fractions :
  Float32.of_bits Float32.lit_0_1 = S754_finite false 13421773 (-27) /\
  Float32.of_bits Float32.lit_0_18 = S754_finite false 12079596 (-26) /\
  seconds Float32.lit_0_1 = 100000 /\
  seconds Float32.lit_0_18 = 180000.
Proof. repeat split; vm_compute; reflexivity. Qed.

(** The comparison the dispatcher makes for a player that moved by 5. *)
Example moved_by_five :
  Float32.sub Float32.lit_15_0 Float32.lit_10_0 = Float32.of_bits Float32.lit_5_0 /\
  remote_target true Float32.lit_15_0 Float32.lit_10_0 = Walk /\
  remote_target true Float32.lit_10_0 Float32.lit_10_0 = Stand /\
  remote_target false Float32.lit_10_0 Float32.lit_10_0 = Jump.
Proof. repeat split; vm_compute; reflexivity. Qed.

(** ** The packet codec *)

Lemma u32_big_endian (v : Z) :
  is_u32 v ->
  (((v / 16777216) mod 256 * 256 + (v / 65536) mod 256) * 256 + (v / 256) mod 256) * 256
  + v mod 256 = v.
Proof.
  unfold is_u32. intros Hv.
  assert (H0 : (v / 16777216) mod 256 = v / 16777216)
    by (apply Z.mod_small; split; [apply Z.div_pos; lia | apply Z.div_lt_upper_bound; lia]).
  rewrite H0.
  assert (A1 : v / 65536 = v / 256 / 256) by (rewrite Z.div_div by lia; reflexivity).
  assert (A2 : v / 16777216 = v / 65536 / 256) by (rewrite Z.div_div by lia; reflexivity).
  pose proof (Z.div_mod v 256 ltac:(lia)) as E1.
  pose proof (Z.div_mod (v / 256) 256 ltac:(lia)) as E2.
  pose proof (Z.div_mod (v / 65536) 256 ltac:(lia)) as E3.
  rewrite <- A1 in E2. rewrite <- A2 in E3.
  assert (H3 : (v / 65536) mod 256 = v / 65536 - 256 * (v / 16777216)) by lia.
  assert (H2 : (v / 256) mod 256 = v / 256 - 256 * (v / 65536)) by lia.
  assert (H1 : v mod 256 = v - 256 * (v / 256)) by lia.
  rewrite H3, H2, H1. ring.
Qed.

Lemma u32_little_endian (v : Z) :
  is_u32 v ->
  v mod 256 + 256 * ((v / 256) mod 256 + 256 * ((v / 65536) mod 256
    + 256 * ((v / 16777216) mod 256))) = v.
Proof.
  intros Hv. pose proof (u32_big_endian v Hv) as E. lia.
Qed.

Lemma read_write_u32 (v : Z) (rest : Packet.t) :
  is_u32 v ->
  Packet.read_u32 (Packet.write_u32 v [] ++ rest) = Some (v, rest).
Proof.
  intros Hv. unfold Packet.write_u32, Packet.read_u32. cbn [app].
  now rewrite u32_big_endian.
Qed.

Lemma to_int32_wrap (v : Z) : is_i32 v -> Packet.to_int32 (v mod 4294967296) = v.
Proof.
  unfold is_i32, Packet.to_int32. intros Hv.
  destruct (Z_lt_le_dec v 0) as [Hneg | Hpos].
  - replace (v mod 4294967296) with (v + 4294967296)
      by (apply Z.mod_unique with (q := -1); lia).
    destruct (Z.ltb_spec (v + 4294967296) 2147483648); lia.
  - rewrite Z.mod_small by lia.
    destruct (Z.ltb_spec v 2147483648); lia.
Qed.

Lemma to_int32_small (v : Z) : 0 <= v < 2147483648 -> Packet.to_int32 v = v.
Proof.
  unfold Packet.to_int32. intros Hv. destruct (Z.ltb_spec v 2147483648); lia.
Qed.

Lemma wrap_is_u32 (v : Z) : is_u32 (v mod 4294967296).
Proof. unfold is_u32. apply Z.mod_pos_bound. lia. Qed.

Lemma read_write_float (v : Z) (rest : Packet.t) :
  is_u32 v ->
  Packet.read_float (Packet.write_float v [] ++ rest) = Some (v, rest).
Proof.
  intros Hv. unfold Packet.write_float, Packet.read_float. cbn [app].
  now rewrite u32_little_endian.
Qed.

Lemma read_write_bool (b : bool) (rest : Packet.t) :
  Packet.read_bool (Packet.write_bool b [] ++ rest) = Some (b, rest).
Proof. now destruct b. Qed.

Lemma read_write_i32 (v : Z) (rest : Packet.t) :
  is_i32 v ->
  Packet.read_i32 (Packet.write_i32 v [] ++ rest) = Some (v, rest).
Proof.
  intros Hv. unfold Packet.read_i32, Packet.write_i32, Packet.bind.
  rewrite read_write_u32 by apply wrap_is_u32.
  unfold Packet.ret. now rewrite to_int32_wrap.
Qed.

(** Every insertion appends to what the packet holds. *)
Lemma write_u32_app (v : Z) (p : Packet.t) :
  Packet.write_u32 v p = p ++ Packet.write_u32 v [].
Proof. reflexivity. Qed.

Lemma write_i32_app (v : Z) (p : Packet.t) :
  Packet.write_i32 v p = p ++ Packet.write_i32 v [].
Proof. reflexivity. Qed.

Lemma write_float_app (v : Z) (p : Packet.t) :
  Packet.write_float v p = p ++ Packet.write_float v [].
Proof. reflexivity. Qed.

Lemma write_bool_app (b : bool) (p : Packet.t) :
  Packet.write_bool b p = p ++ Packet.write_bool b [].
Proof. reflexivity. Qed.

Lemma write_tiles_app (tiles : list Z) (p : Packet.t) :
  fold_left (fun p tileValue => Packet.write_i32 tileValue p) tiles p = p ++ tile_bytes tiles.
Proof.
  revert p. induction tiles as [| v tiles IH]; intros p; cbn [fold_left tile_bytes flat_map].
  - now rewrite app_nil_r.
  - rewrite IH, write_i32_app, <- app_assoc. reflexivity.
Qed.

Lemma read_tiles_bytes (tiles : list Z) (rest : Packet.t) :
  Forall is_i32 tiles ->
  read_tiles (length tiles) (tile_bytes tiles ++ rest) = Some (tiles, rest).
Proof.
  induction 1 as [| v tiles Hv _ IH]; [reflexivity |].
  cbn [length read_tiles tile_bytes flat_map]. unfold Packet.bind.
  rewrite <- app_assoc, read_write_i32 by exact Hv.
  fold (tile_bytes tiles). now rewrite IH.
Qed.

(** The player fields of PlayerState and PlayerJoined. *)
Lemma read_player_written (id x y : Z) (onGround : bool) (rest : Packet.t) :
  is_u32 id -> is_u32 x -> is_u32 y ->
  Wire.read_player
    (Packet.write_u32 id [] ++ Packet.write_float x [] ++ Packet.write_float y []
       ++ Packet.write_bool onGround [] ++ rest)
  = Some (id, x, y, onGround, rest).
Proof.
  intros Hid Hx Hy. unfold Wire.read_player, Packet.bind.
  rewrite read_write_u32 by exact Hid.
  rewrite read_write_float by exact Hx.
  rewrite read_write_float by exact Hy.
  now rewrite read_write_bool.
Qed.

Lemma encode_player_state (id x y : Z) (onGround : bool) :
  encode (PlayerState id x y onGround)
  = tag_PlayerState :: Packet.write_u32 id [] ++ Packet.write_float x []
      ++ Packet.write_float y [] ++ Packet.write_bool onGround [] ++ [].
Proof. reflexivity. Qed.

Lemma encode_player_joined (id x y : Z) (onGround : bool) :
  encode (PlayerJoined id x y onGround)
  = tag_PlayerJoined :: Packet.write_u32 id [] ++ Packet.write_float x []
      ++ Packet.write_float y [] ++ Packet.write_bool onGround [] ++ [].
Proof. reflexivity. Qed.

Lemma encode_map_data (width height : Z) (tiles : list Z) :
  encode (MapData width height tiles)
  = tag_MapData :: Packet.write_u32 width [] ++ Packet.write_u32 height []
      ++ tile_bytes tiles ++ [].
Proof.
  cbn [encode]. rewrite write_tiles_app, app_nil_r. reflexivity.
Qed.

(** Decoding what was encoded gives the message back. *)
Lemma decode_encode (m : Message) : well_formed m -> decode (encode m) = Some m.
Proof.
  destruct m as [id | id x y g | input | id x y g | id | width height tiles]; cbn [well_formed].
  - intros Hid. change (encode (Welcome id)) with (tag_Welcome :: Packet.write_u32 id [] ++ []).
    unfold decode. cbn [Wire.read_type Packet.read_u8]. cbn [Z.eqb tag_Welcome].
    now rewrite read_write_u32.
  - intros (Hid & Hx & Hy). rewrite encode_player_state.
    unfold decode. cbn [Wire.read_type Packet.read_u8].
    change (tag_PlayerState =? tag_Welcome) with false.
    change (tag_PlayerState =? tag_PlayerState) with true. cbv iota.
    now rewrite read_player_written.
  - intros _. now destruct input as [[] [] [] [] []].
  - intros (Hid & Hx & Hy). rewrite encode_player_joined.
    unfold decode. cbn [Wire.read_type Packet.read_u8].
    change (tag_PlayerJoined =? tag_Welcome) with false.
    change (tag_PlayerJoined =? tag_PlayerState) with false.
    change (tag_PlayerJoined =? tag_PlayerInput) with false.
    change (tag_PlayerJoined =? tag_PlayerJoined) with true. cbv iota.
    now rewrite read_player_written.
  - intros Hid. change (encode (PlayerLeft id)) with (tag_PlayerLeft :: Packet.write_u32 id [] ++ []).
    unfold decode. cbn [Wire.read_type Packet.read_u8].
    change (tag_PlayerLeft =? tag_Welcome) with false.
    change (tag_PlayerLeft =? tag_PlayerState) with false.
    change (tag_PlayerLeft =? tag_PlayerInput) with false.
    change (tag_PlayerLeft =? tag_PlayerJoined) with false.
    change (tag_PlayerLeft =? tag_PlayerLeft) with true. cbv iota.
    now rewrite read_write_u32.
  - intros (Hw & Hh & Hlen & Htiles). rewrite encode_map_data.
    unfold decode. cbn [Wire.read_type Packet.read_u8].
    change (tag_MapData =? tag_Welcome) with false.
    change (tag_MapData =? tag_PlayerState) with false.
    change (tag_MapData =? tag_PlayerInput) with false.
    change (tag_MapData =? tag_PlayerJoined) with false.
    change (tag_MapData =? tag_PlayerLeft) with false.
    change (tag_MapData =? tag_MapData) with true. cbv iota.
    unfold Wire.read_dimensions, Packet.bind.
    rewrite read_write_u32 by (unfold is_u32; lia).
    rewrite read_write_u32 by (unfold is_u32; lia).
    unfold Packet.ret. rewrite !to_int32_small by lia.
    destruct (Z.ltb_spec width 0); [lia |].
    destruct (Z.ltb_spec height 0); [lia |]. cbn [orb].
    rewrite <- Hlen, Nat2Z.id.
    now rewrite read_tiles_bytes.
Qed.

(** ** The cases of the dispatcher *)

Section DispatchCases.

Variable P : state -> state -> Prop.
Variable s : state.
Variable packet : Packet.t.
Hypothesis P_skip : P s s.
Hypothesis P_welcome :
  forall id, decode packet = Some (Welcome id) -> P s (with_id id s).
Hypothesis P_state :
  forall id x y g, decode packet = Some (PlayerState id x y g) ->
                   P s (on_player_state id x y g s).
Hypothesis P_joined :
  forall id x y g, decode packet = Some (PlayerJoined id x y g) ->
                   P s (on_player_joined id x y g s).
Hypothesis P_left :
  forall id, decode packet = Some (PlayerLeft id) -> P s (on_player_left id s).
Hypothesis P_map : forall p m, on_map_data p (st_map s) = Some m -> P s (with_map m s).

(** Whatever a packet holds, the dispatcher skips it or runs one case, on
    the fields the packet decodes to. *)
Lemma dispatch_cases (s' : state) : dispatch s packet = Some s' -> P s s'.
Proof using All.
  revert P_welcome P_state P_joined P_left. unfold dispatch, decode.
  destruct (Wire.read_type packet) as [[type p] |]; [| intros; simplify_eq; exact P_skip].
  destruct (type =? tag_Welcome).
  { destruct (Packet.read_u32 p) as [[id ?] |]; intros; simplify_eq; auto. }
  destruct (type =? tag_PlayerState).
  { destruct (Wire.read_player p) as [[[[[id x] y] g] ?] |]; intros; simplify_eq; auto. }
  destruct (type =? tag_PlayerInput) eqn:E2.
  { apply Z.eqb_eq in E2. subst type. cbn. intros; simplify_eq; exact P_skip. }
  destruct (type =? tag_PlayerJoined).
  { destruct (Wire.read_player p) as [[[[[id x] y] g] ?] |]; intros; simplify_eq; auto. }
  destruct (type =? tag_PlayerLeft).
  { destruct (Packet.read_u32 p) as [[id ?] |]; intros; simplify_eq; auto. }
  destruct (type =? tag_MapData).
  { destruct (on_map_data p (st_map s)) as [m |] eqn:E; intros; simplify_eq; eauto. }
  intros; simplify_eq; exact P_skip.
Qed.

End DispatchCases.

(** ** Agreement of the five maps *)

Lemma keys_agree_create_on_state (id : Z) (r : Remote) :
  keys_agree r -> keys_agree (create_on_state id r).
Proof.
  unfold keys_agree. intros (H1 & H2 & H3 & H4). cbn.
  rewrite !dom_insert_L, H1, H2, H3, H4. done.
Qed.

(** Writing under a key the map has does not change the key set. *)
Lemma known_key_union (id : Z) (keys : gset Z) : id ∈ keys -> {[id]} ∪ keys = keys.
Proof. intros Hin. apply subseteq_union_1_L, singleton_subseteq_l, Hin. Qed.

Lemma keys_agree_remote_state_update (id x y : Z) (g : bool) (r : Remote) :
  keys_agree r -> keys_agree (remote_state_update id x y g r).
Proof.
  intros Hr. unfold remote_state_update.
  set (r1 := match otherPlayers r !! id with
             | None => create_on_state id r
             | Some _ => r
             end).
  assert (Hr1 : keys_agree r1).
  { subst r1. destruct (otherPlayers r !! id); [exact Hr | now apply keys_agree_create_on_state]. }
  assert (Hin : id ∈ dom (otherPlayers r1)).
  { subst r1. destruct (otherPlayers r !! id) eqn:E.
    - apply elem_of_dom. rewrite E. eauto.
    - cbn. rewrite dom_insert_L. apply elem_of_union_l, elem_of_singleton. reflexivity. }
  clearbody r1. destruct Hr1 as (H1 & H2 & H3 & H4).
  unfold keys_agree. cbn.
  split; [| split; [| split]].
  - rewrite !dom_insert_L, H1. reflexivity.
  - destruct (negb _); rewrite ?dom_insert_L, H2, ?dom_insert_L, ?known_key_union by exact Hin;
      reflexivity.
  - destruct (negb _); rewrite ?dom_insert_L, H3, ?dom_insert_L, ?known_key_union by exact Hin;
      reflexivity.
  - destruct (Float32.gt _ _); [| destruct (Float32.lt _ _)];
      rewrite ?dom_insert_L, H4, ?dom_insert_L, ?known_key_union by exact Hin; reflexivity.
Qed.

Lemma keys_agree_create_on_join (id x y : Z) (g : bool) (r : Remote) :
  keys_agree r -> keys_agree (create_on_join id x y g r).
Proof.
  unfold keys_agree. intros (H1 & H2 & H3 & H4). cbn.
  rewrite !dom_insert_L, H1, H2, H3, H4. done.
Qed.

Lemma keys_agree_erase_player (id : Z) (r : Remote) :
  keys_agree r -> keys_agree (erase_player id r).
Proof.
  unfold keys_agree, erase_player. intros (H1 & H2 & H3 & H4).
  destruct (otherPlayers r !! id) eqn:E; cbn.
  - rewrite !dom_delete_L, H1, H2, H3, H4. done.
  - rewrite dom_delete_L.
    assert (Hout : id ∉ dom (otherPlayers r)) by (now apply not_elem_of_dom).
    rewrite H1, H2, H3, H4.
    rewrite (difference_disjoint_L (dom (otherPlayers r)) {[id]})
      by (apply disjoint_singleton_r, Hout).
    done.
Qed.

Lemma keys_agree_dispatch (s s' : state) (packet : Packet.t) :
  keys_agree (st_remote s) -> dispatch s packet = Some s' -> keys_agree (st_remote s').
Proof.
  intros Hs. apply (dispatch_cases (fun _ t => keys_agree (st_remote t))); try done.
  - intros id x y g _. unfold on_player_state.
    destruct (id =? myPlayerId s); [done |].
    now apply keys_agree_remote_state_update.
  - intros id x y g _. unfold on_player_joined.
    destruct (_ && _); [| done].
    now apply keys_agree_create_on_join.
  - intros id _. unfold on_player_left.
    destruct (negb _); [| done].
    now apply keys_agree_erase_player.
Qed.

Lemma keys_agree_receive_all (packets : list Packet.t) (s s' : state) :
  keys_agree (st_remote s) -> receive_all s packets = Some s' -> keys_agree (st_remote s').
Proof.
  revert s. induction packets as [| packet rest IH]; intros s Hs; cbn [receive_all].
  - now intros [= <-].
  - destruct (dispatch s packet) as [s1 |] eqn:E; [| done].
    apply IH. eapply keys_agree_dispatch; eauto.
Qed.

(** ** Dispatching a decoded message *)

(** What the dispatcher does with a packet, by the message it decodes to. *)
Lemma dispatch_decoded (s : state) (packet : Packet.t) (m : Message) :
  decode packet = Some m ->
  match m with
  | Welcome id => dispatch s packet = Some (with_id id s)
  | PlayerState id x y g => dispatch s packet = Some (on_player_state id x y g s)
  | PlayerInput _ => dispatch s packet = Some s
  | PlayerJoined id x y g => dispatch s packet = Some (on_player_joined id x y g s)
  | PlayerLeft id => dispatch s packet = Some (on_player_left id s)
  | MapData _ _ _ => True
  end.
Proof.
  unfold decode, dispatch.
  destruct (Wire.read_type packet) as [[type p] |]; [| done].
  destruct (type =? tag_Welcome) eqn:E0.
  { destruct (Packet.read_u32 p) as [[id ?] |]; now intros [= <-]. }
  destruct (type =? tag_PlayerState) eqn:E1.
  { destruct (Wire.read_player p) as [[[[[id x] y] g] ?] |]; now intros [= <-]. }
  destruct (type =? tag_PlayerInput) eqn:E2.
  { destruct (Wire.read_input p) as [[input ?] |]; intros [= <-].
    apply Z.eqb_eq in E2. subst type. reflexivity. }
  destruct (type =? tag_PlayerJoined) eqn:E3.
  { destruct (Wire.read_player p) as [[[[[id x] y] g] ?] |]; now intros [= <-]. }
  destruct (type =? tag_PlayerLeft) eqn:E4.
  { destruct (Packet.read_u32 p) as [[id ?] |]; now intros [= <-]. }
  destruct (type =? tag_MapData) eqn:E5; [| done].
  destruct (Wire.read_dimensions p) as [[[width height] p'] |]; [| done].
  destruct (_ || _); [done |].
  destruct (read_tiles _ _) as [[tiles ?] |]; now intros [= <-].
Qed.

Lemma dispatch_player_state (s : state) (id x y : Z) (g : bool) :
  is_u32 id -> is_u32 x -> is_u32 y ->
  dispatch s (encode (PlayerState id x y g)) = Some (on_player_state id x y g s).
Proof.
  intros Hid Hx Hy.
  apply (dispatch_decoded s _ (PlayerState id x y g)).
  now apply decode_encode.
Qed.

Lemma dispatch_player_joined (s : state) (id x y : Z) (g : bool) :
  is_u32 id -> is_u32 x -> is_u32 y ->
  dispatch s (encode (PlayerJoined id x y g)) = Some (on_player_joined id x y g s).
Proof.
  intros Hid Hx Hy.
  apply (dispatch_decoded s _ (PlayerJoined id x y g)).
  now apply decode_encode.
Qed.

Lemma dispatch_welcome (s : state) (id : Z) :
  is_u32 id -> dispatch s (encode (Welcome id)) = Some (with_id id s).
Proof.
  intros Hid. apply (dispatch_decoded s _ (Welcome id)). now apply decode_encode.
Qed.

(** ** The local player under PlayerState messages *)

Lemma receive_player_states (msgs : list (Z * Z * Z * bool)) (s : state) :
  Forall fields_in_range msgs ->
  exists s',
    receive_all s (map (fun f => encode (player_state_message f)) msgs) = Some s' /\
    myPlayerId s' = myPlayerId s /\
    match last_position_of (myPlayerId s) msgs with
    | Some (x, y) =>
        sp_x (playerSprite (st_local s')) = x /\ sp_y (playerSprite (st_local s')) = y
    | None => st_local s' = st_local s
    end.
Proof.
  intros Hmsgs. revert s.
  induction Hmsgs as [| [[[id x] y] g] rest (Hid & Hx & Hy) _ IH]; intros s.
  - exists s. cbn. done.
  - cbn [map receive_all player_state_message].
    rewrite dispatch_player_state by assumption.
    destruct (IH (on_player_state id x y g s)) as (s' & Hrun & Hmy & Hpos).
    assert (Hsame : myPlayerId (on_player_state id x y g s) = myPlayerId s).
    { unfold on_player_state. now destruct (id =? myPlayerId s). }
    rewrite Hsame in Hmy, Hpos.
    exists s'. split; [exact Hrun |]. split; [exact Hmy |].
    cbn [last_position_of].
    destruct (last_position_of (myPlayerId s) rest) as [[x' y'] |]; [exact Hpos |].
    rewrite Hpos. unfold on_player_state.
    destruct (id =? myPlayerId s); done.
Qed.

(** ** The local id and the registry *)

(** A message that names the current local id leaves the five maps alone. *)
Lemma local_id_filtered (s s' : state) (packet : Packet.t) (m : Message) :
  decode packet = Some m -> names_id m (myPlayerId s) ->
  dispatch s packet = Some s' -> st_remote s' = st_remote s.
Proof.
  intros Hdec Hname Hd.
  pose proof (dispatch_decoded s packet m Hdec) as H.
  destruct m as [id | id x y g | input | id x y g | id | w h tiles];
    cbn in Hname; try done; subst id; rewrite H in Hd; injection Hd as <-.
  - unfold on_player_state. now rewrite Z.eqb_refl.
  - unfold on_player_joined. now rewrite Z.eqb_refl.
  - unfold on_player_left. now rewrite Z.eqb_refl.
Qed.

(** No case of the dispatcher gives a record to the id that is local when
    the packet is processed. *)
Lemma local_id_not_inserted (s s' : state) (packet : Packet.t) :
  local_not_remote s -> dispatch s packet = Some s' ->
  otherPlayers (st_remote s') !! myPlayerId s = None.
Proof.
  unfold local_not_remote. intros Hs.
  apply (dispatch_cases (fun _ t => otherPlayers (st_remote t) !! myPlayerId s = None));
    try done.
  - intros id x y g _. unfold on_player_state.
    destruct (Z.eqb_spec id (myPlayerId s)) as [-> | Hne]; [done |].
    cbn. unfold remote_state_update. cbn.
    rewrite lookup_insert_ne by done.
    destruct (otherPlayers (st_remote s) !! id); [done |].
    cbn. now rewrite lookup_insert_ne.
  - intros id x y g _. unfold on_player_joined.
    destruct (Z.eqb_spec id (myPlayerId s)) as [-> | Hne]; [done |].
    cbn [negb andb]. case_bool_decide; [| done].
    cbn. now rewrite lookup_insert_ne.
  - intros id _. unfold on_player_left.
    destruct (Z.eqb_spec id (myPlayerId s)) as [-> | Hne]; [done |].
    cbn. unfold erase_player.
    destruct (otherPlayers (st_remote s) !! id); cbn; now rewrite lookup_delete_ne.
Qed.

Lemma local_not_remote_dispatch (s s' : state) (packet : Packet.t) :
  local_not_remote s ->
  (forall id, decode packet = Some (Welcome id) -> otherPlayers (st_remote s) !! id = None) ->
  dispatch s packet = Some s' -> local_not_remote s'.
Proof.
  intros Hs Hfresh Hd.
  pose proof (local_id_not_inserted s s' packet Hs Hd) as Hkeep.
  revert Hd Hkeep. unfold local_not_remote.
  apply (dispatch_cases
           (fun _ t => otherPlayers (st_remote t) !! myPlayerId s = None ->
                       otherPlayers (st_remote t) !! myPlayerId t = None));
    try done.
  - intros id Hdec _. cbn. now apply Hfresh.
  - intros id x y g _. unfold on_player_state. now destruct (id =? myPlayerId s).
  - intros id x y g _. unfold on_player_joined. now destruct (_ && _).
  - intros id _. unfold on_player_left. now destruct (negb _).
Qed.

Lemma local_not_remote_receive_all (packets : list Packet.t) (s s' : state) :
  local_not_remote s -> welcomes_fresh s packets = true ->
  receive_all s packets = Some s' -> local_not_remote s'.
Proof.
  revert s. induction packets as [| packet rest IH]; intros s Hs Hfresh;
    cbn [receive_all welcomes_fresh] in *.
  - now intros [= <-].
  - apply andb_true_iff in Hfresh as [Hhere Hrest].
    destruct (dispatch s packet) as [s1 |] eqn:E; [| done].
    apply IH; [| exact Hrest].
    eapply local_not_remote_dispatch; [exact Hs | | exact E].
    intros id Hdec. rewrite Hdec in Hhere. now apply bool_decide_eq_true in Hhere.
Qed.

(** ** The MapData case *)

Lemma parse_columns_cells (y : Z) (xs : list Z) (st : MapParse) :
  parse_columns y xs st = parse_cells (map (pair y) xs) st.
Proof.
  revert st. induction xs as [| x xs IH]; intros st; [reflexivity |].
  cbn [map parse_columns parse_cells].
  destruct (parse_tile y x st) as [st' |]; [| reflexivity].
  destruct (parseOk st'); [apply IH | reflexivity].
Qed.

Lemma parse_cells_app (c1 c2 : list (Z * Z)) (st : MapParse) :
  parseOk st = true ->
  parse_cells (c1 ++ c2) st =
  match parse_cells c1 st with
  | Some st' => if parseOk st' then parse_cells c2 st' else Some st'
  | None => None
  end.
Proof.
  revert st. induction c1 as [| [y x] c1 IH]; intros st Hok.
  - cbn. now rewrite Hok.
  - cbn [app parse_cells].
    destruct (parse_tile y x st) as [st' |]; [| reflexivity].
    destruct (parseOk st') eqn:Hok'; [now apply IH | now rewrite Hok'].
Qed.

Lemma parse_rows_cells (width : Z) (ys : list Z) (st : MapParse) :
  parseOk st = true ->
  parse_rows width ys st =
  parse_cells (flat_map (fun y => map (pair y) (seqZ 0 width)) ys) st.
Proof.
  revert st. induction ys as [| y ys IH]; intros st Hok; [reflexivity |].
  cbn [flat_map parse_rows].
  rewrite parse_cells_app, parse_columns_cells by exact Hok.
  destruct (parse_cells _ st) as [st' |]; [| reflexivity].
  destruct (parseOk st') eqn:Hok'; [now apply IH | reflexivity].
Qed.

(** What the loops leave behind, by the tiles they could extract. *)
Lemma parse_cells_result (cs : list (Z * Z)) (st st' : MapParse) :
  parseOk st = true ->
  parse_cells cs st = Some st' ->
  let tiles := read_available (length cs) (mp_packet st) in
  mp_shapes st' = mp_shapes st ++ solid_shapes cs tiles /\
  parseOk st' = bool_decide (length tiles = length cs).
Proof.
  revert st. induction cs as [| [y x] cs IH]; intros st Hok.
  - cbn. intros [= <-]. now rewrite app_nil_r.
  - cbn [parse_cells length read_available]. unfold parse_tile.
    destruct (Packet.read_i32 (mp_packet st)) as [[v p] |].
    + destruct (set_tile y x v (mp_grid st)) as [grid |]; [| done].
      cbn [parseOk]. rewrite Hok. intros Hrun.
      apply IH in Hrun; [| reflexivity]. cbn [mp_packet mp_shapes] in Hrun.
      destruct Hrun as [Hshapes Hflag]. cbn zeta. cbn [solid_shapes length].
      split.
      * rewrite Hshapes. destruct (v =? 1); now rewrite <- ?app_assoc, ?app_nil_r.
      * rewrite Hflag. apply bool_decide_ext. lia.
    + cbn [parseOk]. intros [= <-]. cbn. now rewrite app_nil_r.
Qed.

Lemma length_cells (width height : Z) :
  length (cells width height) = Z.to_nat (width * height) \/ width < 0 \/ height < 0.
Proof.
  destruct (Z_lt_le_dec width 0) as [? | Hw]; [auto |].
  destruct (Z_lt_le_dec height 0) as [? | Hh]; [auto |]. left.
  unfold cells.
  assert (H : forall ys : list Z, length (flat_map (fun y => map (pair y) (seqZ 0 width)) ys)
                         = (length ys * Z.to_nat width)%nat).
  { induction ys as [| y ys IH]; [reflexivity |].
    cbn [flat_map length]. rewrite length_app, length_map, length_seqZ, IH. lia. }
  rewrite H, length_seqZ. nia.
Qed.

Lemma read_i32_length (p p' : Packet.t) (v : Z) :
  Packet.read_i32 p = Some (v, p') -> length p = (4 + length p')%nat.
Proof.
  unfold Packet.read_i32, Packet.bind, Packet.read_u32, Packet.ret.
  destruct p as [| b0 [| b1 [| b2 [| b3 rest]]]]; try done.
  now intros [= _ <-].
Qed.

Lemma read_i32_short (p : Packet.t) :
  Packet.read_i32 p = None -> (length p < 4)%nat.
Proof.
  unfold Packet.read_i32, Packet.bind, Packet.read_u32, Packet.ret.
  destruct p as [| b0 [| b1 [| b2 [| b3 rest]]]]; try done; cbn; lia.
Qed.

(** The loops extract every tile exactly when four bytes remain for each. *)
Lemma read_available_all (n : nat) (p : Packet.t) :
  length (read_available n p) = n <-> (4 * n <= length p)%nat.
Proof.
  revert p. induction n as [| n IH]; intros p; cbn [read_available].
  - cbn. lia.
  - destruct (Packet.read_i32 p) as [[v p'] |] eqn:E.
    + apply read_i32_length in E. cbn [length]. specialize (IH p'). lia.
    + apply read_i32_short in E. cbn [length]. lia.
Qed.


(** *** The grid *)

Lemma set_tile_same (y x v : Z) (grid grid' : list (list Z)) :
  0 <= y -> 0 <= x ->
  set_tile y x v grid = Some grid' -> tile_at grid' y x = Some v.
Proof.
  intros Hy Hx. unfold set_tile, tile_at.
  destruct (grid !! Z.to_nat y) as [row |] eqn:Hrow; [| done].
  destruct (Z.ltb_spec x (Z.of_nat (length row))) as [Hlt |]; [| done].
  intros [= <-].
  rewrite list_lookup_insert_eq by (eapply lookup_lt_Some; eauto).
  apply list_lookup_insert_eq. lia.
Qed.

Lemma set_tile_other (y x v y' x' : Z) (grid grid' : list (list Z)) :
  0 <= y -> 0 <= x -> 0 <= y' -> 0 <= x' -> (y', x') <> (y, x) ->
  set_tile y x v grid = Some grid' -> tile_at grid' y' x' = tile_at grid y' x'.
Proof.
  intros Hy Hx Hy' Hx' Hne. unfold set_tile, tile_at.
  destruct (grid !! Z.to_nat y) as [row |] eqn:Hrow; [| done].
  destruct (x <? Z.of_nat (length row)); [| done].
  intros [= <-].
  destruct (decide (Z.to_nat y' = Z.to_nat y)) as [Heq | Hney].
  - rewrite Heq, Hrow.
    rewrite list_lookup_insert_eq by (eapply lookup_lt_Some; eauto).
    apply list_lookup_insert_ne. intros Hx_eq.
    apply Hne. f_equal; lia.
  - now rewrite list_lookup_insert_ne.
Qed.

Lemma set_tile_cell_in (y x v : Z) (grid grid' : list (list Z)) (c : Z * Z) :
  set_tile y x v grid = Some grid' -> cell_in grid c -> cell_in grid' c.
Proof.
  unfold set_tile, cell_in.
  destruct (grid !! Z.to_nat y) as [row |] eqn:Hrow; [| done].
  destruct (x <? Z.of_nat (length row)); [| done].
  intros [= <-] (H1 & H2 & row' & Hrow' & Hlen).
  split; [exact H1 |]. split; [exact H2 |].
  destruct (decide (Z.to_nat c.1 = Z.to_nat y)) as [Heq | Hney].
  - rewrite Heq in *. rewrite Hrow in Hrow'. injection Hrow' as <-.
    exists (<[Z.to_nat x := v]> row). split.
    + apply list_lookup_insert_eq. eapply lookup_lt_Some; eauto.
    + now rewrite length_insert.
  - exists row'. split; [| exact Hlen]. now rewrite list_lookup_insert_ne.
Qed.

Lemma set_tile_defined (y x v : Z) (grid : list (list Z)) :
  cell_in grid (y, x) -> is_Some (set_tile y x v grid).
Proof.
  unfold cell_in, set_tile. cbn. intros (_ & _ & row & -> & Hlen).
  destruct (Z.ltb_spec x (Z.of_nat (length row))); [eauto | lia].
Qed.

(** The loops terminate normally when every cell they visit exists. *)
Lemma parse_cells_defined (cs : list (Z * Z)) (st : MapParse) :
  Forall (cell_in (mp_grid st)) cs -> is_Some (parse_cells cs st).
Proof.
  revert st. induction cs as [| [y x] cs IH]; intros st Hcs; [cbn; eauto |].
  apply Forall_cons in Hcs as [Hc Hcs].
  cbn [parse_cells]. unfold parse_tile.
  destruct (Packet.read_i32 (mp_packet st)) as [[v p] |]; [| cbn; eauto].
  destruct (set_tile_defined y x v (mp_grid st) Hc) as [grid Hgrid].
  rewrite Hgrid. cbn [parseOk].
  destruct (parseOk st); [| eauto].
  apply IH. cbn [mp_grid].
  eapply Forall_impl; [exact Hcs |]. intros c. exact (set_tile_cell_in y x v _ _ c Hgrid).
Qed.

(** A cell the loops do not visit keeps its tile. *)
Lemma parse_cells_keeps (cs : list (Z * Z)) (st st' : MapParse) (y x : Z) :
  Forall (fun c => 0 <= c.1 /\ 0 <= c.2) cs ->
  0 <= y -> 0 <= x -> (y, x) ∉ cs ->
  parse_cells cs st = Some st' ->
  tile_at (mp_grid st') y x = tile_at (mp_grid st) y x.
Proof.
  intros Hcs Hy Hx. revert st.
  induction Hcs as [| [y0 x0] cs [Hy0 Hx0] _ IH]; intros st Hnot; cbn [parse_cells].
  - now intros [= <-].
  - apply not_elem_of_cons in Hnot as [Hne Hnot]. unfold parse_tile.
    destruct (Packet.read_i32 (mp_packet st)) as [[v p] |]; [| now intros [= <-]].
    destruct (set_tile y0 x0 v (mp_grid st)) as [grid |] eqn:Hset; [| done].
    cbn [parseOk fst snd] in *.
    assert (Hgrid : tile_at grid y x = tile_at (mp_grid st) y x)
      by exact (set_tile_other y0 x0 v y x _ _ Hy0 Hx0 Hy Hx Hne Hset).
    destruct (parseOk st).
    + intros Hrun. rewrite (IH _ Hnot Hrun). exact Hgrid.
    + intros [= <-]. exact Hgrid.
Qed.

(** Every tile the loops extract is in its cell afterwards. *)
Lemma parse_cells_grid (cs : list (Z * Z)) (st st' : MapParse) :
  NoDup cs ->
  Forall (fun c => 0 <= c.1 /\ 0 <= c.2) cs ->
  parseOk st = true ->
  parse_cells cs st = Some st' ->
  forall k y x v,
    cs !! k = Some (y, x) ->
    read_available (length cs) (mp_packet st) !! k = Some v ->
    tile_at (mp_grid st') y x = Some v.
Proof.
  intros Hnodup Hcs. revert st.
  induction Hcs as [| [y0 x0] cs [Hy0 Hx0] Hcs IH]; intros st Hok Hrun k y x v Hk Hv.
  - now rewrite lookup_nil in Hk.
  - apply NoDup_cons in Hnodup as [Hfresh Hnodup].
    cbn [parse_cells length read_available] in Hrun, Hv. unfold parse_tile in Hrun.
    destruct (Packet.read_i32 (mp_packet st)) as [[v0 p] |]; [| now rewrite lookup_nil in Hv].
    destruct (set_tile y0 x0 v0 (mp_grid st)) as [grid |] eqn:Hset; [| done].
    cbn [parseOk fst snd] in *. rewrite Hok in Hrun.
    destruct k as [| k]; cbn in Hk, Hv.
    + injection Hk as -> ->. injection Hv as ->.
      rewrite (parse_cells_keeps cs _ st' y x Hcs Hy0 Hx0 Hfresh Hrun). cbn [mp_grid].
      eapply set_tile_same; eauto.
    + refine (IH Hnodup _ _ Hrun k y x v Hk _); [reflexivity | exact Hv].
Qed.

Lemma cells_elem (width height y x : Z) :
  (y, x) ∈ cells width height <-> (0 <= y < height /\ 0 <= x < width).
Proof.
  unfold cells. rewrite list_elem_of_In, in_flat_map. split.
  - intros (y' & Hy' & Hin). apply in_map_iff in Hin as (x' & [= <- <-] & Hx').
    apply list_elem_of_In, elem_of_seqZ in Hy'. apply list_elem_of_In, elem_of_seqZ in Hx'. lia.
  - intros [Hy Hx]. exists y. split.
    + apply list_elem_of_In, elem_of_seqZ. lia.
    + apply in_map. apply list_elem_of_In, elem_of_seqZ. lia.
Qed.

Lemma cells_nonneg (width height : Z) :
  Forall (fun c => 0 <= c.1 /\ 0 <= c.2) (cells width height).
Proof.
  apply Forall_forall. intros [y x] Hin. apply cells_elem in Hin. cbn. lia.
Qed.

Lemma cells_NoDup (width height : Z) : NoDup (cells width height).
Proof.
  unfold cells.
  assert (H : forall ys : list Z, NoDup ys ->
            NoDup (flat_map (fun y => map (pair y) (seqZ 0 width)) ys)).
  { induction 1 as [| y ys Hy Hys IH]; cbn [flat_map]; [constructor |].
    apply NoDup_app. split; [| split; [| exact IH]].
    - apply (NoDup_fmap_2 (pair y)), NoDup_seqZ.
    - intros [y' x'] Hin Hin'.
      apply list_elem_of_In, in_map_iff in Hin as (? & [= <- <-] & _).
      apply list_elem_of_In, in_flat_map in Hin' as (y'' & Hy'' & Hin').
      apply in_map_iff in Hin' as (? & [= -> _] & _).
      apply Hy. now apply list_elem_of_In. }
  apply H, NoDup_seqZ.
Qed.

Lemma resize_rows_cell_in (width height : Z) (grid : list (list Z)) (c : Z * Z) :
  Forall (fun row => width <= Z.of_nat (length row)) grid ->
  c ∈ cells width height ->
  cell_in (resize_rows height width grid) c.
Proof.
  intros Hrows Hc. destruct c as [y x]. apply cells_elem in Hc as [Hy Hx].
  unfold cell_in. cbn [fst snd]. split; [lia |]. split; [lia |].
  unfold resize_rows.
  assert (Hlen : (Z.to_nat y < length (take (Z.to_nat height) grid ++
                   replicate (Z.to_nat height - length grid)
                     (replicate (Z.to_nat width) 0%Z)))%nat).
  { rewrite length_app, length_take, length_replicate. lia. }
  apply lookup_lt_is_Some_2 in Hlen as [row Hrow].
  exists row. split; [exact Hrow |].
  apply lookup_app_Some in Hrow as [Hrow | [_ Hrow]].
  - apply lookup_take_Some in Hrow as [Hrow _].
    eapply Forall_lookup_1 in Hrows; [| exact Hrow]. cbn in Hrows. lia.
  - apply lookup_replicate in Hrow as [-> _]. rewrite length_replicate. lia.
Qed.

(** The MapData case ends normally when the dimensions are not negative and
    the rows kept from the previous grid are at least as wide as the new
    width (so always on a client that has no map yet). *)
Lemma on_map_data_defined (p p' : Packet.t) (m : MapState) (width height : Z) :
  Wire.read_dimensions p = Some (width, height, p') ->
  0 <= Packet.to_int32 width -> 0 <= Packet.to_int32 height ->
  Forall (fun row => Packet.to_int32 width <= Z.of_nat (length row)) (clientTileMap m) ->
  is_Some (on_map_data p m).
Proof.
  intros Hdim Hw Hh Hrows. unfold on_map_data. rewrite Hdim.
  destruct (Z.ltb_spec (Packet.to_int32 width) 0); [lia |].
  destruct (Z.ltb_spec (Packet.to_int32 height) 0); [lia |]. cbn [orb].
  rewrite parse_rows_cells by reflexivity.
  fold (cells (Packet.to_int32 width) (Packet.to_int32 height)).
  match goal with
  | |- is_Some (match parse_cells ?cs ?st with _ => _ end) =>
      destruct (parse_cells_defined cs st) as [st' Hst']
  end.
  - cbn [mp_grid]. apply Forall_forall. intros c Hc. now apply resize_rows_cell_in.
  - rewrite Hst'. eauto.
Qed.

(** What the MapData case leaves behind when it ends normally. *)
Lemma on_map_data_result (p : Packet.t) (m m' : MapState) :
  on_map_data p m = Some m' ->
  match Wire.read_dimensions p with
  | None => m' = m
  | Some (width, height, p') =>
      let w := Packet.to_int32 width in
      let h := Packet.to_int32 height in
      let tiles := read_available (Z.to_nat (w * h)) p' in
      0 <= w /\ 0 <= h /\
      clientMapWidth m' = w /\
      clientMapHeight m' = h /\
      mapShapes m' = solid_shapes (cells w h) tiles /\
      mapLoaded m' = (if bool_decide (length tiles = Z.to_nat (w * h)) then true
                      else mapLoaded m) /\
      (forall k y x v,
          cells w h !! k = Some (y, x) -> tiles !! k = Some v ->
          tile_at (clientTileMap m') y x = Some v)
  end.
Proof.
  unfold on_map_data.
  destruct (Wire.read_dimensions p) as [[[width height] p'] |]; [| now intros [= <-]].
  set (w := Packet.to_int32 width). set (h := Packet.to_int32 height).
  destruct (Z.ltb_spec w 0) as [| Hw]; [done |].
  destruct (Z.ltb_spec h 0) as [| Hh]; [done |]. cbn [orb].
  rewrite parse_rows_cells by reflexivity. fold (cells w h).
  destruct (parse_cells (cells w h) _) as [st |] eqn:Hrun; [| done].
  intros [= <-]. cbn.
  assert (Hgrid := fun H => parse_cells_grid _ _ _ (cells_NoDup w h) (cells_nonneg w h) H Hrun).
  specialize (Hgrid eq_refl).
  apply parse_cells_result in Hrun; [| reflexivity].
  cbn [mp_packet mp_shapes] in Hrun, Hgrid. destruct Hrun as [Hshapes Hflag].
  destruct (length_cells w h) as [Hlen | [? | ?]]; [| lia | lia].
  rewrite Hlen in Hshapes, Hflag, Hgrid.
  split; [exact Hw |]. split; [exact Hh |]. split; [reflexivity |].
  split; [reflexivity |]. split; [exact Hshapes |].
  split; [now rewrite Hflag | exact Hgrid].
Qed.

Lemma read_available_tile_bytes (tiles : list Z) (rest : Packet.t) :
  Forall is_i32 tiles ->
  read_available (length tiles) (tile_bytes tiles ++ rest) = tiles.
Proof.
  induction 1 as [| v tiles Hv _ IH]; [reflexivity |].
  cbn [length read_available tile_bytes flat_map].
  rewrite <- app_assoc, read_write_i32 by exact Hv.
  fold (tile_bytes tiles). now rewrite IH.
Qed.

(** A well-formed MapData message, as the dispatcher applies it: the
    dimensions, the tiles in their cells, the squares of the solid tiles and
    the loaded flag are those of the message the packet decodes to. *)
Lemma dispatch_map_data (s : state) (width height : Z) (tiles : list Z) :
  well_formed (MapData width height tiles) ->
  Forall (fun row => width <= Z.of_nat (length row)) (clientTileMap (st_map s)) ->
  exists s',
    dispatch s (encode (MapData width height tiles)) = Some s' /\
    clientMapWidth (st_map s') = width /\
    clientMapHeight (st_map s') = height /\
    (forall k y x v,
        cells width height !! k = Some (y, x) -> tiles !! k = Some v ->
        tile_at (clientTileMap (st_map s')) y x = Some v) /\
    mapShapes (st_map s') = solid_shapes (cells width height) tiles /\
    mapLoaded (st_map s') = true.
Proof.
  intros (Hw & Hh & Hlen & Htiles) Hrows. rewrite encode_map_data.
  assert (Hdim : Wire.read_dimensions
                   (Packet.write_u32 width [] ++ Packet.write_u32 height []
                      ++ tile_bytes tiles ++ [])
                 = Some (width, height, tile_bytes tiles ++ [])).
  { unfold Wire.read_dimensions, Packet.bind.
    rewrite read_write_u32 by (unfold is_u32; lia).
    now rewrite read_write_u32 by (unfold is_u32; lia). }
  assert (Hw' : Packet.to_int32 width = width) by now apply to_int32_small.
  assert (Hh' : Packet.to_int32 height = height) by now apply to_int32_small.
  destruct (on_map_data_defined _ _ (st_map s) width height Hdim) as [m Hm];
    [lia | lia | now rewrite Hw' |].
  assert (Hrun : dispatch s (tag_MapData :: Packet.write_u32 width []
                               ++ Packet.write_u32 height [] ++ tile_bytes tiles ++ [])
                 = Some (with_map m s)).
  { change (dispatch s (tag_MapData :: ?p))
      with (match on_map_data p (st_map s) with
            | Some m => Some (with_map m s)
            | None => None
            end).
    now rewrite Hm. }
  exists (with_map m s). split; [exact Hrun |].
  apply on_map_data_result in Hm. rewrite Hdim in Hm. cbn zeta in Hm.
  rewrite Hw', Hh', <- Hlen, Nat2Z.id, read_available_tile_bytes in Hm by exact Htiles.
  destruct Hm as (_ & _ & H1 & H2 & H3 & H4 & H5). cbn [st_map with_map].
  repeat (split; [assumption |]).
  rewrite H4. now rewrite bool_decide_eq_true_2.
Qed.

(** ** The animation fields across the receive loop *)

Lemma local_animation_dispatch (s s' : state) (packet : Packet.t) :
  dispatch s packet = Some s' ->
  local_animation (st_local s') = local_animation (st_local s).
Proof.
  apply (dispatch_cases
           (fun s0 t => local_animation (st_local t) = local_animation (st_local s0)));
    try done.
  - intros id x y g _. unfold on_player_state. now destruct (id =? myPlayerId s).
  - intros id x y g _. unfold on_player_joined. now destruct (_ && _).
  - intros id _. unfold on_player_left. now destruct (negb _).
Qed.

Lemma local_animation_receive_all (packets : list Packet.t) (s s' : state) :
  receive_all s packets = Some s' ->
  local_animation (st_local s') = local_animation (st_local s).
Proof.
  revert s. induction packets as [| packet rest IH]; intros s; cbn [receive_all].
  - now intros [= <-].
  - destruct (dispatch s packet) as [s1 |] eqn:E; [| done].
    intros Hrest. rewrite (IH _ Hrest). eapply local_animation_dispatch; eauto.
Qed.

Lemma local_animation_network (i : FrameInput) (s s' : state) :
  network i s = Some s' ->
  local_animation (st_local s') = local_animation (st_local s).
Proof.
  unfold network.
  set (s1 := if connected s then s else with_connection (fi_connect_ok i) (windowOpen s) s).
  assert (H1 : st_local s1 = st_local s) by (subst s1; now destruct (connected s)).
  destruct (connected s1); [| intros [= <-]; now rewrite H1].
  destruct (receive_all s1 (fi_inbound i)) as [s2 |] eqn:E; [| done].
  intros [= <-]. apply local_animation_receive_all in E. rewrite <- H1, <- E.
  now destruct (fi_remote_alive i).
Qed.

Lemma keys_agree_network (i : FrameInput) (s s' : state) :
  keys_agree (st_remote s) -> network i s = Some s' -> keys_agree (st_remote s').
Proof.
  unfold network. intros Hs.
  set (s1 := if connected s then s else with_connection (fi_connect_ok i) (windowOpen s) s).
  assert (H1 : keys_agree (st_remote s1)) by (subst s1; now destruct (connected s)).
  destruct (connected s1); [| now intros [= <-]].
  destruct (receive_all s1 (fi_inbound i)) as [s2 |] eqn:E; [| done].
  intros [= <-]. apply keys_agree_receive_all in E; [| exact H1].
  now destruct (fi_remote_alive i).
Qed.

Lemma keys_agree_tick (dt : Z) (r : Remote) :
  keys_agree r -> keys_agree (tick_remote dt r).
Proof.
  unfold keys_agree. cbn. now rewrite dom_fmap_L.
Qed.

Lemma keys_agree_before_network (i : FrameInput) (s : state) :
  keys_agree (st_remote s) -> keys_agree (st_remote (before_network i s)).
Proof.
  intros Hs. unfold before_network.
  destruct (fi_close i); cbn; now apply keys_agree_tick.
Qed.

(** ** The loop over the other players *)

Lemma remote_advance_one_defined (id : Z) (sprite : Sprite) (r : Remote) :
  keys_agree r -> id ∈ dom (otherPlayers r) ->
  exists st f t,
    otherPlayersAnimState r !! id = Some st /\
    otherPlayersCurrentFrame r !! id = Some f /\
    otherPlayersAnimTimer r !! id = Some t /\
    exists r',
      remote_advance_one id sprite r = Some r' /\
      keys_agree r' /\
      dom (otherPlayers r') = dom (otherPlayers r) /\
      otherPlayersAnimState r' = otherPlayersAnimState r /\
      otherPlayersFacingRight r' = otherPlayersFacingRight r /\
      otherPlayersCurrentFrame r' =
        <[id := (advance_frame (animData st) f t).1]> (otherPlayersCurrentFrame r) /\
      otherPlayersAnimTimer r' =
        <[id := (advance_frame (animData st) f t).2]> (otherPlayersAnimTimer r).
Proof.
  intros (H1 & H2 & H3 & H4) Hin.
  assert (Hst : is_Some (otherPlayersAnimState r !! id)) by (apply elem_of_dom; now rewrite H1).
  assert (Hf : is_Some (otherPlayersCurrentFrame r !! id)) by (apply elem_of_dom; now rewrite H2).
  assert (Ht : is_Some (otherPlayersAnimTimer r !! id)) by (apply elem_of_dom; now rewrite H3).
  destruct Hst as [st Hst], Hf as [f Hf], Ht as [t Ht].
  exists st, f, t. repeat (split; [assumption |]).
  unfold remote_advance_one. rewrite Hst, Hf, Ht.
  destruct (advance_frame (animData st) f t) as [frame timer] eqn:E.
  eexists. split; [reflexivity |]. cbn.
  assert (Hf' : id ∈ dom (otherPlayersCurrentFrame r)) by now rewrite H2.
  assert (Ht' : id ∈ dom (otherPlayersAnimTimer r)) by now rewrite H3.
  split; [| split; [| done]].
  - unfold keys_agree. cbn. rewrite !dom_insert_L, H1, H2, H3, H4.
    rewrite !known_key_union by exact Hin. done.
  - rewrite dom_insert_L. now apply known_key_union.
Qed.

Lemma remote_advance_loop_result (players : list (Z * Sprite)) (r : Remote) :
  NoDup players.*1 ->
  keys_agree r ->
  (forall id, id ∈ players.*1 -> id ∈ dom (otherPlayers r)) ->
  exists r',
    remote_advance_loop players r = Some r' /\
    keys_agree r' /\
    dom (otherPlayers r') = dom (otherPlayers r) /\
    otherPlayersAnimState r' = otherPlayersAnimState r /\
    otherPlayersFacingRight r' = otherPlayersFacingRight r /\
    (forall id st f t,
        id ∈ players.*1 ->
        otherPlayersAnimState r !! id = Some st ->
        otherPlayersCurrentFrame r !! id = Some f ->
        otherPlayersAnimTimer r !! id = Some t ->
        otherPlayersCurrentFrame r' !! id = Some (advance_frame (animData st) f t).1 /\
        otherPlayersAnimTimer r' !! id = Some (advance_frame (animData st) f t).2) /\
    (forall id,
        id ∉ players.*1 ->
        otherPlayersCurrentFrame r' !! id = otherPlayersCurrentFrame r !! id /\
        otherPlayersAnimTimer r' !! id = otherPlayersAnimTimer r !! id).
Proof.
  revert r. induction players as [| [id0 sprite] rest IH]; intros r Hnodup Hr Hdom.
  - exists r. cbn. do 5 (split; [done |]). split; [| done].
    intros id st f t Hin. now apply elem_of_nil in Hin.
  - cbn [fmap list_fmap fst] in Hnodup, Hdom. apply NoDup_cons in Hnodup as [Hfresh Hnodup].
    destruct (remote_advance_one_defined id0 sprite r Hr) as
      (st0 & f0 & t0 & Hst0 & Hf0 & Ht0 & r1 & Hone & Hr1 & Hdom1 & Hst1 & Hfacing1 & Hframe1 & Htimer1).
    { apply Hdom. left. }
    destruct (IH r1 Hnodup Hr1) as (r' & Hloop & Hr' & Hdom' & Hst' & Hfacing' & Hin' & Hout').
    { intros id Hid. rewrite Hdom1. apply Hdom. now right. }
    exists r'. cbn [remote_advance_loop]. rewrite Hone.
    split; [exact Hloop |]. split; [exact Hr' |].
    split; [now rewrite Hdom' |]. split; [now rewrite Hst' |].
    split; [now rewrite Hfacing' |]. split.
    + intros id st f t Hid Hst Hf Ht. cbn [fmap list_fmap fst] in Hid.
      apply elem_of_cons in Hid as [-> | Hid].
      * destruct (Hout' id0 Hfresh) as [Hf' Ht']. rewrite Hf', Ht', Hframe1, Htimer1.
        rewrite !lookup_insert_eq.
        assert (st = st0) as -> by congruence.
        assert (f = f0) as -> by congruence.
        assert (t = t0) as -> by congruence.
        split; reflexivity.
      * assert (Hne : id0 ≠ id) by (intros ->; contradiction).
        apply Hin'; [exact Hid | now rewrite Hst1 | |].
        -- rewrite Hframe1, lookup_insert_ne by exact Hne. exact Hf.
        -- rewrite Htimer1, lookup_insert_ne by exact Hne. exact Ht.
    + intros id Hid. cbn [fmap list_fmap fst] in Hid.
      apply not_elem_of_cons in Hid as [Hne Hid].
      destruct (Hout' id Hid) as [Hf' Ht']. rewrite Hf', Ht', Hframe1, Htimer1.
      assert (Hne' : id0 ≠ id) by congruence.
      rewrite !lookup_insert_ne by exact Hne'. split; reflexivity.
Qed.

(** With the five maps in agreement the loop over the other players never
    throws; it changes no key, no state and no facing, and moves the frame
    and the timer of every player by one [advance_frame]. *)
Lemma remote_advance_result (r : Remote) :
  keys_agree r ->
  exists r',
    remote_advance r = Some r' /\
    keys_agree r' /\
    dom (otherPlayers r') = dom (otherPlayers r) /\
    otherPlayersAnimState r' = otherPlayersAnimState r /\
    otherPlayersFacingRight r' = otherPlayersFacingRight r /\
    (forall id st f t,
        otherPlayersAnimState r !! id = Some st ->
        otherPlayersCurrentFrame r !! id = Some f ->
        otherPlayersAnimTimer r !! id = Some t ->
        otherPlayersCurrentFrame r' !! id = Some (advance_frame (animData st) f t).1 /\
        otherPlayersAnimTimer r' !! id = Some (advance_frame (animData st) f t).2).
Proof.
  intros Hr. unfold remote_advance.
  assert (Hmem : forall id, id ∈ (map_to_list (otherPlayers r)).*1 <-> id ∈ dom (otherPlayers r)).
  { intros id. rewrite elem_of_dom. split.
    - intros Hin. apply list_elem_of_fmap in Hin as ([id' sp] & -> & Hin).
      apply elem_of_map_to_list in Hin. eauto.
    - intros [sp Hsp]. apply list_elem_of_fmap. exists (id, sp).
      split; [reflexivity | now apply elem_of_map_to_list]. }
  destruct (remote_advance_loop_result (map_to_list (otherPlayers r)) r)
    as (r' & Hloop & Hr' & Hdom' & Hst' & Hfacing' & Hin' & _).
  { apply NoDup_fst_map_to_list. }
  { exact Hr. }
  { intros id. apply Hmem. }
  exists r'. repeat (split; [assumption |]).
  intros id st f t Hst Hf Ht. apply Hin'; try assumption.
  apply Hmem. destruct Hr as (H1 & _). rewrite <- H1. apply elem_of_dom. eauto.
Qed.

(** ** One iteration of the loop *)

(** Once the receive loop has returned, the iteration completes: the local
    player goes through the transition and the advance, the other players
    through their loop. *)
Lemma frame_result (i : FrameInput) (s n : state) :
  keys_agree (st_remote s) ->
  network i (before_network i s) = Some n ->
  exists r',
    remote_advance (st_remote n) = Some r' /\
    keys_agree r' /\
    frame i s =
      Some (with_remote r'
              (with_local
                 (end_of_frame
                    (local_advance (local_transition (sample_input i) (st_local n)))) n)).
Proof.
  intros Hs Hn.
  assert (Hkn : keys_agree (st_remote n)).
  { eapply keys_agree_network; [| exact Hn]. now apply keys_agree_before_network. }
  destruct (remote_advance_result (st_remote n) Hkn) as (r' & Hr' & Hk' & _).
  exists r'. split; [exact Hr' |]. split; [exact Hk' |].
  unfold frame. rewrite Hn, Hr'. reflexivity.
Qed.

(** The animation variables of the local player when the network part of an
    iteration is entered: the timers have moved. *)
Lemma local_animation_before_network (i : FrameInput) (s : state) :
  currentAnimState (st_local (before_network i s)) = currentAnimState (st_local s) /\
  currentFrame (st_local (before_network i s)) = currentFrame (st_local s) /\
  animTimer (st_local (before_network i s)) = animTimer (st_local s) + fi_dt i /\
  stateChangeCooldownTimer (st_local (before_network i s)) =
    (if 0 <? stateChangeCooldownTimer (st_local s)
     then stateChangeCooldownTimer (st_local s) - fi_dt i
     else stateChangeCooldownTimer (st_local s)) /\
  myIsOnGround (st_local (before_network i s)) = myIsOnGround (st_local s).
Proof.
  unfold before_network. destruct (fi_close i); cbn; repeat split; reflexivity.
Qed.

Lemma local_animation_fields (l l' : LocalPlayer) :
  local_animation l' = local_animation l ->
  currentAnimState l' = currentAnimState l /\
  currentFrame l' = currentFrame l /\
  animTimer l' = animTimer l /\
  stateChangeCooldownTimer l' = stateChangeCooldownTimer l.
Proof. unfold local_animation. intros [= -> -> -> -> _]. repeat split; reflexivity. Qed.

Lemma seconds_cooldown : seconds STATE_CHANGE_COOLDOWN = 100000.
Proof. vm_compute. reflexivity. Qed.


Lemma seconds_jump : seconds (timePerFrame (animData Jump)) = 100000.
Proof. vm_compute. reflexivity. Qed.

(** ** Iterations without inbound packets, and sample states *)

Lemma network_nothing_inbound (i : FrameInput) (s : state) :
  fi_inbound i = [] ->
  exists n, network i s = Some n /\ st_local n = st_local s /\ st_remote n = st_remote s.
Proof.
  intros Hin. unfold network. rewrite Hin.
  destruct (connected s) eqn:Ec.
  - rewrite Ec. cbn [receive_all].
    destruct (fi_remote_alive i); eexists; (split; [reflexivity |]); split; reflexivity.
  - destruct (fi_connect_ok i); cbn [connected with_connection receive_all].
    + destruct (fi_remote_alive i); eexists; (split; [reflexivity |]); split; reflexivity.
    + eexists; (split; [reflexivity |]); split; reflexivity.
Qed.

Lemma keys_agree_initial : keys_agree (st_remote initial_state).
Proof. unfold keys_agree. cbn. now rewrite !dom_empty_L. Qed.

Lemma keys_agree_frame (i : FrameInput) (s s' : state) :
  keys_agree (st_remote s) -> frame i s = Some s' -> keys_agree (st_remote s').
Proof.
  intros Hs. unfold frame.
  destruct (network i (before_network i s)) as [n |] eqn:Hn; [| done].
  destruct (frame_result i s n Hs Hn) as (r' & Hr' & Hk' & _).
  rewrite Hr'. now intros [= <-].
Qed.

Lemma keys_agree_frames (inputs : list FrameInput) (s s' : state) :
  keys_agree (st_remote s) -> frames inputs s = Some s' -> keys_agree (st_remote s').
Proof.
  revert s. induction inputs as [| i rest IH]; intros s Hs; cbn [frames].
  - now intros [= <-].
  - destruct (windowOpen s); [| now intros [= <-]].
    destruct (frame i s) as [s1 |] eqn:E; [| done].
    apply IH. eapply keys_agree_frame; eauto.
Qed.

Lemma keys_agree_walking : keys_agree (st_remote walking).
Proof.
  apply (keys_agree_frame opening initial_state walking keys_agree_initial).
  vm_compute. reflexivity.
Qed.

(** ** A player first seen in a PlayerState *)

(** The record made for an unseen id is placed at the position of the
    message, and its state and facing are decided against the x of a new
    sprite, which is 0. *)
Lemma first_sighting_record (s : state) (id x y : Z) (g : bool) :
  id ≠ myPlayerId s ->
  otherPlayers (st_remote s) !! id = None ->
  let r := st_remote (on_player_state id x y g s) in
  otherPlayers r !! id = Some (setPosition x y new_sprite) /\
  otherPlayersAnimState r !! id = Some (remote_target g x Float32.lit_0_0) /\
  otherPlayersCurrentFrame r !! id = Some 0 /\
  otherPlayersAnimTimer r !! id = Some 0 /\
  otherPlayersFacingRight r !! id =
    Some (if Float32.gt x Float32.lit_0_0 then true
          else if Float32.lt x Float32.lit_0_0 then false else true).
Proof.
  intros Hne Hnew. cbn zeta. unfold on_player_state.
  assert (Hnb : (id =? myPlayerId s) = false) by now apply Z.eqb_neq.
  rewrite Hnb. cbn [st_remote with_remote].
  unfold remote_state_update. rewrite Hnew.
  cbn [create_on_state otherPlayers otherPlayersAnimState otherPlayersCurrentFrame
         otherPlayersAnimTimer otherPlayersFacingRight].
  rewrite !lookup_insert_eq. cbn [default from_option].
  change (sp_x (Datatypes.id new_sprite)) with Float32.lit_0_0.
  change (Datatypes.id new_sprite) with new_sprite.
  split; [reflexivity |]. split; [reflexivity |].
  split; [destruct (negb _); now rewrite ?lookup_insert_eq |].
  split; [destruct (negb _); now rewrite ?lookup_insert_eq |].
  destruct (Float32.gt x Float32.lit_0_0); [now rewrite lookup_insert_eq |].
  destruct (Float32.lt x Float32.lit_0_0); now rewrite lookup_insert_eq.
Qed.

(** ** The last position of a sequence *)

(** The position [last_position_of] returns is the one of a message of the
    sequence that names the id and is followed by no other that does. *)
Lemma last_position_of_last (id x y : Z) (msgs : list (Z * Z * Z * bool)) :
  last_position_of id msgs = Some (x, y) <->
  exists before g after,
    msgs = before ++ (id, x, y, g) :: after /\
    Forall (fun f => f.1.1.1 ≠ id) after.
Proof.
  revert x y. induction msgs as [| [[[i x0] y0] g0] rest IH]; intros x y.
  - cbn. split; [done |]. intros (before & g & after & H & _). now destruct before.
  - cbn [last_position_of]. split.
    + destruct (last_position_of id rest) as [[x' y'] |] eqn:E.
      * intros [= -> ->]. destruct (proj1 (IH x y) eq_refl) as (before & g & after & -> & Hafter).
        exists ((i, x0, y0, g0) :: before), g, after. split; [reflexivity | exact Hafter].
      * destruct (Z.eqb_spec i id) as [-> | Hne]; [| done]. intros [= -> ->].
        exists [], g0, rest. split; [reflexivity |].
        apply Forall_forall. intros [[[i' x'] y'] g'] Hin Heq. cbn in Heq. subst i'.
        apply list_elem_of_split in Hin as (l1 & l2 & ->).
        assert (Hsome : is_Some (last_position_of id (l1 ++ (id, x', y', g') :: l2))).
        { clear. induction l1 as [| [[[a b] c] d] l1 IHl]; cbn [app last_position_of].
          - destruct (last_position_of id l2) as [[] |]; [eauto |].
            rewrite Z.eqb_refl. eauto.
          - destruct IHl as [[] ->]. eauto. }
        rewrite E in Hsome. now destruct Hsome.
    + intros (before & g & after & Hmsgs & Hafter).
      destruct before as [| b before]; cbn [app] in Hmsgs.
      * injection Hmsgs as -> -> -> -> ->.
        assert (Hnone : last_position_of id after = None).
        { clear -Hafter. induction Hafter as [| [[[a b] c] d] l Hne _ IHl]; [reflexivity |].
          cbn [last_position_of]. rewrite IHl. cbn in Hne.
          destruct (Z.eqb_spec a id); [contradiction | reflexivity]. }
        now rewrite Hnone, Z.eqb_refl.
      * injection Hmsgs as _ ->.
        assert (Hrest : last_position_of id (before ++ (id, x, y, g) :: after) = Some (x, y)).
        { apply IH. eauto. }
        now rewrite Hrest.
Qed.

(** ** Whole iterations: the advance, the map and the drawn position *)










Lemma connection_dispatch (s s' : state) (packet : Packet.t) :
  dispatch s packet = Some s' ->
  connected s' = connected s /\ windowOpen s' = windowOpen s.
Proof.
  apply (dispatch_cases
           (fun s0 t => connected t = connected s0 /\ windowOpen t = windowOpen s0));
    try done.
  - intros id x y g _. unfold on_player_state. now destruct (id =? myPlayerId s).
  - intros id x y g _. unfold on_player_joined. now destruct (_ && _).
  - intros id _. unfold on_player_left. now destruct (negb _).
Qed.

Lemma connection_receive_all (packets : list Packet.t) (s s' : state) :
  receive_all s packets = Some s' ->
  connected s' = connected s /\ windowOpen s' = windowOpen s.
Proof.
  revert s. induction packets as [| packet rest IH]; intros s; cbn [receive_all].
  - now intros [= <-].
  - destruct (dispatch s packet) as [s1 |] eqn:E; [| discriminate].
    intros Hrest. destruct (IH _ Hrest) as [-> ->]. now apply (connection_dispatch s s1 packet).
Qed.

Lemma last_position_of_app (id : Z) (first rest : list (Z * Z * Z * bool)) :
  last_position_of id (first ++ rest)
  = match last_position_of id rest with
    | Some pos => Some pos
    | None => last_position_of id first
    end.
Proof.
  induction first as [| [[[i x] y] g] first IH]; cbn [app last_position_of].
  - now destruct (last_position_of id rest).
  - rewrite IH. now destruct (last_position_of id rest).
Qed.

(** The transition, the advance and the end of the iteration leave the
    local sprite where it is. *)
Lemma local_position_kept (input : PlayerInputState) (l : LocalPlayer) :
  sp_x (playerSprite (end_of_frame (local_advance (local_transition input l))))
    = sp_x (playerSprite l) /\
  sp_y (playerSprite (end_of_frame (local_advance (local_transition input l))))
    = sp_y (playerSprite l).
Proof.
  unfold local_transition. destruct (local_changes l input);
    unfold local_advance, advance_frame, advance_sprite;
    cbn [currentAnimState currentFrame animTimer playerSprite facingRight];
    destruct (Z.leb _ _);
    cbn [end_of_frame playerSprite setScale setTextureRect sp_x sp_y];
    split; reflexivity.
Qed.

(** An iteration that receives PlayerState messages only: it completes, the
    window and the local id stay, and the local sprite ends at the position
    of the last message for the local id, or where it was. *)
Lemma frame_delivers (i : FrameInput) (msgs : list (Z * Z * Z * bool)) (s : state) :
  keys_agree (st_remote s) ->
  delivers i msgs ->
  Forall fields_in_range msgs ->
  exists s',
    frame i s = Some s' /\
    windowOpen s' = windowOpen s /\
    keys_agree (st_remote s') /\
    myPlayerId s' = myPlayerId s /\
    match last_position_of (myPlayerId s) msgs with
    | Some (x, y) => drawn_position s' = (x, y)
    | None => drawn_position s' = drawn_position s
    end.
Proof.
  intros Hkeys (Hclose & Hok & Halive & Hin) Hmsgs.
  set (b := before_network i s).
  assert (Bw : windowOpen b = windowOpen s)
    by (subst b; unfold before_network; now rewrite Hclose).
  assert (Bid : myPlayerId b = myPlayerId s)
    by (subst b; unfold before_network; now rewrite Hclose).
  assert (Bsp : playerSprite (st_local b) = playerSprite (st_local s))
    by (subst b; unfold before_network; now rewrite Hclose).
  set (s1 := if connected b then b else with_connection (fi_connect_ok i) (windowOpen b) b).
  assert (H1 : st_local s1 = st_local b /\ myPlayerId s1 = myPlayerId b /\
               windowOpen s1 = windowOpen b /\ connected s1 = true).
  { subst s1. destruct (connected b) eqn:E; [now rewrite E |].
    cbn [with_connection st_local myPlayerId windowOpen connected]. now rewrite Hok. }
  destruct H1 as (H1l & H1id & H1w & H1c).
  destruct (receive_player_states msgs s1 Hmsgs) as (s2 & Hrun & Hid2 & Hpos).
  assert (Hn : network i b = Some s2).
  { unfold network. fold s1. rewrite H1c, Hin, Hrun, Halive. reflexivity. }
  destruct (connection_receive_all _ _ _ Hrun) as [_ Hw2].
  destruct (frame_result i s s2 Hkeys Hn) as (r' & _ & Hk' & Hframe).
  eexists. split; [exact Hframe |].
  cbn [windowOpen myPlayerId st_remote with_remote with_local].
  split; [congruence |]. split; [exact Hk' |]. split; [congruence |].
  destruct (local_position_kept (sample_input i) (st_local s2)) as [Kx Ky].
  unfold drawn_position. cbn [st_local with_remote with_local]. rewrite Kx, Ky.
  rewrite H1id, Bid in Hpos.
  destruct (last_position_of (myPlayerId s) msgs) as [[x y] |].
  - destruct Hpos as [-> ->]. reflexivity.
  - rewrite Hpos, H1l, Bsp. reflexivity.
Qed.

Lemma frames_delivers (inputs : list FrameInput) (rounds : list (list (Z * Z * Z * bool))) :
  Forall2 delivers inputs rounds ->
  forall s,
    windowOpen s = true ->
    keys_agree (st_remote s) ->
    Forall fields_in_range (concat rounds) ->
    exists s',
      frames inputs s = Some s' /\
      match last_position_of (myPlayerId s) (concat rounds) with
      | Some (x, y) => drawn_position s' = (x, y)
      | None => drawn_position s' = drawn_position s
      end.
Proof.
  induction 1 as [| i msgs inputs rounds Hi _ IH]; intros s Hopen Hkeys Hmsgs.
  - exists s. split; reflexivity.
  - cbn [concat] in Hmsgs |- *. apply Forall_app in Hmsgs as [Hfirst Hrest].
    destruct (frame_delivers i msgs s Hkeys Hi Hfirst)
      as (s1 & Hframe & Hw1 & Hk1 & Hid1 & Hpos1).
    destruct (IH s1) as (s' & Hrun & Hpos); [congruence | exact Hk1 | exact Hrest |].
    exists s'. cbn [frames]. rewrite Hopen, Hframe. split; [exact Hrun |].
    rewrite last_position_of_app. rewrite Hid1 in Hpos.
    destruct (last_position_of (myPlayerId s) (concat rounds)) as [[x y] |];
      [exact Hpos |].
    rewrite Hpos. exact Hpos1.
Qed.

(** * The properties of the specification *)







(** C3, at a failing input.  The first PlayerState of player 7, at
    x = 100, y = 50 and on the ground, reaches a client that has no record
    of it: the distance is taken from x = 0, where the new sprite stands,
    and the state of the new record is Walk. *)
Theorem first_sighting_walks :
  exists s',
    dispatch (with_id 1 initial_state)
      (encode (PlayerState 7 Float32.lit_100 Float32.lit_50 true)) = Some s' /\
    otherPlayers (st_remote (with_id 1 initial_state)) !! 7 = None /\
    otherPlayersAnimState (st_remote s') !! 7 = Some Walk /\
    remote_target true Float32.lit_100 (sp_x new_sprite) = Walk.
Proof.
  eexists. split; [vm_compute; reflexivity |].
  split; [reflexivity |]. split; vm_compute; reflexivity.
Qed.

(** C4.  A player that has a record receives a PlayerState whose x exceeds
    the recorded x by 5.0 (the difference the source computes is 5.0f): with
    the onGround flag of the message true its state becomes Walk and it faces
    right.  The flag that decides is the one of the message: with the flag
    false the state becomes Jump, and nothing of the local player (so not its
    ground flag) enters the new maps. *)
Theorem remote_walks_right (s : state) (id x y : Z) (sprite : Sprite) :
  is_u32 id -> is_u32 x -> is_u32 y ->
  id ≠ myPlayerId s ->
  otherPlayers (st_remote s) !! id = Some sprite ->
  Float32.sub x (sp_x sprite) = Float32.of_bits Float32.lit_5_0 ->
  (exists s',
      dispatch s (encode (PlayerState id x y true)) = Some s' /\
      otherPlayersAnimState (st_remote s') !! id = Some Walk /\
      otherPlayersFacingRight (st_remote s') !! id = Some true) /\
  (exists s',
      dispatch s (encode (PlayerState id x y false)) = Some s' /\
      otherPlayersAnimState (st_remote s') !! id = Some Jump) /\
  (forall (l : LocalPlayer) (g : bool),
      option_map st_remote (dispatch (with_local l s) (encode (PlayerState id x y g)))
      = option_map st_remote (dispatch s (encode (PlayerState id x y g)))).
Proof.
  intros Hid Hx Hy Hne Hrec Hsub.
  assert (Hgt : Float32.gt x (sp_x sprite) = true).
  { apply (float_sub_positive_gt x (sp_x sprite) 10485760 (-21)). exact Hsub. }
  assert (Hnb : (id =? myPlayerId s) = false) by now apply Z.eqb_neq.
  split; [| split].
  - eexists. split; [now apply dispatch_player_state |].
    unfold on_player_state. rewrite Hnb. cbn [st_remote with_remote].
    unfold remote_state_update. rewrite Hrec. cbn [default from_option].
    rewrite Hrec. cbn [default from_option otherPlayersAnimState otherPlayersFacingRight].
    change (Datatypes.id sprite) with sprite.
    rewrite Hgt. rewrite !lookup_insert_eq.
    unfold remote_target. rewrite Hsub. cbn [negb].
    split; reflexivity.
  - eexists. split; [now apply dispatch_player_state |].
    unfold on_player_state. rewrite Hnb. cbn [st_remote with_remote].
    unfold remote_state_update. cbn [otherPlayersAnimState].
    now rewrite lookup_insert_eq.
  - intros l g. rewrite !dispatch_player_state by assumption.
    unfold on_player_state. cbn [myPlayerId with_local]. rewrite Hnb. reflexivity.
Qed.

Lemma remote_walks_right_witness :
  exists s',
    dispatch (on_player_joined 7 Float32.lit_10_0 Float32.lit_0_0 true (with_id 1 initial_state))
      (encode (PlayerState 7 Float32.lit_15_0 Float32.lit_0_0 true)) = Some s' /\
    otherPlayersAnimState (st_remote s') !! 7 = Some Walk /\
    otherPlayersFacingRight (st_remote s') !! 7 = Some true.
Proof.
  refine (proj1 (remote_walks_right
                   (on_player_joined 7 Float32.lit_10_0 Float32.lit_0_0 true (with_id 1 initial_state))
                   7 Float32.lit_15_0 Float32.lit_0_0
                   (setPosition Float32.lit_10_0 Float32.lit_0_0 new_sprite) _ _ _ _ _ _));
    try (vm_compute; intuition discriminate); vm_compute; reflexivity.
Defined.

(** C5.  After the dispatcher has processed a sequence of valid PlayerState
    messages of which at least one names the local id, the position of the
    local sprite is the (x, y) of the last of them that does.  The same
    holds of the position the local sprite is drawn at, at the end of a run
    of iterations that receive these messages, however they are spread over
    the iterations and whatever the elapsed times and the keys: nothing in
    an iteration but a PlayerState for the local id moves the sprite. *)
Theorem local_position_is_last_received
    (s : state) (msgs : list (Z * Z * Z * bool)) (x y : Z) :
  Forall fields_in_range msgs ->
  last_position_of (myPlayerId s) msgs = Some (x, y) ->
  (exists s',
      receive_all s (map (fun f => encode (player_state_message f)) msgs) = Some s' /\
      sp_x (playerSprite (st_local s')) = x /\
      sp_y (playerSprite (st_local s')) = y) /\
  (forall inputs rounds,
      concat rounds = msgs ->
      Forall2 delivers inputs rounds ->
      windowOpen s = true ->
      keys_agree (st_remote s) ->
      exists s',
        frames inputs s = Some s' /\
        drawn_position s' = (x, y)).
Proof.
  intros Hmsgs Hlast. split.
  - destruct (receive_player_states msgs s Hmsgs) as (s' & Hrun & _ & Hpos).
    rewrite Hlast in Hpos. exists s'. split; [exact Hrun | exact Hpos].
  - intros inputs rounds Hcat Hdel Hopen Hkeys. subst msgs.
    destruct (frames_delivers inputs rounds Hdel s Hopen Hkeys Hmsgs) as (s' & Hrun & Hpos).
    rewrite Hlast in Hpos. exists s'. split; [exact Hrun | exact Hpos].
Qed.

Lemma local_position_is_last_received_witness :
  exists s',
    frames
      [iteration 16000 right_held
         (map (fun f => encode (player_state_message f))
            [(1, Float32.lit_400, Float32.lit_300, true);
             (7, Float32.lit_5_0, Float32.lit_0_0, true);
             (1, Float32.lit_5_0, Float32.lit_300, false)]);
       iteration 350000 no_input
         (map (fun f => encode (player_state_message f))
            [(7, Float32.lit_0_0, Float32.lit_0_0, true)])]
      (with_id 1 initial_state) = Some s' /\
    drawn_position s' = (Float32.lit_5_0, Float32.lit_300).
Proof.
  refine (proj2 (local_position_is_last_received (with_id 1 initial_state)
                   [(1, Float32.lit_400, Float32.lit_300, true);
                    (7, Float32.lit_5_0, Float32.lit_0_0, true);
                    (1, Float32.lit_5_0, Float32.lit_300, false);
                    (7, Float32.lit_0_0, Float32.lit_0_0, true)]
                   Float32.lit_5_0 Float32.lit_300 _ _)
            _
            [[(1, Float32.lit_400, Float32.lit_300, true);
              (7, Float32.lit_5_0, Float32.lit_0_0, true);
              (1, Float32.lit_5_0, Float32.lit_300, false)];
             [(7, Float32.lit_0_0, Float32.lit_0_0, true)]]
            _ _ _ _).
  - repeat (apply List.Forall_cons; [vm_compute; intuition discriminate |]).
    apply List.Forall_nil.
  - reflexivity.
  - reflexivity.
  - apply List.Forall2_cons; [unfold delivers; cbn; auto |].
    apply List.Forall2_cons; [unfold delivers; cbn; auto |]. apply List.Forall2_nil.
  - reflexivity.
  - exact keys_agree_initial.
Defined.

(** C6.  With the local player in Stand, the cooldown expired and the ground
    flag false when the transition is decided in two consecutive iterations,
    the first iteration changes the state to Jump, puts the frame index and
    the frame timer back to zero and starts the cooldown of 100000
    microseconds; the second changes nothing: the state stays Jump, the frame
    timer keeps the elapsed time (less one frame duration if a frame was
    due) and the cooldown runs on. *)
Theorem jump_triggers_once (s n1 : state) (i1 i2 : FrameInput) :
  keys_agree (st_remote s) ->
  currentAnimState (st_local s) = Stand ->
  stateChangeCooldownTimer (st_local s) <= 0 ->
  network i1 (before_network i1 s) = Some n1 ->
  myIsOnGround (st_local n1) = false ->
  exists s1,
    frame i1 s = Some s1 /\
    local_changes (st_local n1) (sample_input i1) = true /\
    currentAnimState (st_local s1) = Jump /\
    currentFrame (st_local s1) = 0 /\
    animTimer (st_local s1) = 0 /\
    stateChangeCooldownTimer (st_local s1) = 100000 /\
    forall n2,
      network i2 (before_network i2 s1) = Some n2 ->
      myIsOnGround (st_local n2) = false ->
      exists s2,
        frame i2 s1 = Some s2 /\
        local_changes (st_local n2) (sample_input i2) = false /\
        currentAnimState (st_local s2) = Jump /\
        currentFrame (st_local s2) = (if 100000 <=? fi_dt i2 then 1 else 0) /\
        animTimer (st_local s2) =
          (if 100000 <=? fi_dt i2 then fi_dt i2 - 100000 else fi_dt i2) /\
        stateChangeCooldownTimer (st_local s2) = 100000 - fi_dt i2.
Proof.
  intros Hkeys Hstand Hcool Hn1 Hair1.
  destruct (frame_result i1 s n1 Hkeys Hn1) as (r1 & _ & Hk1 & Hframe1).
  destruct (local_animation_fields _ _ (local_animation_network _ _ _ Hn1))
    as (Hst1 & Hf1 & Ht1 & Hc1).
  destruct (local_animation_before_network i1 s) as (Bst & Bf & Bt & Bc & _).
  rewrite Bst, Hstand in Hst1.
  rewrite Bc in Hc1.
  assert (Hc1' : stateChangeCooldownTimer (st_local n1) <= 0).
  { rewrite Hc1. destruct (Z.ltb_spec 0 (stateChangeCooldownTimer (st_local s))); lia. }
  assert (Htarget1 : local_target (st_local n1) (sample_input i1) = Jump).
  { unfold local_target. now rewrite Hair1. }
  assert (Hchg1 : local_changes (st_local n1) (sample_input i1) = true).
  { unfold local_changes. rewrite Htarget1, Hst1.
    destruct (Z.leb_spec (stateChangeCooldownTimer (st_local n1)) 0); [reflexivity | lia]. }
  eexists. split; [exact Hframe1 |]. split; [exact Hchg1 |].
  unfold local_transition. rewrite Hchg1, Htarget1.
  unfold local_advance, advance_frame. cbn [currentAnimState currentFrame animTimer].
  rewrite seconds_jump, seconds_cooldown. cbn.
  do 4 (split; [reflexivity |]).
  intros n2 Hn2 Hair2.
  match type of Hn2 with network _ (before_network _ ?t) = _ => set (s1 := t) in * end.
  assert (Hks1 : keys_agree (st_remote s1)) by exact Hk1.
  destruct (frame_result i2 s1 n2 Hks1 Hn2) as (r2 & _ & _ & Hframe2).
  destruct (local_animation_fields _ _ (local_animation_network _ _ _ Hn2))
    as (Hst2 & Hf2 & Ht2 & Hc2).
  destruct (local_animation_before_network i2 s1) as (Cst & Cf & Ct & Cc & _).
  rewrite Cst in Hst2. rewrite Cf in Hf2. rewrite Ct in Ht2. rewrite Cc in Hc2.
  subst s1. cbn in Hst2, Hf2, Ht2, Hc2. rewrite Z.add_0_l in Ht2.
  assert (Htarget2 : local_target (st_local n2) (sample_input i2) = Jump).
  { unfold local_target. now rewrite Hair2. }
  assert (Hchg2 : local_changes (st_local n2) (sample_input i2) = false).
  { unfold local_changes. rewrite Htarget2, Hst2. reflexivity. }
  eexists. split; [exact Hframe2 |]. split; [exact Hchg2 |].
  unfold local_transition. rewrite Hchg2.
  unfold local_advance, advance_frame. rewrite Hst2, Hf2, Ht2, Hc2, seconds_jump.
  destruct (Z.leb_spec 100000 (fi_dt i2)); cbn; repeat split; reflexivity.
Qed.

Lemma jump_triggers_once_witness :
  exists s1 s2,
    frame takeoff initial_state = Some s1 /\
    frame airborne s1 = Some s2 /\
    (currentAnimState (st_local s1), currentFrame (st_local s1), animTimer (st_local s1),
     stateChangeCooldownTimer (st_local s1)) = (Jump, 0, 0, 100000) /\
    (currentAnimState (st_local s2), currentFrame (st_local s2), animTimer (st_local s2),
     stateChangeCooldownTimer (st_local s2)) = (Jump, 0, 16000, 84000).
Proof.
  destruct (jump_triggers_once initial_state
              (default initial_state (network takeoff (before_network takeoff initial_state)))
              takeoff airborne keys_agree_initial eq_refl)
    as (s1 & Hf1 & _ & Hst1 & Hfr1 & Ht1 & Hc1 & Hsecond);
    [cbn; lia | vm_compute; reflexivity | vm_compute; reflexivity |].
  assert (Hs1 : frame takeoff initial_state = Some s1) by exact Hf1.
  vm_compute in Hf1. injection Hf1 as <-.
  edestruct Hsecond as (s2 & Hf2 & _ & Hst2 & Hfr2 & Ht2 & Hc2);
    [vm_compute; reflexivity | vm_compute; reflexivity |].
  eexists. exists s2. split; [exact Hs1 |]. split; [exact Hf2 |].
  rewrite Hst2, Hfr2, Ht2, Hc2. split; reflexivity.
Defined.

(** C7.  Two PlayerJoined messages for the same id of another player: the
    second is a no-op.  After both the id has one record; when the id was new
    the registry has grown by exactly one record, the one made from the first
    message. *)
Theorem second_join_is_noop (s : state) (id x1 y1 x2 y2 : Z) (g1 g2 : bool) :
  is_u32 id -> is_u32 x1 -> is_u32 y1 -> is_u32 x2 -> is_u32 y2 ->
  id ≠ myPlayerId s ->
  exists s1,
    dispatch s (encode (PlayerJoined id x1 y1 g1)) = Some s1 /\
    dispatch s1 (encode (PlayerJoined id x2 y2 g2)) = Some s1 /\
    is_Some (otherPlayers (st_remote s1) !! id) /\
    (otherPlayers (st_remote s) !! id = None ->
     size (otherPlayers (st_remote s1)) = S (size (otherPlayers (st_remote s))) /\
     otherPlayers (st_remote s1) !! id = Some (setPosition x1 y1 new_sprite) /\
     otherPlayersAnimState (st_remote s1) !! id = Some (if g1 then Stand else Jump) /\
     otherPlayersCurrentFrame (st_remote s1) !! id = Some 0 /\
     otherPlayersAnimTimer (st_remote s1) !! id = Some 0 /\
     otherPlayersFacingRight (st_remote s1) !! id = Some true).
Proof.
  intros Hid Hx1 Hy1 Hx2 Hy2 Hne.
  exists (on_player_joined id x1 y1 g1 s).
  split; [now apply dispatch_player_joined |].
  rewrite dispatch_player_joined by assumption.
  assert (Hnb : (id =? myPlayerId s) = false) by now apply Z.eqb_neq.
  unfold on_player_joined at 2 3 4 5 6 7 8 9 10. rewrite Hnb. cbn [negb andb].
  case_bool_decide as Hnew.
  - assert (Hnow : otherPlayers (st_remote (with_remote
                     (create_on_join id x1 y1 g1 (st_remote s)) s)) !! id
                   = Some (setPosition x1 y1 new_sprite)) by apply lookup_insert_eq.
    split; [| split].
    + unfold on_player_joined. cbn [myPlayerId with_remote]. rewrite Hnb. cbn [negb andb].
      rewrite bool_decide_eq_false_2; [reflexivity |]. now rewrite Hnow.
    + rewrite Hnow. eauto.
    + intros _. cbn. rewrite !lookup_insert_eq.
      split; [now apply map_size_insert_None | done].
  - split; [| split].
    + unfold on_player_joined. rewrite Hnb. cbn [negb andb].
      now rewrite bool_decide_eq_false_2.
    + now apply not_eq_None_Some.
    + intros Habs. contradiction.
Qed.

Lemma second_join_is_noop_witness :
  exists s1,
    dispatch (with_id 1 initial_state)
      (encode (PlayerJoined 7 Float32.lit_5_0 Float32.lit_0_0 false)) = Some s1 /\
    dispatch s1 (encode (PlayerJoined 7 Float32.lit_400 Float32.lit_300 true)) = Some s1 /\
    size (otherPlayers (st_remote s1)) = 1%nat /\
    otherPlayersAnimState (st_remote s1) !! 7 = Some Jump.
Proof.
  destruct (second_join_is_noop (with_id 1 initial_state) 7
              Float32.lit_5_0 Float32.lit_0_0 Float32.lit_400 Float32.lit_300 false true)
    as (s1 & H1 & H2 & _ & Hnew); try (vm_compute; intuition discriminate).
  exists s1. destruct (Hnew eq_refl) as (Hsize & _ & Hst & _).
  split; [exact H1 |]. split; [exact H2 |]. split; [exact Hsize | exact Hst].
Defined.

(** C8.  For a well-formed message of any of the six tags, the bytes it is
    encoded to decode to that message, and encoding the decoded message gives
    the same bytes again. *)
Theorem codec_round_trip (m : Message) (bytes : Packet.t) :
  well_formed m ->
  bytes = encode m ->
  decode bytes = Some m /\ option_map encode (decode bytes) = Some bytes.
Proof.
  intros Hwf ->. rewrite (decode_encode m Hwf). split; reflexivity.
Qed.

Lemma codec_round_trip_witness :
  Forall (fun m => option_map encode (decode (encode m)) = Some (encode m))
    [Welcome 3;
     PlayerState 7 Float32.lit_400 Float32.lit_300 true;
     PlayerInput right_held;
     PlayerJoined 7 Float32.lit_5_0 Float32.lit_0_0 false;
     PlayerLeft 7;
     MapData 2 2 [1; 0; -1; 1]].
Proof.
  assert (Hu : forall v, 0 <= v < 4294967296 -> is_u32 v) by (intros v Hv; exact Hv).
  apply List.Forall_cons.
  { refine (proj2 (codec_round_trip (Welcome 3) _ _ eq_refl)).
    apply Hu. lia. }
  apply List.Forall_cons.
  { refine (proj2 (codec_round_trip
                     (PlayerState 7 Float32.lit_400 Float32.lit_300 true) _ _ eq_refl)).
    split; [| split]; apply Hu; unfold Float32.lit_400, Float32.lit_300; lia. }
  apply List.Forall_cons.
  { refine (proj2 (codec_round_trip (PlayerInput right_held) _ I eq_refl)). }
  apply List.Forall_cons.
  { refine (proj2 (codec_round_trip
                     (PlayerJoined 7 Float32.lit_5_0 Float32.lit_0_0 false) _ _ eq_refl)).
    split; [| split]; apply Hu; unfold Float32.lit_5_0, Float32.lit_0_0; lia. }
  apply List.Forall_cons.
  { refine (proj2 (codec_round_trip (PlayerLeft 7) _ _ eq_refl)).
    apply Hu. lia. }
  apply List.Forall_cons; [| apply List.Forall_nil].
  refine (proj2 (codec_round_trip (MapData 2 2 [1; 0; -1; 1]) _ _ eq_refl)).
  split; [lia | split; [lia | split; [reflexivity |]]].
  repeat (apply List.Forall_cons; [unfold is_i32; lia |]). apply List.Forall_nil.
Defined.

(** C9, as the source has it.  A PlayerState, PlayerJoined or PlayerLeft that
    names the id that is local when it is processed leaves the five maps
    untouched, and no packet gives that id a record.  Hence, from a state in
    which the local id has no record, it has none after any sequence of
    packets in which no Welcome hands out an id that has a record at that
    moment. *)
Theorem local_id_stays_out (s s' : state) (packets : list Packet.t) :
  local_not_remote s ->
  welcomes_fresh s packets = true ->
  receive_all s packets = Some s' ->
  local_not_remote s' /\
  (forall t t' packet m,
      decode packet = Some m -> names_id m (myPlayerId t) ->
      dispatch t packet = Some t' -> st_remote t' = st_remote t) /\
  (forall t t' packet,
      local_not_remote t -> dispatch t packet = Some t' ->
      otherPlayers (st_remote t') !! myPlayerId t = None).
Proof.
  intros Hs Hfresh Hrun. split; [| split].
  - eapply local_not_remote_receive_all; eauto.
  - intros t t' packet m. apply local_id_filtered.
  - intros t t' packet. apply local_id_not_inserted.
Qed.

Lemma local_id_stays_out_witness :
  exists s', receive_all initial_state echo_session = Some s' /\ local_not_remote s'.
Proof.
  eexists. split; [vm_compute; reflexivity |].
  refine (proj1 (local_id_stays_out initial_state _ echo_session _ _ _)).
  - reflexivity.
  - vm_compute. reflexivity.
  - vm_compute. reflexivity.
Defined.

(** C9 as stated fails: a PlayerState for id 5 that arrives before the
    Welcome that makes 5 the local id has given 5 a record, and the record
    stays. *)
Lemma local_id_enters_registry :
  ~ (forall packets s',
        receive_all initial_state packets = Some s' -> local_not_remote s').
Proof.
  intros H.
  specialize (H [encode (PlayerState 5 Float32.lit_400 Float32.lit_300 true);
                 encode (Welcome 5)]).
  edestruct (receive_all initial_state _) as [s' |] eqn:E; [| vm_compute in E; discriminate].
  specialize (H s' eq_refl). vm_compute in E. injection E as <-.
  vm_compute in H. discriminate.
Qed.

(** C10.  Whatever packets the receive loop processes, the five maps of the
    other players keep the same key set. *)
Theorem parallel_maps_same_keys (s s' : state) (packets : list Packet.t) :
  keys_agree (st_remote s) ->
  receive_all s packets = Some s' ->
  keys_agree (st_remote s').
Proof.
  revert s. induction packets as [| packet rest IH]; intros s Hs; cbn [receive_all].
  - intros [= <-]. exact Hs.
  - destruct (dispatch s packet) as [s1 |] eqn:Hstep; [| discriminate].
    apply IH. exact (keys_agree_dispatch s s1 packet Hs Hstep).
Qed.

Lemma parallel_maps_same_keys_witness :
  exists s', receive_all initial_state churn_session = Some s' /\ keys_agree (st_remote s').
Proof.
  eexists. split; [vm_compute; reflexivity |].
  refine (parallel_maps_same_keys initial_state _ churn_session keys_agree_initial _).
  vm_compute. reflexivity.
Defined.

(** * Further properties of the code *)

(** ** Extraction failures *)

Lemma read_u32_short (p : Packet.t) : (length p < 4)%nat -> Packet.read_u32 p = None.
Proof.
  destruct p as [| b0 [| b1 [| b2 [| b3 rest]]]]; cbn; intros; try reflexivity; lia.
Qed.

Lemma read_float_short (p : Packet.t) : (length p < 4)%nat -> Packet.read_float p = None.
Proof.
  destruct p as [| b0 [| b1 [| b2 [| b3 rest]]]]; cbn; intros; try reflexivity; lia.
Qed.

Lemma read_u32_rest (p rest : Packet.t) (v : Z) :
  Packet.read_u32 p = Some (v, rest) -> length p = (4 + length rest)%nat.
Proof.
  destruct p as [| b0 [| b1 [| b2 [| b3 tail]]]]; cbn; try discriminate.
  now intros [= _ <-].
Qed.

Lemma read_float_rest (p rest : Packet.t) (v : Z) :
  Packet.read_float p = Some (v, rest) -> length p = (4 + length rest)%nat.
Proof.
  destruct p as [| b0 [| b1 [| b2 [| b3 tail]]]]; cbn; try discriminate.
  now intros [= _ <-].
Qed.

Lemma read_player_short (p : Packet.t) : (length p < 13)%nat -> Wire.read_player p = None.
Proof.
  intros Hlen. unfold Wire.read_player, Packet.bind.
  destruct (Packet.read_u32 p) as [[id p1] |] eqn:E1; [| reflexivity].
  apply read_u32_rest in E1.
  destruct (Packet.read_float p1) as [[x p2] |] eqn:E2; [| reflexivity].
  apply read_float_rest in E2.
  destruct (Packet.read_float p2) as [[y p3] |] eqn:E3; [| reflexivity].
  apply read_float_rest in E3.
  destruct p3 as [| b rest]; [reflexivity |]. cbn in *. lia.
Qed.

Lemma read_dimensions_short (p : Packet.t) :
  (length p < 8)%nat -> Wire.read_dimensions p = None.
Proof.
  intros Hlen. unfold Wire.read_dimensions, Packet.bind.
  destruct (Packet.read_u32 p) as [[width p1] |] eqn:E1; [| reflexivity].
  apply read_u32_rest in E1.
  rewrite read_u32_short by lia. reflexivity.
Qed.

Lemma discarded_dispatch (s : state) (packet : Packet.t) :
  discarded packet = true -> dispatch s packet = Some s.
Proof.
  destruct packet as [| type fields]; [reflexivity |].
  unfold discarded, dispatch. cbn [Wire.read_type Packet.read_u8].
  destruct (type =? tag_Welcome); cbn [orb].
  { intros H. apply Nat.ltb_lt in H. now rewrite read_u32_short. }
  destruct (type =? tag_PlayerState); cbn [orb].
  { destruct (type =? tag_PlayerLeft); intros H; apply Nat.ltb_lt in H;
      rewrite read_player_short; (reflexivity || lia). }
  destruct (type =? tag_PlayerJoined); cbn [orb].
  { destruct (type =? tag_PlayerLeft); intros H; apply Nat.ltb_lt in H;
      rewrite read_player_short; (reflexivity || lia). }
  destruct (type =? tag_PlayerLeft).
  { intros H. apply Nat.ltb_lt in H. now rewrite read_u32_short. }
  destruct (type =? tag_MapData); [| reflexivity].
  intros H. apply Nat.ltb_lt in H. unfold on_map_data.
  rewrite read_dimensions_short by exact H. now destruct s.
Qed.

Lemma receive_all_app (s : state) (first second : list Packet.t) :
  receive_all s (first ++ second) =
  match receive_all s first with
  | Some s' => receive_all s' second
  | None => None
  end.
Proof.
  revert s. induction first as [| packet first IH]; intros s; [reflexivity |].
  cbn [app receive_all]. destruct (dispatch s packet); [apply IH | reflexivity].
Qed.

(** X1.  What [operator<<] writes for a PlayerInputState, [operator>>] reads
    back, whatever follows in the packet; cut after fewer than five bytes
    the extraction fails. *)
Theorem input_state_round_trip (input : PlayerInputState) (n : nat) :
  (n < 5)%nat ->
  Wire.read_input (take n (Wire.write_input input [])) = None /\
  forall rest, Wire.read_input (Wire.write_input input [] ++ rest) = Some (input, rest).
Proof.
  intros Hn. split.
  - destruct n as [| [| [| [| [| n]]]]]; [reflexivity .. | lia].
  - intros rest. now destruct input as [[] [] [] [] []].
Qed.

Lemma input_state_round_trip_witness :
  Wire.read_input (take 3 (Wire.write_input right_held [])) = None /\
  Wire.read_input (Wire.write_input right_held [] ++ [7]) = Some (right_held, [7]).
Proof.
  destruct (input_state_round_trip right_held 3 ltac:(lia)) as [Hcut Hfull].
  split; [exact Hcut | exact (Hfull [7])].
Defined.

(** X2.  A packet that is empty, of an unhandled type or too short for its
    fields is skipped: the receive loop ends in the state it would reach
    without that packet. *)
Theorem discarded_packet_skipped (s : state) (before after : list Packet.t) (bad : Packet.t) :
  discarded bad = true ->
  receive_all s (before ++ bad :: after) = receive_all s (before ++ after).
Proof.
  intros Hbad. rewrite !receive_all_app.
  destruct (receive_all s before) as [s1 |]; [| reflexivity].
  cbn [receive_all]. now rewrite discarded_dispatch.
Qed.

Lemma discarded_packet_skipped_witness :
  receive_all initial_state
    ([encode (Welcome 1)]
       ++ [tag_PlayerState; 0; 0; 0; 7; 0; 0] :: [encode (PlayerJoined 7 0 0 true)])
  = receive_all initial_state ([encode (Welcome 1)] ++ [encode (PlayerJoined 7 0 0 true)]).
Proof.
  apply (discarded_packet_skipped initial_state [encode (Welcome 1)]
           [encode (PlayerJoined 7 0 0 true)] [tag_PlayerState; 0; 0; 0; 7; 0; 0]).
  reflexivity.
Defined.

(** ** What a packet can change *)

(** X3.  A packet changes only what its type owns: none changes the
    connection flags or the animation variables of the local player; only a
    Welcome changes the local id, only a MapData the map, only a PlayerState
    the position and ground flag of the local player, and only PlayerState,
    PlayerJoined and PlayerLeft the records of the other players. *)
Theorem packet_changes_only_its_own (s s' : state) (packet : Packet.t) :
  dispatch s packet = Some s' ->
  connected s' = connected s /\
  windowOpen s' = windowOpen s /\
  local_animation (st_local s') = local_animation (st_local s) /\
  (head packet <> Some tag_Welcome -> myPlayerId s' = myPlayerId s) /\
  (head packet <> Some tag_MapData -> st_map s' = st_map s) /\
  (head packet <> Some tag_PlayerState -> st_local s' = st_local s) /\
  (head packet <> Some tag_PlayerState -> head packet <> Some tag_PlayerJoined ->
   head packet <> Some tag_PlayerLeft -> st_remote s' = st_remote s).
Proof.
  destruct packet as [| type fields]; [now intros [= <-] |].
  unfold dispatch. cbn [Wire.read_type Packet.read_u8 head].
  destruct (Z.eqb_spec type tag_Welcome) as [-> | N0].
  { destruct (Packet.read_u32 fields) as [[id ?] |]; intros [= <-];
      repeat split; intros; try reflexivity; congruence. }
  destruct (Z.eqb_spec type tag_PlayerState) as [-> | N1].
  { destruct (Wire.read_player fields) as [[[[[id x] y] g] ?] |]; intros [= <-];
      unfold on_player_state; try destruct (id =? myPlayerId s);
      repeat split; intros; try reflexivity; congruence. }
  destruct (Z.eqb_spec type tag_PlayerJoined) as [-> | N3].
  { destruct (Wire.read_player fields) as [[[[[id x] y] g] ?] |]; intros [= <-];
      unfold on_player_joined; try destruct (_ && _);
      repeat split; intros; try reflexivity; congruence. }
  destruct (Z.eqb_spec type tag_PlayerLeft) as [-> | N4].
  { destruct (Packet.read_u32 fields) as [[id ?] |]; intros [= <-];
      unfold on_player_left; try destruct (negb _);
      repeat split; intros; try reflexivity; congruence. }
  destruct (Z.eqb_spec type tag_MapData) as [-> | N5].
  { destruct (on_map_data fields (st_map s)) as [m |]; intros [= <-];
      repeat split; intros; try reflexivity; congruence. }
  intros [= <-]. repeat split; intros; reflexivity.
Qed.

Lemma packet_changes_only_its_own_witness :
  exists s',
    dispatch walking full_map = Some s' /\
    st_local s' = st_local walking /\ st_remote s' = st_remote walking /\
    myPlayerId s' = myPlayerId walking.
Proof.
  eexists. split; [vm_compute; reflexivity |].
  destruct (packet_changes_only_its_own walking _ full_map eq_refl)
    as (_ & _ & _ & Hid & _ & Hlocal & Hremote).
  split; [apply Hlocal; discriminate |].
  split; [apply Hremote; discriminate | apply Hid; discriminate].
Defined.

(** ** Leaving *)

Lemma dispatch_player_left (s : state) (id : Z) :
  is_u32 id -> dispatch s (encode (PlayerLeft id)) = Some (on_player_left id s).
Proof.
  intros Hid. apply (dispatch_decoded s _ (PlayerLeft id)). now apply decode_encode.
Qed.

Lemma absent_everywhere (r : Remote) (id : Z) :
  keys_agree r -> otherPlayers r !! id = None ->
  otherPlayersAnimState r !! id = None /\
  otherPlayersCurrentFrame r !! id = None /\
  otherPlayersAnimTimer r !! id = None /\
  otherPlayersFacingRight r !! id = None.
Proof.
  intros (H1 & H2 & H3 & H4) Hnone. apply not_elem_of_dom in Hnone.
  repeat split; apply not_elem_of_dom; congruence.
Qed.

(** X4.  A PlayerLeft for an id that has no record changes nothing at all. *)
Theorem leave_unknown_is_noop (s : state) (id : Z) :
  is_u32 id ->
  otherPlayers (st_remote s) !! id = None ->
  dispatch s (encode (PlayerLeft id)) = Some s.
Proof.
  intros Hid Hnone. rewrite dispatch_player_left by exact Hid. f_equal.
  unfold on_player_left. destruct (negb _); [| reflexivity].
  unfold erase_player. rewrite Hnone, (delete_id _ _ Hnone).
  destruct s as [m l my [] c w]. reflexivity.
Qed.

Lemma leave_unknown_is_noop_witness :
  dispatch walking (encode (PlayerLeft 9)) = Some walking.
Proof.
  apply (leave_unknown_is_noop walking 9); [| vm_compute; reflexivity].
  unfold is_u32. lia.
Defined.

(** X5.  After a PlayerLeft for the id of another player, none of the five
    maps has an entry for that id. *)
Theorem leave_removes_record (s : state) (id : Z) :
  is_u32 id ->
  id <> myPlayerId s ->
  keys_agree (st_remote s) ->
  exists s',
    dispatch s (encode (PlayerLeft id)) = Some s' /\
    otherPlayers (st_remote s') !! id = None /\
    otherPlayersAnimState (st_remote s') !! id = None /\
    otherPlayersCurrentFrame (st_remote s') !! id = None /\
    otherPlayersAnimTimer (st_remote s') !! id = None /\
    otherPlayersFacingRight (st_remote s') !! id = None.
Proof.
  intros Hid Hne Hkeys. eexists. split; [now apply dispatch_player_left |].
  unfold on_player_left.
  assert (Hnb : (id =? myPlayerId s) = false) by now apply Z.eqb_neq.
  rewrite Hnb. cbn [negb st_remote with_remote]. unfold erase_player.
  destruct (otherPlayers (st_remote s) !! id) eqn:E; cbn.
  - rewrite !lookup_delete_eq. repeat split; reflexivity.
  - rewrite lookup_delete_eq. split; [reflexivity |].
    now apply absent_everywhere.
Qed.

Lemma leave_removes_record_witness :
  exists s',
    dispatch walking (encode (PlayerLeft 7)) = Some s' /\
    otherPlayers (st_remote walking) !! 7 <> None /\
    otherPlayers (st_remote s') !! 7 = None /\
    otherPlayersAnimTimer (st_remote s') !! 7 = None.
Proof.
  assert (Hid : is_u32 7) by (unfold is_u32; lia).
  assert (Hne : 7 <> myPlayerId walking) by (vm_compute; discriminate).
  destruct (leave_removes_record walking 7 Hid Hne keys_agree_walking)
    as (s' & Hrun & H1 & _ & _ & H4 & _).
  exists s'. split; [exact Hrun |]. split; [vm_compute; discriminate |].
  split; [exact H1 | exact H4].
Defined.

(** X6.  A PlayerJoined for a new id followed by a PlayerLeft for it gives
    back the state before the two. *)
Theorem join_then_leave_restores (s : state) (id x y : Z) (g : bool) :
  is_u32 id -> is_u32 x -> is_u32 y ->
  id <> myPlayerId s ->
  keys_agree (st_remote s) ->
  otherPlayers (st_remote s) !! id = None ->
  receive_all s [encode (PlayerJoined id x y g); encode (PlayerLeft id)] = Some s.
Proof.
  intros Hid Hx Hy Hne Hkeys Hnew. cbn [receive_all].
  rewrite dispatch_player_joined by assumption.
  rewrite dispatch_player_left by exact Hid. f_equal.
  assert (Hnb : (id =? myPlayerId s) = false) by now apply Z.eqb_neq.
  unfold on_player_joined. rewrite Hnb. cbn [negb andb].
  rewrite bool_decide_eq_true_2 by exact Hnew.
  unfold on_player_left. cbn [myPlayerId with_remote]. rewrite Hnb. cbn [negb].
  cbn [st_remote with_remote]. unfold erase_player.
  cbn [create_on_join otherPlayers otherPlayersAnimState otherPlayersCurrentFrame
         otherPlayersAnimTimer otherPlayersFacingRight].
  rewrite lookup_insert_eq.
  destruct (absent_everywhere _ id Hkeys Hnew) as (H1 & H2 & H3 & H4).
  rewrite !delete_insert_id by assumption.
  destruct s as [m l my [] c w]. reflexivity.
Qed.

Lemma join_then_leave_restores_witness :
  receive_all walking
    [encode (PlayerJoined 9 Float32.lit_100 Float32.lit_50 false); encode (PlayerLeft 9)]
  = Some walking.
Proof.
  apply (join_then_leave_restores walking 9 Float32.lit_100 Float32.lit_50 false);
    try exact keys_agree_walking; vm_compute; intuition discriminate.
Defined.

(** ** One player at a time *)

(** X7.  A PlayerState, PlayerJoined or PlayerLeft for one id leaves the
    entries of every other id in the five maps as they are. *)
Theorem other_players_untouched
    (s s' : state) (packet : Packet.t) (m : Message) (id id' : Z) :
  decode packet = Some m ->
  names_id m id ->
  id' <> id ->
  dispatch s packet = Some s' ->
  remote_record (st_remote s') id' = remote_record (st_remote s) id'.
Proof.
  intros Hdec Hname Hne Hrun.
  pose proof (dispatch_decoded s packet m Hdec) as H.
  assert (Hne' : id <> id') by congruence.
  destruct m as [i | i x y g | input | i x y g | i | w h tiles];
    cbn in Hname; try contradiction; subst i; rewrite H in Hrun; injection Hrun as <-.
  - unfold on_player_state. destruct (id =? myPlayerId s); [reflexivity |].
    cbn [st_remote with_remote]. unfold remote_record, remote_state_update.
    destruct (otherPlayers (st_remote s) !! id);
      cbn [create_on_state otherPlayers otherPlayersAnimState otherPlayersCurrentFrame
             otherPlayersAnimTimer otherPlayersFacingRight];
      repeat (match goal with |- context [if ?b then _ else _] => destruct b end);
      rewrite ?lookup_insert_ne by exact Hne'; reflexivity.
  - unfold on_player_joined. destruct (_ && _); [| reflexivity].
    cbn [st_remote with_remote]. unfold remote_record.
    cbn [create_on_join otherPlayers otherPlayersAnimState otherPlayersCurrentFrame
           otherPlayersAnimTimer otherPlayersFacingRight].
    rewrite !lookup_insert_ne by exact Hne'. reflexivity.
  - unfold on_player_left. destruct (negb _); [| reflexivity].
    cbn [st_remote with_remote]. unfold remote_record, erase_player.
    destruct (otherPlayers (st_remote s) !! id);
      cbn [otherPlayers otherPlayersAnimState otherPlayersCurrentFrame
             otherPlayersAnimTimer otherPlayersFacingRight];
      rewrite ?lookup_delete_ne by exact Hne'; reflexivity.
Qed.

Lemma other_players_untouched_witness :
  exists s',
    dispatch walking (encode (PlayerState 8 Float32.lit_100 Float32.lit_50 false)) = Some s' /\
    remote_record (st_remote s') 7 = remote_record (st_remote walking) 7.
Proof.
  eexists. split; [vm_compute; reflexivity |].
  refine (other_players_untouched walking _
            (encode (PlayerState 8 Float32.lit_100 Float32.lit_50 false))
            (PlayerState 8 Float32.lit_100 Float32.lit_50 false) 8 7 _ _ _ _).
  - vm_compute. reflexivity.
  - reflexivity.
  - discriminate.
  - vm_compute. reflexivity.
Defined.

(** The sprite of one player across a run of PlayerState messages. *)
Lemma receive_remote_states (msgs : list (Z * Z * Z * bool)) (s : state) (id : Z) :
  Forall fields_in_range msgs ->
  id <> myPlayerId s ->
  exists s',
    receive_all s (map (fun f => encode (player_state_message f)) msgs) = Some s' /\
    myPlayerId s' = myPlayerId s /\
    match last_position_of id msgs with
    | Some (x, y) =>
        exists sprite,
          otherPlayers (st_remote s') !! id = Some sprite /\
          sp_x sprite = x /\ sp_y sprite = y
    | None => otherPlayers (st_remote s') !! id = otherPlayers (st_remote s) !! id
    end.
Proof.
  intros Hmsgs. revert s.
  induction Hmsgs as [| [[[i x] y] g] rest (Hi & Hx & Hy) _ IH]; intros s Hne.
  - exists s. cbn. done.
  - cbn [map receive_all player_state_message].
    rewrite dispatch_player_state by assumption.
    assert (Hsame : myPlayerId (on_player_state i x y g s) = myPlayerId s).
    { unfold on_player_state. now destruct (i =? myPlayerId s). }
    destruct (IH (on_player_state i x y g s)) as (s' & Hrun & Hmy & Hpos);
      [now rewrite Hsame |].
    exists s'. split; [exact Hrun |]. split; [congruence |].
    cbn [last_position_of].
    destruct (last_position_of id rest) as [[x' y'] |]; [exact Hpos |].
    rewrite Hpos. unfold on_player_state.
    destruct (Z.eqb_spec i id) as [-> | Hother].
    + assert (Hnb : (id =? myPlayerId s) = false) by now apply Z.eqb_neq.
      rewrite Hnb. cbn [st_remote with_remote]. unfold remote_state_update.
      cbn [otherPlayers]. rewrite lookup_insert_eq. eexists. split; [reflexivity |].
      split; reflexivity.
    + destruct (i =? myPlayerId s); [reflexivity |].
      cbn [st_remote with_remote]. unfold remote_state_update. cbn [otherPlayers].
      rewrite lookup_insert_ne by exact Hother.
      destruct (otherPlayers (st_remote s) !! i); [reflexivity |].
      cbn [create_on_state otherPlayers]. now rewrite lookup_insert_ne.
Qed.

(** X8.  After a sequence of valid PlayerState messages of which at least
    one names another player, the sprite of that player is at the (x, y) of
    the last message that names it. *)
Theorem remote_position_is_last_received
    (s : state) (msgs : list (Z * Z * Z * bool)) (id x y : Z) :
  Forall fields_in_range msgs ->
  id <> myPlayerId s ->
  last_position_of id msgs = Some (x, y) ->
  exists s' sprite,
    receive_all s (map (fun f => encode (player_state_message f)) msgs) = Some s' /\
    otherPlayers (st_remote s') !! id = Some sprite /\
    sp_x sprite = x /\ sp_y sprite = y.
Proof.
  intros Hmsgs Hne Hlast.
  destruct (receive_remote_states msgs s id Hmsgs Hne) as (s' & Hrun & _ & Hpos).
  rewrite Hlast in Hpos. destruct Hpos as (sprite & Hsprite & Hxy).
  exists s', sprite. split; [exact Hrun |]. split; [exact Hsprite | exact Hxy].
Qed.

Lemma remote_position_is_last_received_witness :
  exists s' sprite,
    receive_all (with_id 1 initial_state)
      (map (fun f => encode (player_state_message f))
         [(7, Float32.lit_400, Float32.lit_300, true);
          (1, Float32.lit_5_0, Float32.lit_0_0, true);
          (7, Float32.lit_100, Float32.lit_50, false);
          (8, Float32.lit_0_0, Float32.lit_0_0, true)]) = Some s' /\
    otherPlayers (st_remote s') !! 7 = Some sprite /\
    sp_x sprite = Float32.lit_100 /\ sp_y sprite = Float32.lit_50.
Proof.
  apply (remote_position_is_last_received (with_id 1 initial_state)); [| discriminate | reflexivity].
  repeat (apply List.Forall_cons; [vm_compute; intuition discriminate |]).
  apply List.Forall_nil.
Defined.

(** ** A player that does not move *)

Lemma SFltb_irrefl (x : spec_float) : SFltb x x = false.
Proof.
  unfold SFltb, SFcompare.
  destruct x as [s | s | | s m e]; try (destruct s; reflexivity); try reflexivity.
  change IntDef.Z.compare with Z.compare.
  change PosDef.Pos.compare_cont with Pos.compare_cont.
  destruct s; rewrite Z.compare_refl, Pos.compare_cont_refl; reflexivity.
Qed.

Lemma SFsub_self_small (x : spec_float) :
  SFltb (Float32.of_bits Float32.lit_0_1) (SFabs (SFsub Float32.prec Float32.emax x x)) = false.
Proof.
  destruct x as [s | s | | s m e]; try (destruct s; reflexivity); try reflexivity.
  cbn [SFsub]. rewrite Z.sub_diag. reflexivity.
Qed.

(** X9.  A PlayerState that repeats the recorded x of a player on the
    ground puts it in Stand and keeps its facing, whatever the facing and
    the state were; its sprite moves to the (x, y) of the message. *)
Theorem still_player_stands (s : state) (id x y : Z) (sprite : Sprite) :
  is_u32 id -> is_u32 x -> is_u32 y ->
  id <> myPlayerId s ->
  otherPlayers (st_remote s) !! id = Some sprite ->
  sp_x sprite = x ->
  exists s',
    dispatch s (encode (PlayerState id x y true)) = Some s' /\
    otherPlayers (st_remote s') !! id = Some (setPosition x y sprite) /\
    otherPlayersAnimState (st_remote s') !! id = Some Stand /\
    otherPlayersFacingRight (st_remote s') !! id
      = otherPlayersFacingRight (st_remote s) !! id.
Proof.
  intros Hid Hx Hy Hne Hrec Hsame.
  assert (Hnb : (id =? myPlayerId s) = false) by now apply Z.eqb_neq.
  eexists. split; [now apply dispatch_player_state |].
  unfold on_player_state. rewrite Hnb. cbn [st_remote with_remote].
  unfold remote_state_update. rewrite Hrec. cbn [default from_option].
  rewrite Hrec. cbn [default from_option otherPlayers otherPlayersAnimState
                       otherPlayersFacingRight].
  change (Datatypes.id sprite) with sprite. rewrite Hsame.
  unfold Float32.gt, Float32.lt. rewrite !SFltb_irrefl.
  unfold remote_target, Float32.abs_gt, Float32.sub. rewrite SFsub_self_small.
  cbn [negb]. rewrite !lookup_insert_eq. repeat split; reflexivity.
Qed.

Lemma still_player_stands_witness :
  exists s',
    dispatch walking (encode (PlayerState 7 Float32.lit_5_0 Float32.lit_50 true)) = Some s' /\
    otherPlayersAnimState (st_remote walking) !! 7 = Some Walk /\
    otherPlayersAnimState (st_remote s') !! 7 = Some Stand.
Proof.
  destruct (still_player_stands walking 7 Float32.lit_5_0 Float32.lit_50
              (setPosition Float32.lit_5_0 Float32.lit_0_0 new_sprite))
    as (s' & Hrun & _ & Hstate & _); try (vm_compute; intuition discriminate).
  exists s'. split; [exact Hrun |]. split; [vm_compute; reflexivity | exact Hstate].
Defined.

(** X10.  A PlayerState for a player that has a record puts its frame index
    and frame timer back to zero exactly when its state changes; when the
    state stays, both keep their values. *)
Theorem remote_reset_on_change
    (s : state) (id x y : Z) (g : bool) (sprite : Sprite) (st : PlayerAnimState) :
  is_u32 id -> is_u32 x -> is_u32 y ->
  id <> myPlayerId s ->
  otherPlayers (st_remote s) !! id = Some sprite ->
  otherPlayersAnimState (st_remote s) !! id = Some st ->
  exists s',
    dispatch s (encode (PlayerState id x y g)) = Some s' /\
    otherPlayersAnimState (st_remote s') !! id = Some (remote_target g x (sp_x sprite)) /\
    (remote_target g x (sp_x sprite) = st ->
     otherPlayersCurrentFrame (st_remote s') !! id
       = otherPlayersCurrentFrame (st_remote s) !! id /\
     otherPlayersAnimTimer (st_remote s') !! id
       = otherPlayersAnimTimer (st_remote s) !! id) /\
    (remote_target g x (sp_x sprite) <> st ->
     otherPlayersCurrentFrame (st_remote s') !! id = Some 0 /\
     otherPlayersAnimTimer (st_remote s') !! id = Some 0).
Proof.
  intros Hid Hx Hy Hne Hrec Hst.
  assert (Hnb : (id =? myPlayerId s) = false) by now apply Z.eqb_neq.
  eexists. split; [now apply dispatch_player_state |].
  unfold on_player_state. rewrite Hnb. cbn [st_remote with_remote].
  unfold remote_state_update. rewrite Hrec. cbn [default from_option].
  rewrite Hrec, Hst. cbn [default from_option otherPlayersAnimState
                            otherPlayersCurrentFrame otherPlayersAnimTimer].
  change (Datatypes.id sprite) with sprite. change (Datatypes.id st) with st.
  rewrite lookup_insert_eq. split; [reflexivity |].
  split; intros Htarget.
  - rewrite bool_decide_eq_true_2 by congruence. split; reflexivity.
  - rewrite bool_decide_eq_false_2 by congruence. cbn [negb].
    rewrite !lookup_insert_eq. split; reflexivity.
Qed.

Lemma remote_reset_on_change_witness :
  exists s',
    dispatch walking (encode (PlayerState 7 Float32.lit_5_0 Float32.lit_50 false)) = Some s' /\
    otherPlayersAnimState (st_remote s') !! 7 = Some Jump.
Proof.
  destruct (remote_reset_on_change walking 7 Float32.lit_5_0 Float32.lit_50 false
              (setPosition Float32.lit_5_0 Float32.lit_0_0 new_sprite) Walk)
    as (s' & Hrun & Hstate & _); try (vm_compute; intuition discriminate).
  exists s'. split; [exact Hrun | exact Hstate].
Defined.

(** ** States, frame indexes and timers along a session *)

Lemma frameCount_positive (st : PlayerAnimState) : 0 < frameCount (animData st).
Proof. destruct st; cbn; lia. Qed.

Lemma remote_target_not_stance (g : bool) (x prev : Z) : remote_target g x prev <> Stance.
Proof.
  unfold remote_target. destruct (negb g); [discriminate |].
  destruct (Float32.abs_gt _ _); discriminate.
Qed.

Lemma local_target_not_stance (l : LocalPlayer) (input : PlayerInputState) :
  local_target l input <> Stance.
Proof.
  unfold local_target. destruct (negb _); [discriminate |].
  destruct (_ || _); discriminate.
Qed.

Lemma frame_zero_in_range (st : PlayerAnimState) : frame_in_range st 0.
Proof. unfold frame_in_range. pose proof (frameCount_positive st). lia. Qed.

Lemma advance_frame_in_range (st : PlayerAnimState) (f t : Z) :
  frame_in_range st f -> frame_in_range st (advance_frame (animData st) f t).1.
Proof.
  unfold advance_frame, frame_in_range. intros Hf.
  pose proof (frameCount_positive st) as Hpos.
  destruct (_ <=? _); cbn [fst]; [| exact Hf].
  apply Z.rem_bound_pos; lia.
Qed.

Lemma advance_frame_timer (d : AnimationData) (f t : Z) :
  0 <= t -> 0 <= (advance_frame d f t).2.
Proof.
  unfold advance_frame. intros Ht.
  destruct (Z.leb_spec (seconds (timePerFrame d)) t); cbn [snd]; lia.
Qed.

(** *** The local player *)

Lemma local_frames_ok_same (l l' : LocalPlayer) :
  local_animation l' = local_animation l -> local_frames_ok l -> local_frames_ok l'.
Proof.
  unfold local_animation, local_frames_ok. intros [= H1 H2 _ _ _]. now rewrite H1, H2.
Qed.

Lemma local_frames_ok_transition (input : PlayerInputState) (l : LocalPlayer) :
  local_frames_ok l -> local_frames_ok (local_transition input l).
Proof.
  intros Hl. unfold local_transition. destruct (local_changes l input); [| exact Hl].
  split; cbn; [apply local_target_not_stance | apply frame_zero_in_range].
Qed.

Lemma local_advance_fields (l : LocalPlayer) :
  currentAnimState (local_advance l) = currentAnimState l /\
  currentFrame (local_advance l)
    = (advance_frame (animData (currentAnimState l)) (currentFrame l) (animTimer l)).1 /\
  animTimer (local_advance l)
    = (advance_frame (animData (currentAnimState l)) (currentFrame l) (animTimer l)).2 /\
  stateChangeCooldownTimer (local_advance l) = stateChangeCooldownTimer l /\
  facingRight (local_advance l) = facingRight l /\
  sp_scale (playerSprite (local_advance l))
    = (if facingRight l then Float32.lit_1_0 else Float32.lit_neg_1_0).
Proof.
  unfold local_advance.
  destruct (advance_frame _ _ _) as [frame timer]. cbn. repeat split; reflexivity.
Qed.

Lemma local_frames_ok_advance (l : LocalPlayer) :
  local_frames_ok l -> local_frames_ok (end_of_frame (local_advance l)).
Proof.
  intros [Hst Hf]. destruct (local_advance_fields l) as (E1 & E2 & _).
  split; cbn [end_of_frame currentAnimState currentFrame].
  - now rewrite E1.
  - rewrite E1, E2. now apply advance_frame_in_range.
Qed.

(** *** The other players *)

Lemma remote_frames_ok_create_on_state (id : Z) (r : Remote) :
  remote_frames_ok r -> remote_frames_ok (create_on_state id r).
Proof.
  intros Hr id0 st0. cbn. destruct (decide (id0 = id)) as [-> | Hne].
  - rewrite !lookup_insert_eq. intros [= <-]. split; [discriminate |].
    exists 0. split; [reflexivity | apply frame_zero_in_range].
  - rewrite !lookup_insert_ne by congruence. apply Hr.
Qed.

Lemma remote_frames_ok_state_update (id x y : Z) (g : bool) (r : Remote) :
  keys_agree r -> remote_frames_ok r ->
  remote_frames_ok (remote_state_update id x y g r).
Proof.
  intros Hk Hr. unfold remote_state_update.
  set (r1 := match otherPlayers r !! id with
             | None => create_on_state id r
             | Some _ => r
             end).
  assert (Hr1 : remote_frames_ok r1).
  { subst r1. destruct (otherPlayers r !! id); [exact Hr |].
    now apply remote_frames_ok_create_on_state. }
  assert (Hst1 : is_Some (otherPlayersAnimState r1 !! id)).
  { subst r1. destruct (otherPlayers r !! id) eqn:E.
    - destruct Hk as (H1 & _). apply elem_of_dom. rewrite H1. apply elem_of_dom. eauto.
    - cbn. rewrite lookup_insert_eq. eauto. }
  clearbody r1. destruct Hst1 as [current Hcurrent].
  intros id0 st0. cbn [otherPlayersAnimState otherPlayersCurrentFrame].
  rewrite Hcurrent. cbn [default from_option]. change (Datatypes.id current) with current.
  destruct (decide (id0 = id)) as [-> | Hne].
  - rewrite lookup_insert_eq. intros [= <-]. split; [apply remote_target_not_stance |].
    case_bool_decide as Hsame; cbn [negb].
    + destruct (Hr1 id current Hcurrent) as (_ & frame & Hframe & Hrange).
      exists frame. split; [exact Hframe | now rewrite <- Hsame].
    + rewrite lookup_insert_eq. exists 0. split; [reflexivity | apply frame_zero_in_range].
  - rewrite lookup_insert_ne by congruence. intros Hst0.
    destruct (Hr1 id0 st0 Hst0) as (Hns & frame & Hframe & Hrange).
    split; [exact Hns |]. exists frame. split; [| exact Hrange].
    destruct (negb _); [now rewrite lookup_insert_ne by congruence | exact Hframe].
Qed.

Lemma remote_frames_ok_create_on_join (id x y : Z) (g : bool) (r : Remote) :
  remote_frames_ok r -> remote_frames_ok (create_on_join id x y g r).
Proof.
  intros Hr id0 st0. cbn. destruct (decide (id0 = id)) as [-> | Hne].
  - rewrite !lookup_insert_eq. intros [= <-]. split; [now destruct g |].
    exists 0. split; [reflexivity | apply frame_zero_in_range].
  - rewrite !lookup_insert_ne by congruence. apply Hr.
Qed.

Lemma remote_frames_ok_erase (id : Z) (r : Remote) :
  remote_frames_ok r -> remote_frames_ok (erase_player id r).
Proof.
  intros Hr id0 st0. unfold erase_player.
  destruct (otherPlayers r !! id); cbn; [| apply Hr].
  intros Hst0. apply lookup_delete_Some in Hst0 as [Hne Hst0].
  rewrite lookup_delete_ne by exact Hne. now apply Hr.
Qed.

Lemma frames_ok_dispatch (s s' : state) (packet : Packet.t) :
  frames_ok s -> dispatch s packet = Some s' -> frames_ok s'.
Proof.
  intros (Hl & Hk & Hr) Hrun.
  split; [| split].
  - apply (local_frames_ok_same (st_local s)); [| exact Hl].
    now apply (local_animation_dispatch s s' packet).
  - now apply (keys_agree_dispatch s s' packet).
  - revert Hrun. apply (dispatch_cases (fun _ t => remote_frames_ok (st_remote t)));
      try assumption.
    + intros id _. exact Hr.
    + intros id x y g _. unfold on_player_state.
      destruct (id =? myPlayerId s); [exact Hr |].
      now apply remote_frames_ok_state_update.
    + intros id x y g _. unfold on_player_joined.
      destruct (_ && _); [| exact Hr]. now apply remote_frames_ok_create_on_join.
    + intros id _. unfold on_player_left.
      destruct (negb _); [| exact Hr]. now apply remote_frames_ok_erase.
    + intros p m _. exact Hr.
Qed.

Lemma frames_ok_receive_all (packets : list Packet.t) (s s' : state) :
  frames_ok s -> receive_all s packets = Some s' -> frames_ok s'.
Proof.
  revert s. induction packets as [| packet rest IH]; intros s Hs; cbn [receive_all].
  - now intros [= <-].
  - destruct (dispatch s packet) as [s1 |] eqn:E; [| discriminate].
    apply IH. now apply (frames_ok_dispatch s s1 packet).
Qed.

Lemma frames_ok_network (i : FrameInput) (s s' : state) :
  frames_ok s -> network i s = Some s' -> frames_ok s'.
Proof.
  unfold network. intros Hs.
  set (s1 := if connected s then s else with_connection (fi_connect_ok i) (windowOpen s) s).
  assert (H1 : frames_ok s1) by (subst s1; now destruct (connected s)).
  destruct (connected s1); [| now intros [= <-]].
  destruct (receive_all s1 (fi_inbound i)) as [s2 |] eqn:E; [| discriminate].
  intros [= <-]. apply frames_ok_receive_all in E; [| exact H1].
  now destruct (fi_remote_alive i).
Qed.

Lemma frames_ok_before_network (i : FrameInput) (s : state) :
  frames_ok s -> frames_ok (before_network i s).
Proof.
  intros (Hl & Hk & Hr). split; [| split].
  - destruct (local_animation_before_network i s) as (Bst & Bf & _).
    unfold local_frames_ok. now rewrite Bst, Bf.
  - now apply keys_agree_before_network.
  - unfold before_network. now destruct (fi_close i).
Qed.

Lemma frames_ok_frame (i : FrameInput) (s s' : state) :
  frames_ok s -> frame i s = Some s' -> frames_ok s'.
Proof.
  intros Hs. unfold frame.
  destruct (network i (before_network i s)) as [n |] eqn:Hn; [| discriminate].
  apply frames_ok_network in Hn; [| now apply frames_ok_before_network].
  destruct Hn as (Hl & Hk & Hr).
  destruct (remote_advance_result (st_remote n) Hk)
    as (r' & Hrun & Hk' & _ & Hst' & _ & Hadv).
  rewrite Hrun. intros [= <-]. split; [| split; [exact Hk' |]].
  - cbn [st_local with_remote with_local].
    now apply local_frames_ok_advance, local_frames_ok_transition.
  - cbn [st_remote with_remote]. intros id st Hst. rewrite Hst' in Hst.
    destruct (Hr id st Hst) as (Hns & f & Hf & Hrange).
    split; [exact Hns |].
    assert (Ht : is_Some (otherPlayersAnimTimer (st_remote n) !! id)).
    { destruct Hk as (K1 & _ & K3 & _). apply elem_of_dom. rewrite K3, <- K1.
      apply elem_of_dom. eauto. }
    destruct Ht as [t Ht]. destruct (Hadv id st f t Hst Hf Ht) as [Hf' _].
    eexists. split; [exact Hf' | now apply advance_frame_in_range].
Qed.

Lemma frames_ok_initial : frames_ok initial_state.
Proof.
  split; [| split; [exact keys_agree_initial |]].
  - split; [discriminate | apply frame_zero_in_range].
  - intros id st Hst. cbn in Hst. now rewrite lookup_empty in Hst.
Qed.

Lemma frames_ok_frames (inputs : list FrameInput) (s s' : state) :
  frames_ok s -> frames inputs s = Some s' -> frames_ok s'.
Proof.
  revert s. induction inputs as [| i rest IH]; intros s Hs; cbn [frames].
  - now intros [= <-].
  - destruct (windowOpen s); [| now intros [= <-]].
    destruct (frame i s) as [s1 |] eqn:E; [| discriminate].
    apply IH. now apply (frames_ok_frame i s s1).
Qed.

(** *** The timers *)

Lemma remote_timers_state_update (id x y : Z) (g : bool) (r : Remote) :
  map_Forall (fun _ t => 0 <= t) (otherPlayersAnimTimer r) ->
  map_Forall (fun _ t => 0 <= t) (otherPlayersAnimTimer (remote_state_update id x y g r)).
Proof.
  intros Hr. unfold remote_state_update. cbn [otherPlayersAnimTimer].
  assert (H1 : map_Forall (fun _ t => 0 <= t)
                 (otherPlayersAnimTimer
                    match otherPlayers r !! id with
                    | Some _ => r
                    | None => create_on_state id r
                    end)).
  { destruct (otherPlayers r !! id); [exact Hr |].
    cbn. apply map_Forall_insert_2; [lia | exact Hr]. }
  destruct (negb _); [| exact H1].
  apply map_Forall_insert_2; [lia | exact H1].
Qed.

Lemma remote_timers_erase (id : Z) (r : Remote) :
  map_Forall (fun _ t => 0 <= t) (otherPlayersAnimTimer r) ->
  map_Forall (fun _ t => 0 <= t) (otherPlayersAnimTimer (erase_player id r)).
Proof.
  intros Hr. unfold erase_player.
  destruct (otherPlayers r !! id); cbn; [now apply map_Forall_delete | exact Hr].
Qed.

Lemma timers_ok_dispatch (s s' : state) (packet : Packet.t) :
  timers_ok s -> dispatch s packet = Some s' -> timers_ok s'.
Proof.
  intros (Ht & Hc & Hr) Hrun.
  destruct (local_animation_fields _ _ (local_animation_dispatch s s' packet Hrun))
    as (_ & _ & Et & Ec).
  split; [now rewrite Et |]. split; [now rewrite Ec |].
  revert Hrun.
  apply (dispatch_cases
           (fun _ t => map_Forall (fun _ t => 0 <= t) (otherPlayersAnimTimer (st_remote t))));
    try assumption.
  - intros id _. exact Hr.
  - intros id x y g _. unfold on_player_state.
    destruct (id =? myPlayerId s); [exact Hr |].
    now apply remote_timers_state_update.
  - intros id x y g _. unfold on_player_joined.
    destruct (_ && _); [| exact Hr]. cbn. apply map_Forall_insert_2; [lia | exact Hr].
  - intros id _. unfold on_player_left.
    destruct (negb _); [| exact Hr]. now apply remote_timers_erase.
  - intros p m _. exact Hr.
Qed.

Lemma timers_ok_receive_all (packets : list Packet.t) (s s' : state) :
  timers_ok s -> receive_all s packets = Some s' -> timers_ok s'.
Proof.
  revert s. induction packets as [| packet rest IH]; intros s Hs; cbn [receive_all].
  - now intros [= <-].
  - destruct (dispatch s packet) as [s1 |] eqn:E; [| discriminate].
    apply IH. now apply (timers_ok_dispatch s s1 packet).
Qed.

Lemma timers_ok_network (i : FrameInput) (s s' : state) :
  timers_ok s -> network i s = Some s' -> timers_ok s'.
Proof.
  unfold network. intros Hs.
  set (s1 := if connected s then s else with_connection (fi_connect_ok i) (windowOpen s) s).
  assert (H1 : timers_ok s1) by (subst s1; now destruct (connected s)).
  destruct (connected s1); [| now intros [= <-]].
  destruct (receive_all s1 (fi_inbound i)) as [s2 |] eqn:E; [| discriminate].
  intros [= <-]. apply timers_ok_receive_all in E; [| exact H1].
  now destruct (fi_remote_alive i).
Qed.

Lemma timers_ok_before_network (i : FrameInput) (s : state) :
  0 <= fi_dt i -> timers_ok s -> timers_ok (before_network i s).
Proof.
  intros Hdt (Ht & Hc & Hr).
  destruct (local_animation_before_network i s) as (_ & _ & Bt & Bc & _).
  split; [rewrite Bt; lia |]. split.
  - rewrite Bc. destruct (0 <? _); lia.
  - assert (Hrem : st_remote (before_network i s) = tick_remote (fi_dt i) (st_remote s))
      by (unfold before_network; now destruct (fi_close i)).
    rewrite Hrem. cbn [tick_remote otherPlayersAnimTimer].
    intros id t Hlook. apply lookup_fmap_Some in Hlook as (t0 & <- & Hlook).
    apply Hr in Hlook. lia.
Qed.

Lemma timers_ok_frame (i : FrameInput) (s s' : state) :
  0 <= fi_dt i -> keys_agree (st_remote s) -> timers_ok s ->
  frame i s = Some s' -> timers_ok s'.
Proof.
  intros Hdt Hk Hs. unfold frame.
  destruct (network i (before_network i s)) as [n |] eqn:Hn; [| discriminate].
  assert (Hkn : keys_agree (st_remote n)).
  { eapply keys_agree_network; [| exact Hn]. now apply keys_agree_before_network. }
  apply timers_ok_network in Hn; [| now apply timers_ok_before_network].
  destruct Hn as (Ht & Hc & Hr).
  destruct (remote_advance_result (st_remote n) Hkn)
    as (r' & Hrun & Hk' & Hdom' & Hst' & _ & Hadv).
  rewrite Hrun. intros [= <-]. unfold timers_ok.
  cbn [st_local st_remote with_remote with_local end_of_frame animTimer
         stateChangeCooldownTimer].
  destruct (local_advance_fields (local_transition (sample_input i) (st_local n)))
    as (_ & _ & Et & Ec & _).
  rewrite Et, Ec. split; [| split].
  - apply advance_frame_timer. unfold local_transition.
    destruct (local_changes _ _); [cbn; lia | exact Ht].
  - unfold local_transition. destruct (local_changes _ _); [cbn; lia | exact Hc].
  - intros id t' Ht'.
    assert (Hin : id ∈ dom (otherPlayers (st_remote n))).
    { rewrite <- Hdom'. destruct Hk' as (_ & _ & K3 & _). rewrite <- K3.
      apply elem_of_dom. eauto. }
    destruct Hkn as (K1 & K2 & K3 & _).
    assert (Hst : is_Some (otherPlayersAnimState (st_remote n) !! id))
      by (apply elem_of_dom; now rewrite K1).
    assert (Hf : is_Some (otherPlayersCurrentFrame (st_remote n) !! id))
      by (apply elem_of_dom; now rewrite K2).
    assert (Ht0 : is_Some (otherPlayersAnimTimer (st_remote n) !! id))
      by (apply elem_of_dom; now rewrite K3).
    destruct Hst as [st Hst], Hf as [f Hf], Ht0 as [t Ht0].
    destruct (Hadv id st f t Hst Hf Ht0) as [_ Hnew].
    rewrite Hnew in Ht'. apply (inj Some) in Ht'. rewrite <- Ht'.
    apply advance_frame_timer. exact (Hr id t Ht0).
Qed.

Lemma timers_ok_initial : timers_ok initial_state.
Proof.
  split; [cbn; lia |]. split; [rewrite seconds_cooldown; cbn; lia |].
  intros id t Hlook. cbn in Hlook. now rewrite lookup_empty in Hlook.
Qed.

Lemma timers_ok_frames (inputs : list FrameInput) (s s' : state) :
  forward inputs -> keys_agree (st_remote s) -> timers_ok s ->
  frames inputs s = Some s' -> timers_ok s'.
Proof.
  intros Hfw. revert s. induction Hfw as [| i rest Hdt _ IH]; intros s Hk Hs; cbn [frames].
  - now intros [= <-].
  - destruct (windowOpen s); [| now intros [= <-]].
    destruct (frame i s) as [s1 |] eqn:E; [| discriminate].
    apply IH; [now apply (keys_agree_frame i s s1) | now apply (timers_ok_frame i s s1)].
Qed.

(** X11.  In every state a session reaches, the frame index of the local
    player and of every other player is a frame of the animation of its
    state: at least 0 and below the frame count. *)
Theorem frame_index_in_range (inputs : list FrameInput) (s : state) :
  frames inputs initial_state = Some s ->
  frame_in_range (currentAnimState (st_local s)) (currentFrame (st_local s)) /\
  forall id st frame,
    otherPlayersAnimState (st_remote s) !! id = Some st ->
    otherPlayersCurrentFrame (st_remote s) !! id = Some frame ->
    frame_in_range st frame.
Proof.
  intros Hrun.
  destruct (frames_ok_frames inputs initial_state s frames_ok_initial Hrun)
    as ((_ & Hl) & _ & Hr).
  split; [exact Hl |]. intros id st frame Hst Hframe.
  destruct (Hr id st Hst) as (_ & f & Hf & Hrange). congruence.
Qed.

Lemma frame_index_in_range_witness :
  exists s,
    frames [opening; quiet 350000; takeoff] initial_state = Some s /\
    frame_in_range (currentAnimState (st_local s)) (currentFrame (st_local s)).
Proof.
  eexists. split; [vm_compute; reflexivity |].
  refine (proj1 (frame_index_in_range [opening; quiet 350000; takeoff] _ _)).
  vm_compute. reflexivity.
Defined.

(** X12.  No state a session reaches has a player in Stance, the local
    player or another. *)
Theorem stance_never_selected (inputs : list FrameInput) (s : state) :
  frames inputs initial_state = Some s ->
  currentAnimState (st_local s) <> Stance /\
  forall id, otherPlayersAnimState (st_remote s) !! id <> Some Stance.
Proof.
  intros Hrun.
  destruct (frames_ok_frames inputs initial_state s frames_ok_initial Hrun)
    as ((Hl & _) & _ & Hr).
  split; [exact Hl |]. intros id Hst. now destruct (Hr id Stance Hst).
Qed.

Lemma stance_never_selected_witness :
  exists s,
    frames [opening; quiet 350000; takeoff] initial_state = Some s /\
    currentAnimState (st_local s) <> Stance.
Proof.
  eexists. split; [vm_compute; reflexivity |].
  refine (proj1 (stance_never_selected [opening; quiet 350000; takeoff] _ _)).
  vm_compute. reflexivity.
Defined.

(** X13.  When no iteration of a session has a negative elapsed time, in
    every state the session reaches the frame timers of all players are not
    negative and the cooldown of the local player is at most 100000
    microseconds. *)
Theorem timers_stay_in_bounds (inputs : list FrameInput) (s : state) :
  forward inputs ->
  frames inputs initial_state = Some s ->
  0 <= animTimer (st_local s) /\
  stateChangeCooldownTimer (st_local s) <= 100000 /\
  forall id timer, otherPlayersAnimTimer (st_remote s) !! id = Some timer -> 0 <= timer.
Proof.
  intros Hfw Hrun.
  destruct (timers_ok_frames inputs initial_state s Hfw keys_agree_initial
              timers_ok_initial Hrun) as (Ht & Hc & Hr).
  rewrite seconds_cooldown in Hc. split; [exact Ht |]. split; [exact Hc | exact Hr].
Qed.

Lemma timers_stay_in_bounds_witness :
  exists s,
    frames [opening; quiet 350000; takeoff] initial_state = Some s /\
    0 <= animTimer (st_local s) /\
    stateChangeCooldownTimer (st_local s) <= 100000.
Proof.
  eexists. split; [vm_compute; reflexivity |].
  refine (match timers_stay_in_bounds [opening; quiet 350000; takeoff] _ _ _ with
          | conj Ht (conj Hc _) => conj Ht Hc
          end).
  - repeat (apply List.Forall_cons; [vm_compute; discriminate |]). apply List.Forall_nil.
  - vm_compute. reflexivity.
Defined.

(** ** The transition of the local player *)

(** An iteration that completes, taken apart. *)
Lemma frame_parts (i : FrameInput) (s s' : state) :
  frame i s = Some s' ->
  exists n r,
    network i (before_network i s) = Some n /\
    remote_advance (st_remote n) = Some r /\
    s' = with_remote r
           (with_local
              (end_of_frame (local_advance (local_transition (sample_input i) (st_local n))))
              n).
Proof.
  unfold frame.
  destruct (network i (before_network i s)) as [n |]; [| discriminate].
  destruct (remote_advance (st_remote n)) as [r |] eqn:Er; [| discriminate].
  intros [= <-]. exists n, r. split; [reflexivity |]. split; [exact Er | reflexivity].
Qed.

Lemma local_transition_ground (input : PlayerInputState) (l : LocalPlayer) :
  myIsOnGround (local_transition input l) = myIsOnGround l.
Proof. unfold local_transition. now destruct (local_changes l input). Qed.

Lemma local_advance_ground (l : LocalPlayer) :
  myIsOnGround (end_of_frame (local_advance l)) = myIsOnGround l.
Proof. unfold local_advance. now destruct (advance_frame _ _ _). Qed.

(** X14.  While the cooldown of the local player is still running after the
    elapsed time has been taken off it, an iteration does not change the
    state of the local player, whatever the keys and the ground flag; the
    cooldown goes down by the elapsed time, and the frame index and frame
    timer are not put back to zero but advanced as usual. *)
Theorem running_cooldown_holds_state (i : FrameInput) (s s' : state) :
  0 < stateChangeCooldownTimer (st_local s) ->
  fi_dt i < stateChangeCooldownTimer (st_local s) ->
  frame i s = Some s' ->
  currentAnimState (st_local s') = currentAnimState (st_local s) /\
  stateChangeCooldownTimer (st_local s') = stateChangeCooldownTimer (st_local s) - fi_dt i /\
  (currentFrame (st_local s'), animTimer (st_local s'))
    = advance_frame (animData (currentAnimState (st_local s)))
        (currentFrame (st_local s)) (animTimer (st_local s) + fi_dt i).
Proof.
  intros Hpos Hdt Hrun.
  destruct (frame_parts i s s' Hrun) as (n & r & Hn & _ & ->).
  destruct (local_animation_fields _ _ (local_animation_network _ _ _ Hn))
    as (Hst & Hf & Ht & Hc).
  destruct (local_animation_before_network i s) as (Bst & Bf & Bt & Bc & _).
  rewrite Bst in Hst. rewrite Bf in Hf. rewrite Bt in Ht. rewrite Bc in Hc.
  destruct (Z.ltb_spec 0 (stateChangeCooldownTimer (st_local s))) as [_ |]; [| lia].
  assert (Hkeep : local_transition (sample_input i) (st_local n) = st_local n).
  { unfold local_transition, local_changes.
    destruct (Z.leb_spec (stateChangeCooldownTimer (st_local n)) 0) as [Hle |]; [lia |].
    now rewrite andb_false_r. }
  cbn [st_local with_remote with_local]. rewrite Hkeep.
  destruct (local_advance_fields (st_local n)) as (E1 & E2 & E3 & E4 & _).
  cbn [end_of_frame currentAnimState currentFrame animTimer stateChangeCooldownTimer].
  rewrite E1, E2, E3, E4, Hst, Hf, Ht, Hc.
  split; [reflexivity |]. split; [reflexivity |].
  symmetry. apply surjective_pairing.
Qed.

Lemma running_cooldown_holds_state_witness :
  exists s',
    frame airborne walking = Some s' /\
    myIsOnGround (st_local walking) = true /\
    currentAnimState (st_local s') = Walk /\
    stateChangeCooldownTimer (st_local s') = 84000.
Proof.
  eexists. split; [vm_compute; reflexivity |]. split; [reflexivity |].
  refine (match running_cooldown_holds_state airborne walking _ _ _ _ with
          | conj Hst (conj Hc _) => conj Hst Hc
          end).
  - vm_compute. reflexivity.
  - vm_compute. reflexivity.
  - vm_compute. reflexivity.
Defined.

(** X15.  An iteration entered with the cooldown expired leaves the local
    player in the state the policy selects for the ground flag it has after
    the receive loop and the keys of the iteration: Jump when not on the
    ground, else Walk when left or right is held, else Stand. *)
Theorem expired_cooldown_follows_policy (i : FrameInput) (s s' : state) :
  stateChangeCooldownTimer (st_local s) <= 0 ->
  frame i s = Some s' ->
  currentAnimState (st_local s') =
    (if negb (myIsOnGround (st_local s')) then Jump
     else if left (sample_input i) || right (sample_input i) then Walk
     else Stand).
Proof.
  intros Hcool Hrun.
  destruct (frame_parts i s s' Hrun) as (n & r & Hn & _ & ->).
  destruct (local_animation_fields _ _ (local_animation_network _ _ _ Hn))
    as (_ & _ & _ & Hc).
  destruct (local_animation_before_network i s) as (_ & _ & _ & Bc & _).
  rewrite Bc in Hc.
  assert (Hexp : stateChangeCooldownTimer (st_local n) <= 0).
  { rewrite Hc. destruct (Z.ltb_spec 0 (stateChangeCooldownTimer (st_local s))); lia. }
  cbn [st_local with_remote with_local].
  rewrite local_advance_ground, local_transition_ground.
  destruct (local_advance_fields (local_transition (sample_input i) (st_local n)))
    as (E1 & _).
  cbn [end_of_frame currentAnimState]. rewrite E1.
  fold (local_target (st_local n) (sample_input i)).
  unfold local_transition, local_changes.
  destruct (Z.leb_spec (stateChangeCooldownTimer (st_local n)) 0) as [_ |]; [| lia].
  rewrite andb_true_r. case_bool_decide as Hsame; cbn [negb]; [exact Hsame | reflexivity].
Qed.

Lemma expired_cooldown_follows_policy_witness :
  exists s',
    frame takeoff initial_state = Some s' /\ currentAnimState (st_local s') = Jump.
Proof.
  eexists. split; [vm_compute; reflexivity |].
  refine (expired_cooldown_follows_policy takeoff initial_state _ _ _).
  - cbn. lia.
  - vm_compute. reflexivity.
Defined.

(** ** Completion and end of a session *)

Lemma dispatch_defined (s : state) (packet : Packet.t) :
  not_map_data packet = true -> is_Some (dispatch s packet).
Proof.
  destruct packet as [| type fields]; [cbn; eauto |].
  unfold not_map_data, dispatch. cbn [Wire.read_type Packet.read_u8]. intros Hno.
  destruct (type =? tag_Welcome).
  { destruct (Packet.read_u32 fields) as [[? ?] |]; eauto. }
  destruct (type =? tag_PlayerState).
  { destruct (Wire.read_player fields) as [[[[[? ?] ?] ?] ?] |]; eauto. }
  destruct (type =? tag_PlayerJoined).
  { destruct (Wire.read_player fields) as [[[[[? ?] ?] ?] ?] |]; eauto. }
  destruct (type =? tag_PlayerLeft).
  { destruct (Packet.read_u32 fields) as [[? ?] |]; eauto. }
  destruct (type =? tag_MapData); [discriminate | eauto].
Qed.

Lemma receive_all_defined (packets : list Packet.t) (s : state) :
  forallb not_map_data packets = true -> is_Some (receive_all s packets).
Proof.
  revert s. induction packets as [| packet rest IH]; intros s Hno; [cbn; eauto |].
  cbn [forallb] in Hno. apply andb_true_iff in Hno as [Hp Hrest].
  cbn [receive_all]. destruct (dispatch_defined s packet Hp) as [s1 ->]. now apply IH.
Qed.

Lemma network_defined (i : FrameInput) (s : state) :
  forallb not_map_data (fi_inbound i) = true -> is_Some (network i s).
Proof.
  intros Hno. unfold network.
  destruct (connected (if connected s then s else _)); [| eauto].
  destruct (receive_all_defined (fi_inbound i)
              (if connected s then s
               else with_connection (fi_connect_ok i) (windowOpen s) s) Hno) as [s2 ->].
  eauto.
Qed.

(** X16.  From a state in which the five maps have the same keys (the
    initial state is one), a session in which no packet carries the MapData
    type runs to its end: no iteration throws in the loop over the other
    players, whatever the packets hold. *)
Theorem session_without_map_completes (inputs : list FrameInput) (s : state) :
  keys_agree (st_remote s) ->
  Forall (fun i => forallb not_map_data (fi_inbound i) = true) inputs ->
  is_Some (frames inputs s).
Proof.
  intros Hk Hno. revert s Hk.
  induction Hno as [| i rest Hi _ IH]; intros s Hk; cbn [frames]; [eauto |].
  destruct (windowOpen s); [| eauto].
  destruct (network_defined i (before_network i s) Hi) as [n Hn].
  destruct (frame_result i s n Hk Hn) as (r' & _ & _ & Hframe).
  rewrite Hframe. apply IH.
  exact (keys_agree_frame i s _ Hk Hframe).
Qed.

Lemma session_without_map_completes_witness :
  is_Some (frames [opening; quiet 350000; takeoff; airborne] initial_state).
Proof.
  apply (session_without_map_completes _ initial_state keys_agree_initial).
  repeat (apply List.Forall_cons; [vm_compute; reflexivity |]). apply List.Forall_nil.
Defined.


(** X17.  An iteration that polls a close event, or whose connection (the
    one it has or the one it makes) has lost its remote address, leaves the
    window closed, and the loop runs no further iteration. *)
Theorem closing_iteration_ends_session
    (i : FrameInput) (s s' : state) (rest : list FrameInput) :
  closes i s = true ->
  frame i s = Some s' ->
  windowOpen s' = false /\ frames rest s' = Some s'.
Proof.
  intros Hcl Hrun.
  assert (Hw : windowOpen s' = false).
  { destruct (frame_parts i s s' Hrun) as (n & r & Hn & _ & ->).
    cbn [windowOpen with_remote with_local].
    revert Hn. unfold network.
    assert (Bc : connected (before_network i s) = connected s)
      by (unfold before_network; now destruct (fi_close i)).
    assert (Bw : windowOpen (before_network i s)
                 = (if fi_close i then false else windowOpen s))
      by (unfold before_network; now destruct (fi_close i)).
    set (b := before_network i s) in *.
    set (s1 := if connected b then b else with_connection (fi_connect_ok i) (windowOpen b) b).
    assert (Hw1 : windowOpen s1 = windowOpen b) by (subst s1; now destruct (connected b)).
    assert (Hc1 : connected s1 = connected s || fi_connect_ok i).
    { subst s1. rewrite <- Bc. destruct (connected b) eqn:E; [now rewrite E | reflexivity]. }
    unfold closes in Hcl.
    destruct (connected s1) eqn:Ec.
    - destruct (receive_all s1 (fi_inbound i)) as [s2 |] eqn:E; [| discriminate].
      apply connection_receive_all in E as [_ Hw2].
      intros [= <-]. destruct (fi_remote_alive i); [| reflexivity].
      rewrite Hw2, Hw1, Bw. rewrite <- Hc1 in Hcl.
      destruct (fi_close i); [reflexivity | cbn in Hcl; discriminate].
    - intros [= <-]. rewrite Hw1, Bw. rewrite <- Hc1 in Hcl.
      destruct (fi_close i); [reflexivity | cbn in Hcl; discriminate]. }
  split; [exact Hw |]. destruct rest as [| i' rest]; cbn [frames]; [reflexivity |].
  now rewrite Hw.
Qed.

Lemma closing_iteration_ends_session_witness :
  exists s',
    frame lost_connection initial_state = Some s' /\
    windowOpen s' = false /\
    frames [opening; takeoff] s' = Some s'.
Proof.
  eexists. split; [vm_compute; reflexivity |].
  refine (closing_iteration_ends_session lost_connection initial_state _ _ _ _).
  - reflexivity.
  - vm_compute. reflexivity.
Defined.

(** ** The grid of the map *)

Lemma set_tile_shape (y x v : Z) (grid grid' : list (list Z)) :
  set_tile y x v grid = Some grid' -> length <$> grid' = length <$> grid.
Proof.
  unfold set_tile.
  destruct (grid !! Z.to_nat y) as [row |] eqn:Hrow; [| discriminate].
  destruct (x <? Z.of_nat (length row)); [| discriminate].
  intros [= <-]. rewrite list_fmap_insert, length_insert.
  apply list_insert_id. now rewrite list_lookup_fmap, Hrow.
Qed.

Lemma parse_cells_shape (cs : list (Z * Z)) (st st' : MapParse) :
  parse_cells cs st = Some st' -> length <$> mp_grid st' = length <$> mp_grid st.
Proof.
  revert st. induction cs as [| [y x] cs IH]; intros st; cbn [parse_cells].
  - now intros [= <-].
  - unfold parse_tile.
    destruct (Packet.read_i32 (mp_packet st)) as [[v p] |].
    + destruct (set_tile y x v (mp_grid st)) as [grid |] eqn:Hset; [| discriminate].
      cbn [parseOk]. apply set_tile_shape in Hset.
      destruct (parseOk st).
      * intros Hrun. apply IH in Hrun. cbn [mp_grid] in Hrun. congruence.
      * intros [= <-]. exact Hset.
    + cbn [parseOk]. now intros [= <-].
Qed.

Lemma cell_in_shape (grid grid' : list (list Z)) (c : Z * Z) :
  length <$> grid = length <$> grid' -> cell_in grid c -> cell_in grid' c.
Proof.
  intros Hshape (H1 & H2 & row & Hrow & Hlen).
  split; [exact H1 |]. split; [exact H2 |].
  assert (Hl : (length <$> grid') !! Z.to_nat c.1 = Some (length row))
    by now rewrite <- Hshape, list_lookup_fmap, Hrow.
  rewrite list_lookup_fmap in Hl.
  destruct (grid' !! Z.to_nat c.1) as [row' |]; [| discriminate].
  exists row'. split; [reflexivity |]. cbn in Hl. injection Hl as Hl. lia.
Qed.

Lemma set_tile_outside (y x v : Z) (grid : list (list Z)) :
  0 <= y -> 0 <= x -> ~ cell_in grid (y, x) -> set_tile y x v grid = None.
Proof.
  intros Hy Hx Hout. unfold set_tile.
  destruct (grid !! Z.to_nat y) as [row |] eqn:Hrow; [| reflexivity].
  destruct (Z.ltb_spec x (Z.of_nat (length row))) as [Hlt |]; [| reflexivity].
  exfalso. apply Hout. unfold cell_in. cbn [fst snd].
  split; [exact Hy |]. split; [exact Hx |]. exists row. split; [exact Hrow | exact Hlt].
Qed.

(** The loops stop at the first cell that the grid does not have, when the
    packet still holds a tile code for it. *)
Lemma parse_cells_outside (cs : list (Z * Z)) (st : MapParse) (k : nat) (c : Z * Z) :
  parseOk st = true ->
  Forall (fun c => 0 <= c.1 /\ 0 <= c.2) cs ->
  cs !! k = Some c ->
  ~ cell_in (mp_grid st) c ->
  (4 * (k + 1) <= length (mp_packet st))%nat ->
  parse_cells cs st = None.
Proof.
  revert st k. induction cs as [| [y x] cs IH]; intros st k Hok Hcs Hk Hout Hlen;
    [discriminate |].
  apply List.Forall_cons_iff in Hcs as [[Hy Hx] Hcs]. cbn [fst snd] in Hy, Hx.
  cbn [parse_cells]. unfold parse_tile.
  destruct (Packet.read_i32 (mp_packet st)) as [[v p] |] eqn:Hread.
  - destruct (set_tile y x v (mp_grid st)) as [grid |] eqn:Hset; [| reflexivity].
    cbn [parseOk]. rewrite Hok.
    destruct k as [| k].
    + injection Hk as <-. rewrite set_tile_outside in Hset by assumption. discriminate.
    + apply (IH _ k); cbn [parseOk mp_grid mp_packet].
      * reflexivity.
      * exact Hcs.
      * exact Hk.
      * intros Hin. apply Hout. apply (cell_in_shape grid); [| exact Hin].
        now apply set_tile_shape in Hset.
      * apply read_i32_length in Hread. lia.
  - apply read_i32_short in Hread. lia.
Qed.

Lemma dispatch_map_case (s : state) (p : Packet.t) :
  dispatch s (tag_MapData :: p)
  = match on_map_data p (st_map s) with
    | Some m => Some (with_map m s)
    | None => None
    end.
Proof. reflexivity. Qed.

(** X18.  A MapData packet that is applied leaves the grid with as many
    rows as the height it announces; a row the grid already had keeps the
    length it had, whatever the width announced, and only a row that is new
    has the announced width. *)
Theorem map_rows_keep_their_length
    (s s' : state) (p content : Packet.t) (width height : Z) :
  Wire.read_dimensions p = Some (width, height, content) ->
  dispatch s (tag_MapData :: p) = Some s' ->
  length (clientTileMap (st_map s')) = Z.to_nat (Packet.to_int32 height) /\
  forall y row',
    clientTileMap (st_map s') !! y = Some row' ->
    length row' =
      match clientTileMap (st_map s) !! y with
      | Some row => length row
      | None => Z.to_nat (Packet.to_int32 width)
      end.
Proof.
  intros Hdim. rewrite dispatch_map_case. unfold on_map_data. rewrite Hdim.
  set (w := Packet.to_int32 width). set (h := Packet.to_int32 height).
  destruct ((w <? 0) || (h <? 0)); [discriminate |].
  rewrite parse_rows_cells by reflexivity.
  destruct (parse_cells _ _) as [st |] eqn:Hrun; [| discriminate].
  intros [= <-]. cbn [st_map with_map clientTileMap].
  apply parse_cells_shape in Hrun. cbn [mp_grid] in Hrun.
  set (old := clientTileMap (st_map s)) in *.
  split.
  - apply (f_equal length) in Hrun. rewrite !length_fmap in Hrun. rewrite Hrun.
    unfold resize_rows. rewrite length_app, length_take, length_replicate. lia.
  - intros y row' Hrow'.
    assert (Hl : (length <$> resize_rows h w old) !! y = Some (length row'))
      by now rewrite <- Hrun, list_lookup_fmap, Hrow'.
    rewrite list_lookup_fmap in Hl.
    destruct (resize_rows h w old !! y) as [row |] eqn:Hrow; [| discriminate].
    cbn in Hl. injection Hl as <-.
    unfold resize_rows in Hrow. apply lookup_app_Some in Hrow as [Hrow | [Hge Hrow]].
    + apply lookup_take_Some in Hrow as [Hrow _]. now rewrite Hrow.
    + apply lookup_replicate in Hrow as [-> Hlt]. rewrite length_take in Hge.
      rewrite (lookup_ge_None_2 old y) by lia. now rewrite length_replicate.
Qed.

Lemma map_rows_keep_their_length_witness :
  exists s',
    dispatch mapped tall_map = Some s' /\
    length (clientTileMap (st_map s')) = 2%nat.
Proof.
  eexists. split; [vm_compute; reflexivity |].
  refine (proj1 (map_rows_keep_their_length mapped _ (tail tall_map) _ 1 2 _ _)).
  - vm_compute. reflexivity.
  - vm_compute. reflexivity.
Defined.

(** X19.  A MapData packet whose loops reach a cell beyond the end of a row
    the grid already had, with a tile code still in the packet for it, does
    not complete: the write is outside the row.  The rows kept by the resize
    are not widened. *)
Theorem short_row_is_overrun
    (s : state) (p content : Packet.t) (width height : Z)
    (k : nat) (y x : Z) (row : list Z) :
  Wire.read_dimensions p = Some (width, height, content) ->
  cells (Packet.to_int32 width) (Packet.to_int32 height) !! k = Some (y, x) ->
  clientTileMap (st_map s) !! Z.to_nat y = Some row ->
  Z.of_nat (length row) <= x ->
  (4 * (k + 1) <= length content)%nat ->
  dispatch s (tag_MapData :: p) = None.
Proof.
  intros Hdim Hk Hrow Hshort Hlen. rewrite dispatch_map_case.
  unfold on_map_data. rewrite Hdim.
  set (w := Packet.to_int32 width) in *. set (h := Packet.to_int32 height) in *.
  destruct ((w <? 0) || (h <? 0)); [reflexivity |].
  rewrite parse_rows_cells by reflexivity. fold (cells w h).
  rewrite (parse_cells_outside (cells w h) _ k (y, x)); try done.
  - apply cells_nonneg.
  - cbn [mp_grid]. intros (_ & _ & row' & Hrow' & Hlt). cbn [fst snd] in Hrow', Hlt.
    assert (Hy : 0 <= y < h).
    { apply list_elem_of_lookup_2 in Hk. now apply cells_elem in Hk. }
    unfold resize_rows in Hrow'. rewrite lookup_app_l in Hrow'.
    + apply lookup_take_Some in Hrow' as [Hrow' _]. rewrite Hrow in Hrow'.
      injection Hrow' as <-. lia.
    + rewrite length_take. apply lookup_lt_Some in Hrow. lia.
Qed.

Lemma short_row_is_overrun_witness :
  clientTileMap (st_map mapped) = [[1; 1]] /\ dispatch mapped wide_map = None.
Proof.
  split; [vm_compute; reflexivity |].
  refine (short_row_is_overrun mapped (tail wide_map) _ 3 1 2 0 2 [1; 1] _ _ _ _ _).
  - vm_compute. reflexivity.
  - vm_compute. reflexivity.
  - vm_compute. reflexivity.
  - cbn. lia.
  - vm_compute. lia.
Defined.

(** X20.  A MapData message whose width or height has the top bit set is
    negative once cast to [int]; the resize cannot be done and the
    dispatcher does not complete, whatever the tiles. *)
Theorem negative_dimension_is_fatal (s : state) (width height : Z) (tiles : list Z) :
  is_u32 width -> is_u32 height ->
  2147483648 <= width \/ 2147483648 <= height ->
  dispatch s (encode (MapData width height tiles)) = None.
Proof.
  intros Hw Hh Hneg. rewrite encode_map_data, dispatch_map_case.
  unfold on_map_data, Wire.read_dimensions, Packet.bind.
  rewrite read_write_u32 by exact Hw. rewrite read_write_u32 by exact Hh.
  cbn [Packet.ret].
  replace ((Packet.to_int32 width <? 0) || (Packet.to_int32 height <? 0)) with true;
    [reflexivity |].
  symmetry. apply orb_true_iff. unfold Packet.to_int32, is_u32 in *.
  destruct Hneg as [Hneg | Hneg]; [left | right].
  - destruct (Z.ltb_spec width 2147483648); [lia |]. apply Z.ltb_lt. lia.
  - destruct (Z.ltb_spec height 2147483648); [lia |]. apply Z.ltb_lt. lia.
Qed.

Lemma negative_dimension_is_fatal_witness :
  dispatch initial_state negative_map = None.
Proof.
  refine (negative_dimension_is_fatal initial_state 4294967295 1 [] _ _ _).
  - unfold is_u32. lia.
  - unfold is_u32. lia.
  - left. lia.
Defined.

(** ** The centre of the view *)

Lemma SFcompare_Lt_asym (a b : spec_float) :
  SFcompare a b = Some Lt -> SFcompare b a = Some Gt.
Proof.
  unfold SFcompare.
  change IntDef.Z.compare with Z.compare.
  change PosDef.Pos.compare_cont with Pos.compare_cont.
  destruct a as [[] | [] | | [] ma ea], b as [[] | [] | | [] mb eb];
    try discriminate; try reflexivity;
    change (Pos.compare_cont Eq ma mb) with (Pos.compare ma mb);
    change (Pos.compare_cont Eq mb ma) with (Pos.compare mb ma);
    rewrite (Z.compare_antisym ea eb), (Pos.compare_antisym ma mb);
    destruct (ea ?= eb); cbn [CompOpp]; try discriminate; try reflexivity;
    destruct (ma ?= mb)%positive; cbn [CompOpp]; try discriminate; reflexivity.
Qed.

Lemma SFltb_asym (a b : spec_float) : SFltb a b = true -> SFltb b a = false.
Proof.
  unfold SFltb. destruct (SFcompare a b) as [[] |] eqn:E; try discriminate.
  intros _. now rewrite (SFcompare_Lt_asym a b E).
Qed.

Lemma SFcompare_Lt_trans (a b c : spec_float) :
  SFcompare a b = Some Lt -> SFcompare b c = Some Lt -> SFcompare a c = Some Lt.
Proof.
  unfold SFcompare.
  change IntDef.Z.compare with Z.compare.
  change PosDef.Pos.compare_cont with Pos.compare_cont.
  destruct a as [[] | [] | | [] ma ea], b as [[] | [] | | [] mb eb],
           c as [[] | [] | | [] mc ec];
    try discriminate; try reflexivity;
    change (Pos.compare_cont Eq ma mb) with (Pos.compare ma mb);
    change (Pos.compare_cont Eq mb mc) with (Pos.compare mb mc);
    change (Pos.compare_cont Eq ma mc) with (Pos.compare ma mc);
    destruct (Z.compare_spec ea eb), (Z.compare_spec eb ec), (Z.compare_spec ea ec);
    try discriminate; try reflexivity; try lia;
    destruct (Pos.compare_spec ma mb), (Pos.compare_spec mb mc), (Pos.compare_spec ma mc);
    cbn [CompOpp]; try discriminate; try reflexivity; lia.
Qed.

Lemma SFltb_trans (a b c : spec_float) :
  SFltb a b = true -> SFltb b c = true -> SFltb a c = true.
Proof.
  unfold SFltb.
  destruct (SFcompare a b) as [[] |] eqn:E1; try discriminate.
  destruct (SFcompare b c) as [[] |] eqn:E2; try discriminate.
  intros _ _. now rewrite (SFcompare_Lt_trans a b c E1 E2).
Qed.

(** The clamp never gives a value before the half: the outer call is the
    maximum with the half. *)
Lemma clamp_center_not_before (half pos limit : spec_float) :
  SFltb (clamp_center half pos limit) half = false.
Proof.
  unfold clamp_center, float_max.
  destruct (SFltb half (float_min pos limit)) eqn:E.
  - now apply SFltb_asym.
  - apply SFltb_irrefl.
Qed.

Lemma clamp_center_not_after (half pos limit : spec_float) :
  SFltb limit half = false -> SFltb limit (clamp_center half pos limit) = false.
Proof.
  intros Hwide. unfold clamp_center, float_max, float_min.
  destruct (SFltb limit pos) eqn:E1.
  - destruct (SFltb half limit); [apply SFltb_irrefl | exact Hwide].
  - destruct (SFltb half pos); [exact E1 | exact Hwide].
Qed.

(** When the limit is before the half, the maximum wins over the minimum. *)
Lemma clamp_center_pinned (half pos limit : spec_float) :
  SFltb limit half = true -> clamp_center half pos limit = half.
Proof.
  intros Hnarrow. unfold clamp_center, float_max, float_min.
  destruct (SFltb limit pos) eqn:E1.
  - now rewrite (SFltb_asym limit half Hnarrow).
  - destruct (SFltb half pos) eqn:E2; [| reflexivity].
    now rewrite (SFltb_trans limit half pos Hnarrow E2) in E1.
Qed.

Lemma view_half : viewHalfWidth = Float32.of_bits Float32.lit_400
                  /\ viewHalfHeight = Float32.of_bits Float32.lit_300.
Proof. split; vm_compute; reflexivity. Qed.

Lemma narrow_limits :
  forallb (fun w => SFltb (far_limit viewHalfWidth w) viewHalfWidth) (seqZ 0 20) = true /\
  forallb (fun h => SFltb (far_limit viewHalfHeight h) viewHalfHeight) (seqZ 0 15) = true.
Proof. split; vm_compute; reflexivity. Qed.

(** X21.  Once a map is loaded, the centre of the view is never left of
    400 nor above 300, wherever the local player is, also when a
    coordinate of the player is no number; and in a direction in which the
    far limit (the size of the map in pixels less half the view) is not
    before the half, the centre is not beyond that limit. *)
Theorem view_center_clamped (s : state) :
  mapLoaded (st_map s) = true ->
  SFltb (view_center s).1 (Float32.of_bits Float32.lit_400) = false /\
  SFltb (view_center s).2 (Float32.of_bits Float32.lit_300) = false /\
  (SFltb (far_limit viewHalfWidth (clientMapWidth (st_map s))) viewHalfWidth = false ->
   SFltb (far_limit viewHalfWidth (clientMapWidth (st_map s))) (view_center s).1 = false) /\
  (SFltb (far_limit viewHalfHeight (clientMapHeight (st_map s))) viewHalfHeight = false ->
   SFltb (far_limit viewHalfHeight (clientMapHeight (st_map s))) (view_center s).2 = false).
Proof.
  intros Hloaded. unfold view_center. rewrite Hloaded. cbn [fst snd].
  destruct view_half as [<- <-].
  split; [apply clamp_center_not_before |].
  split; [apply clamp_center_not_before |].
  split; apply clamp_center_not_after.
Qed.

Lemma view_center_clamped_witness :
  SFltb (view_center mapped).1 (Float32.of_bits Float32.lit_400) = false /\
  SFltb (view_center mapped).2 (Float32.of_bits Float32.lit_300) = false.
Proof.
  refine (match view_center_clamped mapped _ with
          | conj Hx (conj Hy _) => conj Hx Hy
          end).
  vm_compute. reflexivity.
Defined.

(** X22.  With a loaded map of fewer than 20 columns the centre of the view
    stays at x = 400, and with fewer than 15 rows at y = 300, wherever the
    local player is: the map is smaller than the view, and the maximum with
    the half is taken after the minimum with the far limit. *)
Theorem small_map_pins_view (s : state) :
  mapLoaded (st_map s) = true ->
  (0 <= clientMapWidth (st_map s) < 20 ->
   (view_center s).1 = Float32.of_bits Float32.lit_400) /\
  (0 <= clientMapHeight (st_map s) < 15 ->
   (view_center s).2 = Float32.of_bits Float32.lit_300).
Proof.
  intros Hloaded. unfold view_center. rewrite Hloaded. cbn [fst snd].
  destruct view_half as [<- <-]. destruct narrow_limits as [Hw Hh].
  rewrite forallb_forall in Hw, Hh.
  split; intros Hsmall; apply clamp_center_pinned.
  - apply Hw. apply list_elem_of_In, elem_of_seqZ. lia.
  - apply Hh. apply list_elem_of_In, elem_of_seqZ. lia.
Qed.

Lemma small_map_pins_view_witness :
  clientMapWidth (st_map mapped) = 2 /\
  (view_center mapped).1 = Float32.of_bits Float32.lit_400.
Proof.
  split; [vm_compute; reflexivity |].
  refine (proj1 (small_map_pins_view mapped _) _).
  - vm_compute. reflexivity.
  - vm_compute. split; [intros H; discriminate H | reflexivity].
Defined.

(** ** The facing of the local player *)

(** X23.  After an iteration the local player faces right when the window
    has the focus and the right key is held, also with the left key held
    too; faces left when it has the focus and only the left key of the two
    is held; and faces as before otherwise.  No packet changes the facing.
    The horizontal scale of the sprite is 1 when facing right and -1
    otherwise, and previousX is the x position of the sprite. *)
Theorem facing_follows_keys (i : FrameInput) (s s' : state) :
  frame i s = Some s' ->
  facingRight (st_local s') =
    (if fi_focus i then
       if right (fi_keys i) then true
       else if left (fi_keys i) then false
       else facingRight (st_local s)
     else facingRight (st_local s)) /\
  sp_scale (playerSprite (st_local s')) =
    (if facingRight (st_local s') then Float32.lit_1_0 else Float32.lit_neg_1_0) /\
  previousX (st_local s') = sp_x (playerSprite (st_local s')).
Proof.
  intros Hrun.
  destruct (frame_parts i s s' Hrun) as (n & r & Hn & _ & ->).
  apply local_animation_network in Hn. unfold local_animation in Hn.
  assert (Hf : facingRight (st_local n) = facingRight (st_local (before_network i s)))
    by congruence.
  assert (Hb : facingRight (st_local (before_network i s)) =
               (if fi_focus i then
                  if right (fi_keys i) then true
                  else if left (fi_keys i) then false
                  else facingRight (st_local s)
                else facingRight (st_local s)))
    by (unfold before_network; destruct (fi_close i); reflexivity).
  assert (Ht : facingRight (local_transition (sample_input i) (st_local n))
               = facingRight (st_local n))
    by (unfold local_transition; destruct (local_changes _ _); reflexivity).
  destruct (local_advance_fields (local_transition (sample_input i) (st_local n)))
    as (_ & _ & _ & _ & E5 & E6).
  cbn [st_local with_remote with_local end_of_frame facingRight playerSprite previousX].
  rewrite E5, E6, Ht, Hf, Hb. repeat split; reflexivity.
Qed.

Lemma facing_follows_keys_witness :
  exists s',
    frame opening initial_state = Some s' /\ facingRight (st_local s') = true.
Proof.
  eexists. split; [vm_compute; reflexivity |].
  refine (proj1 (facing_follows_keys opening initial_state _ _)).
  vm_compute. reflexivity.
Defined.

(** ** Bytes after the fields *)

Lemma read_i32_more (p p' extra : Packet.t) (v : Z) :
  Packet.read_i32 p = Some (v, p') ->
  Packet.read_i32 (p ++ extra) = Some (v, p' ++ extra).
Proof.
  unfold Packet.read_i32, Packet.bind, Packet.read_u32, Packet.ret.
  destruct p as [| b0 [| b1 [| b2 [| b3 p'']]]]; try discriminate.
  cbn [app]. now intros [= <- <-].
Qed.

(** The loops over a packet that holds a tile code for every cell do not
    look at what follows the tile codes. *)
Lemma parse_cells_more
    (cs : list (Z * Z)) (p extra : Packet.t) (grid : list (list Z)) (shapes : list (Z * Z)) :
  (4 * length cs <= length p)%nat ->
  parse_cells cs {| mp_packet := p ++ extra; mp_grid := grid;
                    mp_shapes := shapes; parseOk := true |}
  = match parse_cells cs {| mp_packet := p; mp_grid := grid;
                            mp_shapes := shapes; parseOk := true |} with
    | Some st' => Some {| mp_packet := mp_packet st' ++ extra; mp_grid := mp_grid st';
                          mp_shapes := mp_shapes st'; parseOk := parseOk st' |}
    | None => None
    end.
Proof.
  revert p grid shapes. induction cs as [| [y x] cs IH]; intros p grid shapes Hlen;
    [reflexivity |].
  cbn [parse_cells]. unfold parse_tile. cbn [mp_packet mp_grid mp_shapes parseOk].
  destruct (Packet.read_i32 p) as [[v p'] |] eqn:Hread.
  - rewrite (read_i32_more p p' extra v Hread).
    destruct (set_tile y x v grid) as [grid' |]; [| reflexivity].
    cbn [parseOk]. apply IH. apply read_i32_length in Hread. cbn [length] in Hlen. lia.
  - apply read_i32_short in Hread. cbn [length] in Hlen. lia.
Qed.

Lemma tile_bytes_length (tiles : list Z) (rest : Packet.t) :
  Forall is_i32 tiles -> (4 * length tiles <= length (tile_bytes tiles ++ rest))%nat.
Proof.
  intros Htiles. apply read_available_all.
  now rewrite read_available_tile_bytes.
Qed.

(** X24.  Bytes that follow the fields of a well-formed message do not
    change what the dispatcher does with the packet: no case checks that
    the packet has been read to its end. *)
Theorem trailing_bytes_ignored (s : state) (m : Message) (extra : Packet.t) :
  well_formed m ->
  dispatch s (encode m ++ extra) = dispatch s (encode m).
Proof.
  intros Hm.
  destruct m as [id | id x y g | input | id x y g | id | width height tiles].
  - rewrite dispatch_welcome by exact Hm.
    change (encode (Welcome id)) with (tag_Welcome :: Packet.write_u32 id [] ++ []).
    rewrite <- app_comm_cons, <- app_assoc.
    unfold dispatch. cbn [Wire.read_type Packet.read_u8]. cbn [Z.eqb tag_Welcome].
    now rewrite read_write_u32.
  - destruct Hm as (Hid & Hx & Hy). rewrite dispatch_player_state by assumption.
    rewrite encode_player_state, <- app_comm_cons, <- !app_assoc.
    unfold dispatch. cbn [Wire.read_type Packet.read_u8].
    change (tag_PlayerState =? tag_Welcome) with false.
    change (tag_PlayerState =? tag_PlayerState) with true. cbv iota.
    now rewrite read_player_written.
  - now destruct input as [[] [] [] [] []].
  - destruct Hm as (Hid & Hx & Hy). rewrite dispatch_player_joined by assumption.
    rewrite encode_player_joined, <- app_comm_cons, <- !app_assoc.
    unfold dispatch. cbn [Wire.read_type Packet.read_u8].
    change (tag_PlayerJoined =? tag_Welcome) with false.
    change (tag_PlayerJoined =? tag_PlayerState) with false.
    change (tag_PlayerJoined =? tag_PlayerJoined) with true. cbv iota.
    now rewrite read_player_written.
  - rewrite dispatch_player_left by exact Hm.
    change (encode (PlayerLeft id)) with (tag_PlayerLeft :: Packet.write_u32 id [] ++ []).
    rewrite <- app_comm_cons, <- app_assoc.
    unfold dispatch. cbn [Wire.read_type Packet.read_u8].
    change (tag_PlayerLeft =? tag_Welcome) with false.
    change (tag_PlayerLeft =? tag_PlayerState) with false.
    change (tag_PlayerLeft =? tag_PlayerJoined) with false.
    change (tag_PlayerLeft =? tag_PlayerLeft) with true. cbv iota.
    now rewrite read_write_u32.
  - destruct Hm as (Hw & Hh & Hlen & Htiles).
    rewrite encode_map_data, <- app_comm_cons, <- !app_assoc, !dispatch_map_case.
    unfold on_map_data, Wire.read_dimensions, Packet.bind.
    rewrite !read_write_u32 by (unfold is_u32; lia).
    cbn [Packet.ret]. rewrite !to_int32_small by lia.
    destruct ((width <? 0) || (height <? 0)); [reflexivity |].
    rewrite !parse_rows_cells by reflexivity. fold (cells width height).
    rewrite (app_assoc (tile_bytes tiles) [] extra).
    rewrite parse_cells_more.
    + now destruct (parse_cells (cells width height) _) as [st |].
    + destruct (length_cells width height) as [Hc | [? | ?]]; [| lia | lia].
      rewrite Hc, <- Hlen, Nat2Z.id. now apply tile_bytes_length.
Qed.

Lemma trailing_bytes_ignored_witness :
  dispatch mapped (tall_map ++ [7; 7; 7]) = dispatch mapped tall_map.
Proof.
  refine (trailing_bytes_ignored mapped (MapData 1 2 [1; 1]) [7; 7; 7] _).
  cbn [well_formed]. unfold is_i32.
  split; [lia |]. split; [lia |]. split; [reflexivity |].
  repeat (apply List.Forall_cons; [lia |]). apply List.Forall_nil.
Defined.

(** ** The sprites of the other players in the animation loop *)

Lemma advance_sprite_position (d : AnimationData) (frame timer : Z) (sp : Sprite) :
  sp_x (advance_sprite d frame timer sp) = sp_x sp /\
  sp_y (advance_sprite d frame timer sp) = sp_y sp.
Proof. unfold advance_sprite. destruct (Z.leb _ _); split; reflexivity. Qed.

Lemma remote_advance_loop_sprites (players : list (Z * Sprite)) (r r' : Remote) :
  NoDup players.*1 ->
  keys_agree r ->
  (forall id sp, (id, sp) ∈ players -> otherPlayers r !! id = Some sp) ->
  remote_advance_loop players r = Some r' ->
  (forall id sp,
      (id, sp) ∈ players ->
      exists (sp' : Sprite) (facing : bool),
        otherPlayers r' !! id = Some sp' /\
        otherPlayersFacingRight r !! id = Some facing /\
        sp_x sp' = sp_x sp /\ sp_y sp' = sp_y sp /\
        sp_scale sp' = (if facing then Float32.lit_1_0 else Float32.lit_neg_1_0)) /\
  (forall id, id ∉ players.*1 -> otherPlayers r' !! id = otherPlayers r !! id).
Proof.
  revert r. induction players as [| [id0 sprite] rest IH]; intros r Hnodup Hr Hsnap Hloop.
  - cbn in Hloop. apply (inj Some) in Hloop. subst r'. split; [| reflexivity].
    intros id sp Hin. now apply elem_of_nil in Hin.
  - cbn [fmap list_fmap fst] in Hnodup. apply NoDup_cons in Hnodup as [Hfresh Hnodup].
    assert (Hin0 : id0 ∈ dom (otherPlayers r)).
    { apply elem_of_dom. exists sprite. apply Hsnap. left. }
    destruct (remote_advance_one_defined id0 sprite r Hr Hin0) as
      (st0 & f0 & t0 & Hst0 & Hf0 & Ht0 & r1 & Hone & Hr1 & _ & _ & Hfacing1 & _).
    assert (Hfac : is_Some (otherPlayersFacingRight r !! id0)).
    { apply elem_of_dom. destruct Hr as (_ & _ & _ & H4). now rewrite H4. }
    destruct Hfac as [facing0 Hfac].
    assert (Hsp1 : otherPlayers r1
                   = <[id0 := setScale facing0
                                (advance_sprite (animData st0) f0 t0 sprite)]> (otherPlayers r)).
    { revert Hone. unfold remote_advance_one. rewrite Hst0, Hf0, Ht0, Hfac.
      destruct (advance_frame (animData st0) f0 t0) as [frame timer].
      intros Hone. apply (inj Some) in Hone. now subst r1. }
    cbn [remote_advance_loop] in Hloop. rewrite Hone in Hloop.
    destruct (IH r1 Hnodup Hr1) as [Hin' Hout'].
    { intros id sp Hin.
      assert (Hne : id0 <> id).
      { intros <-. apply Hfresh. apply list_elem_of_fmap. now exists (id0, sp). }
      rewrite Hsp1, lookup_insert_ne by exact Hne. apply Hsnap. now right. }
    { exact Hloop. }
    split.
    + intros id sp Hin. apply elem_of_cons in Hin as [Heq | Hin].
      * injection Heq as -> ->.
        exists (setScale facing0 (advance_sprite (animData st0) f0 t0 sprite)), facing0.
        split; [rewrite (Hout' id0 Hfresh), Hsp1; apply lookup_insert_eq |].
        split; [exact Hfac |].
        destruct (advance_sprite_position (animData st0) f0 t0 sprite) as [Hx Hy].
        cbn [setScale sp_x sp_y sp_scale]. rewrite Hx, Hy.
        split; [reflexivity |]. split; reflexivity.
      * destruct (Hin' id sp Hin) as (sp' & facing & H1 & H2 & H3).
        exists sp', facing. split; [exact H1 |]. split; [now rewrite <- Hfacing1 | exact H3].
    + intros id Hid. cbn [fmap list_fmap fst] in Hid.
      apply not_elem_of_cons in Hid as [Hne Hid].
      rewrite (Hout' id Hid), Hsp1. apply lookup_insert_ne. congruence.
Qed.

(** X25.  The animation loop over the other players moves no sprite, and
    leaves every sprite with the horizontal scale of the facing recorded for
    its player: 1 when facing right, -1 otherwise. *)
Theorem animation_loop_sets_scale (r r' : Remote) (id : Z) (sprite : Sprite) :
  keys_agree r ->
  remote_advance r = Some r' ->
  otherPlayers r !! id = Some sprite ->
  exists (sprite' : Sprite) (facing : bool),
    otherPlayers r' !! id = Some sprite' /\
    otherPlayersFacingRight r' !! id = Some facing /\
    sp_x sprite' = sp_x sprite /\ sp_y sprite' = sp_y sprite /\
    sp_scale sprite' = (if facing then Float32.lit_1_0 else Float32.lit_neg_1_0).
Proof.
  intros Hr Hrun Hsprite.
  destruct (remote_advance_result r Hr) as (r2 & Hr2 & _ & _ & _ & Hfacing & _).
  assert (r2 = r') as -> by congruence.
  unfold remote_advance in Hrun.
  destruct (remote_advance_loop_sprites (map_to_list (otherPlayers r)) r r') as [Hin _].
  - apply NoDup_fst_map_to_list.
  - exact Hr.
  - intros id' sp Hin. now apply elem_of_map_to_list.
  - exact Hrun.
  - destruct (Hin id sprite) as (sp' & facing & H1 & H2 & H3).
    { now apply elem_of_map_to_list. }
    exists sp', facing. split; [exact H1 |]. split; [now rewrite Hfacing | exact H3].
Qed.

Lemma animation_loop_sets_scale_witness :
  exists r' sprite,
    remote_advance (st_remote walking) = Some r' /\
    otherPlayers (st_remote walking) !! 7 = Some sprite /\
    exists (sprite' : Sprite) (facing : bool),
      otherPlayers r' !! 7 = Some sprite' /\
      otherPlayersFacingRight r' !! 7 = Some facing /\
      sp_x sprite' = sp_x sprite /\ sp_y sprite' = sp_y sprite /\
      sp_scale sprite' = (if facing then Float32.lit_1_0 else Float32.lit_neg_1_0).
Proof.
  eexists. eexists. split; [vm_compute; reflexivity |].
  split; [vm_compute; reflexivity |].
  refine (animation_loop_sets_scale (st_remote walking) _ 7 _ _ _ _).
  - apply (keys_agree_walking).
  - vm_compute. reflexivity.
  - vm_compute. reflexivity.
Defined.

(** ** The texture rectangle of the local player *)

Lemma local_rect_dispatch (s s' : state) (packet : Packet.t) :
  dispatch s packet = Some s' ->
  sp_rect (playerSprite (st_local s')) = sp_rect (playerSprite (st_local s)).
Proof.
  apply (dispatch_cases
           (fun s0 t => sp_rect (playerSprite (st_local t))
                        = sp_rect (playerSprite (st_local s0))));
    try done.
  - intros id x y g _. unfold on_player_state. now destruct (id =? myPlayerId s).
  - intros id x y g _. unfold on_player_joined. now destruct (_ && _).
  - intros id _. unfold on_player_left. now destruct (negb _).
Qed.

Lemma local_rect_receive_all (packets : list Packet.t) (s s' : state) :
  receive_all s packets = Some s' ->
  sp_rect (playerSprite (st_local s')) = sp_rect (playerSprite (st_local s)).
Proof.
  revert s. induction packets as [| packet rest IH]; intros s; cbn [receive_all].
  - now intros [= <-].
  - destruct (dispatch s packet) as [s1 |] eqn:E; [| discriminate].
    intros Hrest. rewrite (IH _ Hrest). now apply (local_rect_dispatch s s1 packet).
Qed.

Lemma local_rect_network (i : FrameInput) (s s' : state) :
  network i s = Some s' ->
  sp_rect (playerSprite (st_local s')) = sp_rect (playerSprite (st_local s)).
Proof.
  unfold network.
  set (s1 := if connected s then s else with_connection (fi_connect_ok i) (windowOpen s) s).
  assert (H1 : st_local s1 = st_local s) by (subst s1; now destruct (connected s)).
  destruct (connected s1); [| intros [= <-]; now rewrite H1].
  destruct (receive_all s1 (fi_inbound i)) as [s2 |] eqn:E; [| discriminate].
  intros [= <-]. apply local_rect_receive_all in E. rewrite <- H1, <- E.
  now destruct (fi_remote_alive i).
Qed.

Lemma local_rect_ok_transition (input : PlayerInputState) (l : LocalPlayer) :
  local_rect_ok l -> local_rect_ok (local_transition input l).
Proof.
  intros Hl. unfold local_transition.
  destruct (local_changes l input); [| exact Hl]. right. reflexivity.
Qed.

Lemma local_rect_ok_advance (l : LocalPlayer) :
  local_rect_ok l -> local_rect_ok (end_of_frame (local_advance l)).
Proof.
  unfold local_rect_ok, local_advance, advance_frame, advance_sprite.
  destruct (Z.leb _ _);
    cbn [end_of_frame playerSprite currentAnimState currentFrame setScale
         setTextureRect sp_rect].
  - intros _. right. reflexivity.
  - intros Hl. exact Hl.
Qed.

Lemma local_rect_ok_frame (i : FrameInput) (s s' : state) :
  local_rect_ok (st_local s) -> frame i s = Some s' -> local_rect_ok (st_local s').
Proof.
  intros Hl Hrun.
  destruct (frame_parts i s s' Hrun) as (n & r & Hn & _ & ->).
  cbn [st_local with_remote with_local].
  apply local_rect_ok_advance, local_rect_ok_transition.
  unfold local_rect_ok.
  rewrite (local_rect_network _ _ _ Hn).
  destruct (local_animation_fields _ _ (local_animation_network _ _ _ Hn))
    as (-> & -> & _).
  destruct (local_animation_before_network i s) as (-> & -> & _).
  assert (Hb : playerSprite (st_local (before_network i s)) = playerSprite (st_local s))
    by (unfold before_network; now destruct (fi_close i)).
  rewrite Hb. exact Hl.
Qed.

(** X26.  At the end of every iteration of a run from the initial state, the
    texture rectangle of the local sprite is either still not set (the whole
    texture is drawn) or the rectangle of the current frame of the current
    animation: the transition and the frame advance set it together with
    the state and the frame index, and no packet changes it. *)
Theorem local_rect_shows_current_frame (inputs : list FrameInput) (s : state) :
  frames inputs initial_state = Some s ->
  local_rect_ok (st_local s).
Proof.
  assert (Hgen : forall s0, local_rect_ok (st_local s0) ->
                            frames inputs s0 = Some s -> local_rect_ok (st_local s)).
  { induction inputs as [| i rest IH]; intros s0 H0; cbn [frames].
    - intros Hs. apply (inj Some) in Hs. now subst s.
    - destruct (windowOpen s0).
      + destruct (frame i s0) as [s1 |] eqn:E; [| discriminate].
        apply IH. exact (local_rect_ok_frame i s0 s1 H0 E).
      + intros Hs. apply (inj Some) in Hs. now subst s. }
  apply Hgen. left. reflexivity.
Qed.

Lemma local_rect_shows_current_frame_witness :
  exists s,
    frames [opening; quiet 350000; takeoff] initial_state = Some s /\
    local_rect_ok (st_local s).
Proof.
  eexists. split; [vm_compute; reflexivity |].
  refine (local_rect_shows_current_frame [opening; quiet 350000; takeoff] _ _).
  vm_compute. reflexivity.
Defined.

(** ** Iterations that do not close the window *)

(** X27.  An iteration that polls no close event and does not find its
    connection without a remote address leaves the window as it was, and is
    connected afterwards exactly when it was connected before or its attempt
    to connect succeeded; no packet changes either. *)
Theorem other_iterations_keep_window (i : FrameInput) (s s' : state) :
  closes i s = false ->
  frame i s = Some s' ->
  windowOpen s' = windowOpen s /\
  connected s' = connected s || fi_connect_ok i.
Proof.
  intros Hcl Hrun.
  destruct (frame_parts i s s' Hrun) as (n & r & Hn & _ & ->).
  cbn [windowOpen connected with_remote with_local].
  unfold closes in Hcl. apply orb_false_iff in Hcl as [Hclose Hlost].
  revert Hn. unfold network.
  assert (Bc : connected (before_network i s) = connected s)
    by (unfold before_network; now destruct (fi_close i)).
  assert (Bw : windowOpen (before_network i s) = windowOpen s)
    by (unfold before_network; now rewrite Hclose).
  set (b := before_network i s) in *.
  set (s1 := if connected b then b else with_connection (fi_connect_ok i) (windowOpen b) b).
  assert (Hw1 : windowOpen s1 = windowOpen s)
    by (subst s1; rewrite <- Bw; now destruct (connected b)).
  assert (Hc1 : connected s1 = connected s || fi_connect_ok i).
  { subst s1. rewrite <- Bc. destruct (connected b) eqn:E; [now rewrite E | reflexivity]. }
  destruct (connected s1) eqn:Ec.
  - destruct (receive_all s1 (fi_inbound i)) as [s2 |] eqn:E; [| discriminate].
    apply connection_receive_all in E as [Hc2 Hw2].
    intros Hn. apply (inj Some) in Hn. subst n. rewrite <- Hc1 in Hlost.
    destruct (fi_remote_alive i); [| discriminate].
    rewrite Hw2, Hc2, Hw1, Ec, <- Hc1. split; reflexivity.
  - intros Hn. apply (inj Some) in Hn. subst n. rewrite Hw1, Ec, <- Hc1. split; reflexivity.
Qed.

Lemma other_iterations_keep_window_witness :
  exists s',
    frame opening initial_state = Some s' /\
    windowOpen s' = true /\ connected s' = true.
Proof.
  eexists. split; [vm_compute; reflexivity |].
  refine (other_iterations_keep_window opening initial_state _ _ _).
  - vm_compute. reflexivity.
  - vm_compute. reflexivity.
Defined.
